(** * Chess rules core: board, pieces, check, checkmate and stalemate

  A shallow embedding of [chess_app/src/pieces.ts] (the revision with the
  [firstMove] / [enPassant] flags and the [castle] argument), followed by
  the properties of the rules core that are established about it.

  Conventions of the embedding:
  - coordinates are integers ([Z]); the board is the array of pieces, in
    array order ([list Piece]); [push] appends at the end;
  - an exception is a [Throw] outcome carrying which [Error] was raised;
  - the [while] loops of the sliding pieces and the recursion between
    [King.getOpenMoves] and [inCheck] consume fuel; running out of fuel is
    the outcome [Timeout], so that termination is a theorem and not an
    assumption of the model. *)

From Stdlib Require Import ZArith List Bool Lia.
Import ListNotations.

Local Open Scope Z_scope.

(* ================================================================== *)
(** ** Outcomes of a call *)

(** The five [throw new Error(...)] sites of the source. *)
Inductive Error : Type :=
| CoordinateOutOfBounds   (* Board.isEmpty: "Coordinate out of bounds" *)
| NoPieceInSpace          (* Board.getPieceAt: 'No Piece In Space' *)
| IllegalCoordinate       (* Board.getPieceAt: 'Illegal coordinate' *)
| MovingPieceOutOfBounds  (* move: "Moving piece out of bounds" *)
| MustHaveAKing.          (* inCheck: "Must have a king" *)

Inductive outcome (A : Type) : Type :=
| Ret (a : A)
| Throw (e : Error)
| Timeout.

Arguments Ret {A} a.
Arguments Throw {A} e.
Arguments Timeout {A}.

Definition bind {A B : Type} (m : outcome A) (k : A -> outcome B) : outcome B :=
  match m with
  | Ret a => k a
  | Throw e => Throw e
  | Timeout => Timeout
  end.

Notation "x <- m ;; k" := (bind m (fun x => k))
  (at level 61, m at next level, right associativity).

(** [returns m] holds when the call came back with a value. *)
Definition returns {A : Type} (m : outcome A) : bool :=
  match m with Ret _ => true | _ => false end.

Definition timedOut {A : Type} (m : outcome A) : bool :=
  match m with Timeout => true | _ => false end.

(** [m] came back with the boolean [true]. *)
Definition holds (m : outcome bool) : bool :=
  match m with Ret b => b | _ => false end.

(* ================================================================== *)
(** ** Coordinate *)

Record Coordinate : Type := mkCoordinate { column : Z; row : Z }.

Module Coord.

Definition inBounds (c : Coordinate) : bool :=
  (0 <=? column c) && (column c <? 8) && (0 <=? row c) && (row c <? 8).

Definition equals (c other : Coordinate) : bool :=
  (column c =? column other) && (row c =? row other).

End Coord.

Notation "'(|' c ',' r '|)'" := (mkCoordinate c r) (at level 0, c at level 200, r at level 200).

(* ================================================================== *)
(** ** Pieces *)

Inductive Color : Type := White | Black.

Definition Color_eqb (a b : Color) : bool :=
  match a, b with
  | White, White | Black, Black => true
  | _, _ => false
  end.

(** One constructor per class; the arguments are the constructor arguments
  of the class, in their order.  [Pawn], [Rook] and [King] take the
  [firstMove] flag ([Pawn] also [enPassant]); the source's defaults are
  [firstMove = true] and [enPassant = false]. *)
Inductive Piece : Type :=
| Pawn   (color : Color) (column row : Z) (firstMove enPassant : bool)
| Bishop (color : Color) (column row : Z)
| Rook   (color : Color) (column row : Z) (firstMove : bool)
| Queen  (color : Color) (column row : Z)
| King   (color : Color) (column row : Z) (firstMove : bool)
| Knight (color : Color) (column row : Z).

(** The readonly fields of the [Piece] interface. *)
Definition color (p : Piece) : Color :=
  match p with
  | Pawn c _ _ _ _ | Bishop c _ _ | Rook c _ _ _
  | Queen c _ _ | King c _ _ _ | Knight c _ _ => c
  end.

Definition position (p : Piece) : Coordinate :=
  match p with
  | Pawn _ c r _ _ | Bishop _ c r | Rook _ c r _
  | Queen _ c r | King _ c r _ | Knight _ c r => (| c, r |)
  end.

Definition firstMove (p : Piece) : bool :=
  match p with
  | Pawn _ _ _ f _ | Rook _ _ _ f | King _ _ _ f => f
  | Bishop _ _ _ | Queen _ _ _ | Knight _ _ _ => false
  end.

Definition enPassant (p : Piece) : bool :=
  match p with
  | Pawn _ _ _ _ e => e
  | _ => false
  end.

(** [instanceof] tests. *)
Definition isPawn (p : Piece) : bool :=
  match p with Pawn _ _ _ _ _ => true | _ => false end.

Definition isRook (p : Piece) : bool :=
  match p with Rook _ _ _ _ => true | _ => false end.

Definition isKing (p : Piece) : bool :=
  match p with King _ _ _ _ => true | _ => false end.

(* ================================================================== *)
(** ** Board *)

Definition Board : Type := list Piece.

Module Board.

(** The [for (let piece of this.pieces)] scan shared by [isEmpty] and
    [getPieceAt]: the first piece standing on [coordinate]. *)
Fixpoint firstAt (pieces : Board) (coordinate : Coordinate) : option Piece :=
  match pieces with
  | [] => None
  | piece :: rest =>
      if Coord.equals (position piece) coordinate then Some piece
      else firstAt rest coordinate
  end.

Definition isEmpty (board : Board) (coordinate : Coordinate) : outcome bool :=
  if Coord.inBounds coordinate then
    match firstAt board coordinate with
    | Some _ => Ret false
    | None => Ret true
    end
  else Throw CoordinateOutOfBounds.

Definition getPieceAt (board : Board) (coordinate : Coordinate) : outcome Piece :=
  if Coord.inBounds coordinate then
    match firstAt board coordinate with
    | Some piece => Ret piece
    | None => Throw NoPieceInSpace
    end
  else Throw IllegalCoordinate.

Definition getPieces (board : Board) : list Piece := board.

End Board.

(* ================================================================== *)
(** ** Loops *)

(** [for (let x of xs) { ... }] over an array, threading the variables the
    body assigns to; an exception or a timeout in the body leaves the loop. *)
Fixpoint forEach {A S : Type} (xs : list A) (body : S -> A -> outcome S) (s : S)
  : outcome S :=
  match xs with
  | [] => Ret s
  | x :: rest => s' <- body s x ;; forEach rest body s'
  end.

(** [xs.push(x)] *)
Definition push {A : Type} (xs : list A) (x : A) : list A := xs ++ [x].

Definition pushIf {A : Type} (cond : bool) (xs : list A) (x : A) : list A :=
  if cond then push xs x else xs.

(* ================================================================== *)
(** ** Raw movement geometry: [getOpenMoves] of each class *)

Definition Direction : Type := (Z * Z)%type.

Definition diagonals : list Direction :=
  [(1, 1); (1, -1); (-1, 1); (-1, -1)].
Definition orthogonals : list Direction :=
  [(1, 0); (-1, 0); (0, 1); (0, -1)].
Definition allDirections : list Direction :=
  [(1, 1); (1, -1); (-1, 1); (-1, -1); (1, 0); (-1, 0); (0, 1); (0, -1)].
Definition knightJumps : list Direction :=
  [(2, 1); (1, 2); (-2, 1); (-1, 2); (2, -1); (1, -2); (-2, -1); (-1, -2)].

Definition shift (c : Coordinate) (d : Direction) : Coordinate :=
  (| column c + fst d, row c + snd d |).

Module PawnImpl.

(** A diagonal capture: [if (target.inBounds()) if (!board.isEmpty(target))
    if (this.color !== board.getPieceAt(target).color) openMoves.push(target)]. *)
Definition capture (board : Board) (thisColor : Color) (target : Coordinate)
  (openMoves : list Coordinate) : outcome (list Coordinate) :=
  if Coord.inBounds target then
    empty <- Board.isEmpty board target ;;
    if negb empty then
      other <- Board.getPieceAt board target ;;
      Ret (pushIf (negb (Color_eqb thisColor (color other))) openMoves target)
    else Ret openMoves
  else Ret openMoves.

(** En passant: a pawn of the other color holding the flag stands on
    [horizontal]; the square pushed is the diagonal [target]. *)
Definition passing (board : Board) (thisColor : Color)
  (horizontal target : Coordinate) (openMoves : list Coordinate)
  : outcome (list Coordinate) :=
  if Coord.inBounds horizontal then
    empty <- Board.isEmpty board horizontal ;;
    if negb empty then
      other <- Board.getPieceAt board horizontal ;;
      if negb (Color_eqb thisColor (color other)) then
        if isPawn other then Ret (pushIf (enPassant other) openMoves target)
        else Ret openMoves
      else Ret openMoves
    else Ret openMoves
  else Ret openMoves.

Definition getOpenMoves (thisColor : Color) (col rw : Z) (first : bool)
  (board : Board) : outcome (list Coordinate) :=
  let forward :=
    match thisColor with Black => (| col, rw + 1 |) | White => (| col, rw - 1 |) end in
  let left :=
    match thisColor with Black => (| col - 1, rw + 1 |) | White => (| col - 1, rw - 1 |) end in
  let right :=
    match thisColor with Black => (| col + 1, rw + 1 |) | White => (| col + 1, rw - 1 |) end in
  let doubleForward :=
    match thisColor with Black => (| col, rw + 2 |) | White => (| col, rw - 2 |) end in
  let leftHorizontal := (| col - 1, rw |) in
  let rightHorizontal := (| col + 1, rw |) in
  let openMoves := [] in
  (* Moves forward normally *)
  openMoves <-
    (if Coord.inBounds forward then
       empty <- Board.isEmpty board forward ;;
       Ret (pushIf empty openMoves forward)
     else Ret openMoves) ;;
  (* Can move two forward on its first move *)
  openMoves <-
    (if first then
       e1 <- Board.isEmpty board forward ;;
       if e1 then
         e2 <- Board.isEmpty board doubleForward ;;
         Ret (pushIf e2 openMoves doubleForward)
       else Ret openMoves
     else Ret openMoves) ;;
  openMoves <- capture board thisColor left openMoves ;;
  openMoves <- passing board thisColor leftHorizontal left openMoves ;;
  openMoves <- capture board thisColor right openMoves ;;
  passing board thisColor rightHorizontal right openMoves.

End PawnImpl.

Module Slider.

(** What follows the [while] loop of a sliding piece: the square the loop
    stopped on is a capture when it is on the board and holds a piece of the
    other color. *)
Definition afterLoop (board : Board) (thisColor : Color)
  (newPosition : Coordinate) (openMoves : list Coordinate)
  : outcome (list Coordinate) :=
  if Coord.inBounds newPosition then
    other <- Board.getPieceAt board newPosition ;;
    Ret (pushIf (negb (Color_eqb (color other) thisColor)) openMoves newPosition)
  else Ret openMoves.

(** [while (newPosition.inBounds()) { if (board.isEmpty(newPosition)) { push;
    advance } else break }], one unit of fuel per evaluation of the loop
    condition, followed by [afterLoop]. *)
Fixpoint ray (fuel : nat) (board : Board) (thisColor : Color) (d : Direction)
  (newPosition : Coordinate) (openMoves : list Coordinate)
  : outcome (list Coordinate) :=
  match fuel with
  | O => Timeout
  | S fuel' =>
      if Coord.inBounds newPosition then
        empty <- Board.isEmpty board newPosition ;;
        if empty then
          ray fuel' board thisColor d (shift newPosition d) (push openMoves newPosition)
        else afterLoop board thisColor newPosition openMoves
      else afterLoop board thisColor newPosition openMoves
  end.

Definition getOpenMoves (fuel : nat) (directions : list Direction)
  (thisColor : Color) (col rw : Z) (board : Board) : outcome (list Coordinate) :=
  forEach directions
    (fun openMoves direction =>
       ray fuel board thisColor direction (shift (| col, rw |) direction) openMoves)
    [].

End Slider.

Module Stepper.

(** The loop body shared by [King] and [Knight]: one square per direction. *)
Definition step (board : Board) (thisColor : Color) (from : Coordinate)
  (openMoves : list Coordinate) (direction : Direction)
  : outcome (list Coordinate) :=
  let newPosition := shift from direction in
  if Coord.inBounds newPosition then
    empty <- Board.isEmpty board newPosition ;;
    isOpenMove <-
      (if negb empty then
         other <- Board.getPieceAt board newPosition ;;
         Ret (negb (Color_eqb (color other) thisColor))
       else Ret true) ;;
    Ret (pushIf isOpenMove openMoves newPosition)
  else Ret openMoves.

Definition getOpenMoves (directions : list Direction) (thisColor : Color)
  (col rw : Z) (board : Board) : outcome (list Coordinate) :=
  forEach directions (step board thisColor (| col, rw |)) [].

End Stepper.

(* ================================================================== *)
(** ** Board transition: [move] of each class *)

(** [new Pawn(oldPiece.color, column, row, oldPiece.firstMove, false)] for a
    pawn, the piece itself otherwise: "pawns can no longer be taken with en
    passant from their last move". *)
Definition clearEnPassant (oldPiece : Piece) : Piece :=
  match oldPiece with
  | Pawn c col rw first _ => Pawn c col rw first false
  | _ => oldPiece
  end.

(** The guard of every [move] loop: the old piece stands neither on the
    destination nor on the square of the moving piece. *)
Definition stays (oldPiece : Piece) (newPosition thisPosition : Coordinate) : bool :=
  negb (Coord.equals (position oldPiece) newPosition)
  && negb (Coord.equals (position oldPiece) thisPosition).

(** [move] of [Bishop], [Rook], [Queen] and [Knight]; [addedPiece] is the
    piece the class constructs at the destination. *)
Definition relocate (thisPosition : Coordinate) (addedPiece : Piece)
  (newPosition : Coordinate) (board : Board) : outcome Board :=
  if negb (Coord.inBounds newPosition) then Throw MovingPieceOutOfBounds
  else
    newPieces <-
      forEach (Board.getPieces board)
        (fun newPieces oldPiece =>
           Ret (pushIf (stays oldPiece newPosition thisPosition)
                  newPieces (clearEnPassant oldPiece)))
        [] ;;
    Ret (push newPieces addedPiece).

Module PawnMove.

(** The [takesEnPassant] flag computed for one old piece. *)
Definition takesEnPassant (thisColor : Color) (newPosition : Coordinate)
  (destinationEmpty : bool) (oldPiece : Piece) : bool :=
  destinationEmpty
  && isPawn oldPiece
  && enPassant oldPiece
  && (column (position oldPiece) =? column newPosition)
  && match thisColor with
     | White => row (position oldPiece) =? row newPosition + 1
     | Black => row (position oldPiece) =? row newPosition - 1
     end.

Definition move (thisColor : Color) (col rw : Z)
  (newPosition : Coordinate) (board : Board) : outcome Board :=
  if negb (Coord.inBounds newPosition) then Throw MovingPieceOutOfBounds
  else
    newPieces <-
      forEach (Board.getPieces board)
        (fun newPieces oldPiece =>
           destinationEmpty <- Board.isEmpty board newPosition ;;
           let taken := takesEnPassant thisColor newPosition destinationEmpty oldPiece in
           Ret (pushIf (stays oldPiece newPosition (| col, rw |) && negb taken)
                  newPieces (clearEnPassant oldPiece)))
        [] ;;
    let enPassant :=
      match thisColor with
      | White => (rw =? 6) && (row newPosition =? 4)
      | Black => (rw =? 1) && (row newPosition =? 3)
      end in
    let addedPiece :=
      match thisColor with
      | White =>
          if row newPosition =? 0
          then Queen thisColor (column newPosition) (row newPosition)
          else Pawn thisColor (column newPosition) (row newPosition) false enPassant
      | Black =>
          if row newPosition =? 7
          then Queen thisColor (column newPosition) (row newPosition)
          else Pawn thisColor (column newPosition) (row newPosition) false enPassant
      end in
    Ret (push newPieces addedPiece).

End PawnMove.

Module KingMove.

(** What the loop pushes for one old piece that [stays]: a pawn loses its
    flag; a rook is kept only on a move that is no castle, and on a castle
    only the rook of the matching corner is pushed, rebuilt next to the king
    with the constructor's default [firstMove]; every other piece is kept. *)
Definition pushed (queensideCastle kingsideCastle : bool) (rw : Z)
  (oldPiece : Piece) : list Piece :=
  match oldPiece with
  | Pawn _ _ _ _ _ => [clearEnPassant oldPiece]
  | Rook rookColor _ _ _ =>
      if queensideCastle then
        if Coord.equals (position oldPiece) (| 0, rw |)
        then [Rook rookColor 3 rw true] else []
      else if kingsideCastle then
        if Coord.equals (position oldPiece) (| 7, rw |)
        then [Rook rookColor 5 rw true] else []
      else [oldPiece]
  | _ => [oldPiece]
  end.

Definition move (thisColor : Color) (col rw : Z) (first : bool)
  (newPosition : Coordinate) (board : Board) : outcome Board :=
  if negb (Coord.inBounds newPosition) then Throw MovingPieceOutOfBounds
  else
    let queensideCastle := first && Coord.equals newPosition (| 2, rw |) in
    let kingsideCastle := first && Coord.equals newPosition (| 6, rw |) in
    newPieces <-
      forEach (Board.getPieces board)
        (fun newPieces oldPiece =>
           if stays oldPiece newPosition (| col, rw |)
           then Ret (newPieces ++ pushed queensideCastle kingsideCastle rw oldPiece)
           else Ret newPieces)
        [] ;;
    Ret (push newPieces
           (King thisColor (column newPosition) (row newPosition) false)).

End KingMove.

(** [piece.move(newPosition, board)], by dynamic dispatch on the class. *)
Definition move (piece : Piece) (newPosition : Coordinate) (board : Board)
  : outcome Board :=
  let c := column newPosition in
  let r := row newPosition in
  match piece with
  | Pawn thisColor col rw _ _ => PawnMove.move thisColor col rw newPosition board
  | Bishop thisColor _ _ =>
      relocate (position piece) (Bishop thisColor c r) newPosition board
  | Rook thisColor _ _ _ =>
      relocate (position piece) (Rook thisColor c r false) newPosition board
  | Queen thisColor _ _ =>
      relocate (position piece) (Queen thisColor c r) newPosition board
  | King thisColor col rw first => KingMove.move thisColor col rw first newPosition board
  | Knight thisColor _ _ =>
      relocate (position piece) (Knight thisColor c r) newPosition board
  end.

(* ================================================================== *)
(** ** Check detection and castling, with the recursion left open

    [King.getOpenMoves] calls [inCheck], and [inCheck] calls
    [piece.getOpenMoves(board, false)] on every opposing piece.  The bodies
    are written here over the function they call; the knot is tied by
    [getOpenMovesFuel] below. *)

Module Open.

Section InCheck.

Variable getOpenMoves : Piece -> Board -> bool -> outcome (list Coordinate).

(** First loop of [inCheck]: ([noKingFound], [kingPosition]) after scanning
    the whole array; a later king of the color overwrites an earlier one. *)
Definition findKing (thisColor : Color) (board : Board) : bool * Coordinate :=
  fold_left
    (fun (found : bool * Coordinate) piece =>
       if isKing piece && Color_eqb (color piece) thisColor
       then (false, position piece)
       else found)
    (Board.getPieces board) (true, (| -1, -1 |)).

(** Second loop of [inCheck], which returns [true] from inside the loops at
    the first open move equal to [kingPosition]. *)
Fixpoint attacked (pieces : list Piece) (board : Board) (thisColor : Color)
  (kingPosition : Coordinate) : outcome bool :=
  match pieces with
  | [] => Ret false
  | piece :: rest =>
      if negb (Color_eqb (color piece) thisColor) then
        openMoves <- getOpenMoves piece board false ;;
        if existsb (fun openPosition => Coord.equals openPosition kingPosition) openMoves
        then Ret true
        else attacked rest board thisColor kingPosition
      else attacked rest board thisColor kingPosition
  end.

Definition inCheck (thisColor : Color) (board : Board) : outcome bool :=
  let '(noKingFound, kingPosition) := findKing thisColor board in
  if noKingFound then Throw MustHaveAKing
  else attacked (Board.getPieces board) board thisColor kingPosition.

End InCheck.

Section Castle.

Variable inCheck : Color -> Board -> outcome bool.

(** Body of the loop over the columns the king crosses. *)
Definition crossing (thisColor : Color) (col rw : Z) (first : bool)
  (board : Board) (canCastle : bool) (c : Z) : outcome bool :=
  let middlePosition := (| c, rw |) in
  empty <- Board.isEmpty board middlePosition ;;
  let canCastle := if negb empty then false else canCastle in
  after <- KingMove.move thisColor col rw first middlePosition board ;;
  checked <- inCheck thisColor after ;;
  Ret (if checked then false else canCastle).

(** One of the two castling blocks: [corner] is the rook's corner, [columns]
    the columns of the loop in its order, [target] the column pushed. *)
Definition castleSide (thisColor : Color) (col rw : Z) (first : bool)
  (board : Board) (corner : Coordinate) (columns : list Z) (target : Z)
  (openMoves : list Coordinate) : outcome (list Coordinate) :=
  empty <- Board.isEmpty board corner ;;
  if negb empty then
    atCorner <- Board.getPieceAt board corner ;;
    if isRook atCorner then
      atCorner <- Board.getPieceAt board corner ;;
      if firstMove atCorner then
        canCastle <- forEach columns (crossing thisColor col rw first board) true ;;
        Ret (pushIf canCastle openMoves (| target, rw |))
      else Ret openMoves
    else Ret openMoves
  else Ret openMoves.

Definition kingGetOpenMoves (thisColor : Color) (col rw : Z) (first : bool)
  (board : Board) (castle : bool) : outcome (list Coordinate) :=
  openMoves <- Stepper.getOpenMoves allDirections thisColor col rw board ;;
  if castle then
    if first then
      let queensideCoordinate :=
        match thisColor with Black => (| 0, 0 |) | White => (| 0, 7 |) end in
      let kingsideCoordinate :=
        match thisColor with Black => (| 7, 0 |) | White => (| 7, 7 |) end in
      openMoves <-
        castleSide thisColor col rw first board queensideCoordinate [4; 3; 2] 2 openMoves ;;
      castleSide thisColor col rw first board kingsideCoordinate [4; 5; 6] 6 openMoves
    else Ret openMoves
  else Ret openMoves.

End Castle.

Section Legality.

Variable getOpenMoves : Piece -> Board -> bool -> outcome (list Coordinate).

Definition getAvailableMoves (piece : Piece) (board : Board)
  : outcome (list Coordinate) :=
  openMoves <- getOpenMoves piece board true ;;
  forEach openMoves
    (fun availableMoves openMove =>
       after <- move piece openMove board ;;
       checked <- inCheck getOpenMoves (color piece) after ;;
       Ret (pushIf (negb checked) availableMoves openMove))
    [].

(** The loop shared by [inCheckmate] and [inStalemate]: [false] is returned
    from inside the loop at the first piece of the color with an available
    move, [true] after the loop. *)
Fixpoint noAvailableMove (pieces : list Piece) (board : Board) (thisColor : Color)
  : outcome bool :=
  match pieces with
  | [] => Ret true
  | piece :: rest =>
      if Color_eqb (color piece) thisColor then
        availableMoves <- getAvailableMoves piece board ;;
        if negb (Nat.eqb (length availableMoves) 0) then Ret false
        else noAvailableMove rest board thisColor
      else noAvailableMove rest board thisColor
  end.

Definition inCheckmate (thisColor : Color) (board : Board) : outcome bool :=
  checked <- inCheck getOpenMoves thisColor board ;;
  if checked then noAvailableMove (Board.getPieces board) board thisColor
  else Ret false.

Definition inStalemate (thisColor : Color) (board : Board) : outcome bool :=
  checked <- inCheck getOpenMoves thisColor board ;;
  if negb checked then noAvailableMove (Board.getPieces board) board thisColor
  else Ret false.

End Legality.

End Open.

(* ================================================================== *)
(** ** The rules core *)

(** [piece.getOpenMoves(board, castle)], by dynamic dispatch on the class.
    One unit of fuel is spent per nested call, the rest is handed to the
    [while] loops and to the calls made from [inCheck]. *)
Fixpoint getOpenMovesFuel (fuel : nat) (piece : Piece) (board : Board)
  (castle : bool) {struct fuel} : outcome (list Coordinate) :=
  match fuel with
  | O => Timeout
  | S fuel' =>
      match piece with
      | Pawn thisColor col rw first _ =>
          PawnImpl.getOpenMoves thisColor col rw first board
      | Bishop thisColor col rw =>
          Slider.getOpenMoves fuel' diagonals thisColor col rw board
      | Rook thisColor col rw _ =>
          Slider.getOpenMoves fuel' orthogonals thisColor col rw board
      | Queen thisColor col rw =>
          Slider.getOpenMoves fuel' allDirections thisColor col rw board
      | King thisColor col rw first =>
          Open.kingGetOpenMoves (Open.inCheck (getOpenMovesFuel fuel'))
            thisColor col rw first board castle
      | Knight thisColor col rw =>
          Stepper.getOpenMoves knightJumps thisColor col rw board
      end
  end.

Definition inCheckFuel (fuel : nat) : Color -> Board -> outcome bool :=
  Open.inCheck (getOpenMovesFuel fuel).
Definition getAvailableMovesFuel (fuel : nat) : Piece -> Board -> outcome (list Coordinate) :=
  Open.getAvailableMoves (getOpenMovesFuel fuel).
Definition inCheckmateFuel (fuel : nat) : Color -> Board -> outcome bool :=
  Open.inCheckmate (getOpenMovesFuel fuel).
Definition inStalemateFuel (fuel : nat) : Color -> Board -> outcome bool :=
  Open.inStalemate (getOpenMovesFuel fuel).

(** Fuel that is always enough, as proved below: nine evaluations of a
    [while] condition along one ray, and two nested calls. *)
Definition fuelBound : nat := 11.

Definition getOpenMoves : Piece -> Board -> bool -> outcome (list Coordinate) :=
  getOpenMovesFuel fuelBound.
Definition inCheck : Color -> Board -> outcome bool := inCheckFuel fuelBound.
Definition getAvailableMoves : Piece -> Board -> outcome (list Coordinate) :=
  getAvailableMovesFuel fuelBound.
Definition inCheckmate : Color -> Board -> outcome bool := inCheckmateFuel fuelBound.
Definition inStalemate : Color -> Board -> outcome bool := inStalemateFuel fuelBound.

(* ================================================================== *)
(** ** Board predicates and scenarios used in the statements *)

(** The board holds a king of the color. *)
Definition hasKing (thisColor : Color) (board : Board) : bool :=
  existsb (fun piece => isKing piece && Color_eqb (color piece) thisColor) board.

(** At most one piece occupies any given position. *)
Fixpoint onePiecePerSquare (board : Board) : bool :=
  match board with
  | [] => true
  | piece :: rest =>
      match Board.firstAt rest (position piece) with
      | Some _ => false
      | None => onePiecePerSquare rest
      end
  end.

(** The square in front of a pawn, and the one two squares ahead. *)
Definition forwardOf (thisColor : Color) (col rw : Z) : Coordinate :=
  match thisColor with Black => (| col, rw + 1 |) | White => (| col, rw - 1 |) end.

Definition doubleForwardOf (thisColor : Color) (col rw : Z) : Coordinate :=
  match thisColor with Black => (| col, rw + 2 |) | White => (| col, rw - 2 |) end.

(** Where [King.move] puts the rook when it takes the move for a castle: the
    king has [firstMove] set and goes to column 2 or 6 of its own row. *)
Definition rookLanding (piece : Piece) (newPosition : Coordinate)
  : option Coordinate :=
  match piece with
  | King _ _ rw true =>
      if Coord.equals newPosition (| 2, rw |) then Some (| 3, rw |)
      else if Coord.equals newPosition (| 6, rw |) then Some (| 5, rw |)
      else None
  | _ => None
  end.

(** The square the rook of a castle lands on, if any, is empty on the board. *)
Definition landingFree (piece : Piece) (newPosition : Coordinate) (board : Board)
  : bool :=
  match rookLanding piece newPosition with
  | Some landing => holds (Board.isEmpty board landing)
  | None => true
  end.

(** The square [inCheck] takes for the king's: that of the last king of the
    color in array order. *)
Definition kingSquare (thisColor : Color) (board : Board) : Coordinate :=
  snd (Open.findKing thisColor board).

(** Some piece of the other color has [square] among its
    [getOpenMoves(board, false)]. *)
Definition attackedBy (thisColor : Color) (board : Board) (square : Coordinate)
  : bool :=
  existsb
    (fun piece =>
       negb (Color_eqb (color piece) thisColor)
       && match getOpenMoves piece board false with
          | Ret openMoves =>
              existsb (fun openPosition => Coord.equals openPosition square) openMoves
          | _ => false
          end)
    board.

(** Number of squares a ray can still visit from [p] before it leaves the
    board in direction [d]. *)
Definition stepsLeft (d : Direction) (p : Coordinate) : Z :=
  if fst d =? 1 then 8 - column p
  else if fst d =? -1 then column p + 1
  else if snd d =? 1 then 8 - row p
  else row p + 1.

(** The stalemate scenario of the test suite, built as the tests build it,
    with the three-argument constructors: [new King("Black", 5, 0)],
    [new King("White", 5, 7)], [new Rook("White", 7, 1)],
    [new Queen("White", 4, 5)], [new Rook("White", 6, 3)]. *)
Definition stalemateBoard : Board :=
  [ King Black 5 0 true; King White 5 7 true; Rook White 7 1 true;
    Queen White 4 5; Rook White 6 3 true ].

(** The same squares with the [firstMove] flags given explicitly. *)
Definition stalemateBoardWith (blackKing whiteKing rook1 rook2 : bool) : Board :=
  [ King Black 5 0 blackKing; King White 5 7 whiteKing; Rook White 7 1 rook1;
    Queen White 4 5; Rook White 6 3 rook2 ].

(** Scenario of the test "Piece can take piece putting king in check": the
    White bishop may only capture the knight that gives check. *)
Definition checkingKnightBoard : Board :=
  [ Bishop White 4 5; King White 4 4 true; King Black 1 0 true;
    Knight Black 5 6 ].

(** A White pawn built on row 1 in front of an empty square. *)
Definition lastRankPawnBoard : Board :=
  [ Pawn White 3 1 true false; King White 4 7 true; King Black 7 3 true ].

(** Kings and rooks on their home squares, nothing between them. *)
Definition castlingBoard : Board :=
  [ Rook Black 0 0 true; King Black 4 0 true; Rook Black 7 0 true;
    Rook White 0 7 true; King White 4 7 true; Rook White 7 7 true ].

(** [castlingBoard] with the White king standing on column [c] of its row. *)
Definition castlingBoardKingOn (c : Z) : Board :=
  [ Rook Black 0 0 true; King Black 4 0 true; Rook Black 7 0 true;
    Rook White 0 7 true; King White c 7 true; Rook White 7 7 true ].

(** An unmoved White king and queenside rook, nothing between them. *)
Definition queensideBoard : Board :=
  [ King Black 4 0 true; Rook White 0 7 true; King White 4 7 true ].

(** [queensideBoard] with the White queen still on her home square. *)
Definition blockedCastlingBoard : Board :=
  [ King Black 4 0 true; Rook White 0 7 true; Queen White 3 7;
    King White 4 7 true ].

(** A Black king attacked along its column by a White rook, and a White pawn
    built on row 1 with the constructor's default [firstMove = true]. *)
Definition pawnBeforeRookBoard : Board :=
  [ King Black 4 0 true; Pawn White 0 1 true false; Rook White 4 5 true;
    King White 4 7 true ].

(* ================================================================== *)
(** ** What a move builds and what it keeps *)

(** [addedPiece] of each class: the piece [piece.move] constructs on the
    destination. *)
Definition arrival (piece : Piece) (newPosition : Coordinate) : Piece :=
  let c := column newPosition in
  let r := row newPosition in
  match piece with
  | Pawn White _ rw _ _ =>
      if r =? 0 then Queen White c r
      else Pawn White c r false ((rw =? 6) && (r =? 4))
  | Pawn Black _ rw _ _ =>
      if r =? 7 then Queen Black c r
      else Pawn Black c r false ((rw =? 1) && (r =? 3))
  | Bishop thisColor _ _ => Bishop thisColor c r
  | Rook thisColor _ _ _ => Rook thisColor c r false
  | Queen thisColor _ _ => Queen thisColor c r
  | King thisColor _ _ _ => King thisColor c r false
  | Knight thisColor _ _ => Knight thisColor c r
  end.

(** A pawn leaves its home row for the row two squares ahead. *)
Definition doubleStep (piece : Piece) (newPosition : Coordinate) : bool :=
  match piece with
  | Pawn White _ rw _ _ => (rw =? 6) && (row newPosition =? 4)
  | Pawn Black _ rw _ _ => (rw =? 1) && (row newPosition =? 3)
  | _ => false
  end.

(** What the loop of [piece.move] pushes for one old piece. *)
Definition keeps (piece : Piece) (newPosition : Coordinate) (board : Board)
  (oldPiece : Piece) : list Piece :=
  if stays oldPiece newPosition (position piece) then
    match piece with
    | Pawn thisColor _ _ _ _ =>
        if PawnMove.takesEnPassant thisColor newPosition
             (holds (Board.isEmpty board newPosition)) oldPiece
        then [] else [clearEnPassant oldPiece]
    | King _ _ rw first =>
        KingMove.pushed (first && Coord.equals newPosition (| 2, rw |))
          (first && Coord.equals newPosition (| 6, rw |)) rw oldPiece
    | _ => [clearEnPassant oldPiece]
    end
  else [].

(** The pawn a pawn's move to [newPosition] would take en passant stands
    here: one row behind the destination, seen from the mover. *)
Definition passedSquare (thisColor : Color) (newPosition : Coordinate) : Coordinate :=
  match thisColor with
  | White => (| column newPosition, row newPosition + 1 |)
  | Black => (| column newPosition, row newPosition - 1 |)
  end.

(** A White pawn beside a Black pawn that has just made its double step. *)
Definition enPassantBoard : Board :=
  [ King Black 4 0 true; King White 4 7 true; Pawn White 3 3 false false;
    Pawn Black 2 3 false true ].

(* ================================================================== *)
(** ** Squares a piece may land on *)

(** The piece [getPieceAt] would return on [square] has the color. *)
Definition friendlyAt (board : Board) (thisColor : Color) (square : Coordinate)
  : bool :=
  match Board.firstAt board square with
  | Some other => Color_eqb (color other) thisColor
  | None => false
  end.

(** The piece [getPieceAt] would return on [square] has the other color. *)
Definition hostileAt (board : Board) (thisColor : Color) (square : Coordinate)
  : bool :=
  match Board.firstAt board square with
  | Some other => negb (Color_eqb (color other) thisColor)
  | None => false
  end.

(** On the board, and empty or held by the other color. *)
Definition landable (board : Board) (thisColor : Color) (square : Coordinate)
  : bool :=
  Coord.inBounds square && negb (friendlyAt board thisColor square).

(** The square [j] steps away from [from] in direction [d]. *)
Definition along (from : Coordinate) (d : Direction) (j : nat) : Coordinate :=
  (| column from + Z.of_nat j * fst d, row from + Z.of_nat j * snd d |).

(** The directions of the loop of each class (a pawn has no such loop). *)
Definition directionsOf (piece : Piece) : list Direction :=
  match piece with
  | Pawn _ _ _ _ _ => []
  | Bishop _ _ _ => diagonals
  | Rook _ _ _ _ => orthogonals
  | Queen _ _ _ => allDirections
  | King _ _ _ _ => allDirections
  | Knight _ _ _ => knightJumps
  end.

Definition isKnight (p : Piece) : bool :=
  match p with Knight _ _ _ => true | _ => false end.

Definition isSlider (p : Piece) : bool :=
  match p with Bishop _ _ _ | Rook _ _ _ _ | Queen _ _ _ => true | _ => false end.

(** The two squares diagonally ahead of a pawn. *)
Definition leftOf (thisColor : Color) (col rw : Z) : Coordinate :=
  match thisColor with
  | Black => (| col - 1, rw + 1 |)
  | White => (| col - 1, rw - 1 |)
  end.

Definition rightOf (thisColor : Color) (col rw : Z) : Coordinate :=
  match thisColor with
  | Black => (| col + 1, rw + 1 |)
  | White => (| col + 1, rw - 1 |)
  end.

(** A pawn may capture on [target]: on the board and held by the other
    color. *)
Definition capturable (board : Board) (thisColor : Color) (target : Coordinate)
  : bool :=
  Coord.inBounds target && hostileAt board thisColor target.

(** A pawn may take en passant the piece beside it on [horizontal]: on the
    board, a pawn of the other color holding the en-passant flag. *)
Definition passable (board : Board) (thisColor : Color) (horizontal : Coordinate)
  : bool :=
  Coord.inBounds horizontal
  && match Board.firstAt board horizontal with
     | Some other =>
         negb (Color_eqb thisColor (color other)) && isPawn other && enPassant other
     | None => false
     end.

(** A crossed column lets the castle through: it is empty and the king,
    moved there, is not in check ([inCheck'] is the check test in use). *)
Definition crossable (inCheck' : Color -> Board -> outcome bool)
  (thisColor : Color) (col rw : Z) (first : bool) (board : Board) (c : Z) : Prop :=
  Board.isEmpty board (| c, rw |) = Ret true
  /\ exists after,
       KingMove.move thisColor col rw first (| c, rw |) board = Ret after
       /\ inCheck' thisColor after = Ret false.

(** The test of the loop of [getAvailableMoves]: the move can be made and
    the mover's color is not in check on the board it gives. *)
Definition leavesKingSafe (piece : Piece) (board : Board) (m : Coordinate) : bool :=
  match move piece m board with
  | Ret after =>
      match inCheck (color piece) after with
      | Ret checked => negb checked
      | _ => false
      end
  | _ => false
  end.

(** A White pawn on its home row beside a Black pawn two rows ahead. *)
Definition doubleStepBoard : Board :=
  [ King Black 4 0 true; King White 4 7 true; Pawn White 3 6 true false;
    Pawn Black 2 4 false false ].

(** An unmoved White king built on column 1, beside its queenside rook. *)
Definition cornerKingBoard : Board :=
  [ King Black 4 0 true; Rook White 0 7 true; King White 1 7 true ].

(* ================================================================== *)
(** ** The game component: [Game], [ChessBoard.handleClick], [calculateWinner]

    The React state of [Game] is the triple ([board], [selectedPiece],
    [color]); [handlePlay] replaces the three at once.  [handleClick] is
    modelled as the state it leaves behind, which is the state it found when
    it does not call [handlePlay]. *)

(** What [calculateWinner] returns besides [null]: "Tie", "White", "Black". *)
Inductive Winner : Type :=
| Tie
| Won (winner : Color).

Definition calculateWinner (board : Board) (thisColor : Color)
  : outcome (option Winner) :=
  stalemate <- inStalemate thisColor board ;;
  if stalemate then Ret (Some Tie)
  else
    checkmate <- inCheckmate thisColor board ;;
    if checkmate then
      match thisColor with
      | White => Ret (Some (Won Black))
      | Black => Ret (Some (Won White))
      end
    else Ret None.

Record GameState : Type := mkGameState {
  gameBoard : Board;
  gameSelected : option Piece;   (* [selectedPiece], [None] for [null] *)
  gameColor : Color              (* [color], the color to move *)
}.

(** [color === "White" ? "Black" : "White"] *)
Definition otherColor (thisColor : Color) : Color :=
  match thisColor with White => Black | Black => White end.

(** [startingPieces], built with the default flags of the constructors. *)
Definition startingPieces : list Piece :=
  [ Rook Black 0 0 true; Knight Black 1 0; Bishop Black 2 0; Queen Black 3 0;
    King Black 4 0 true; Bishop Black 5 0; Knight Black 6 0; Rook Black 7 0 true;
    Pawn Black 0 1 true false; Pawn Black 1 1 true false;
    Pawn Black 2 1 true false; Pawn Black 3 1 true false;
    Pawn Black 4 1 true false; Pawn Black 5 1 true false;
    Pawn Black 6 1 true false; Pawn Black 7 1 true false;
    Rook White 0 7 true; Knight White 1 7; Bishop White 2 7; Queen White 3 7;
    King White 4 7 true; Bishop White 5 7; Knight White 6 7; Rook White 7 7 true;
    Pawn White 0 6 true false; Pawn White 1 6 true false;
    Pawn White 2 6 true false; Pawn White 3 6 true false;
    Pawn White 4 6 true false; Pawn White 5 6 true false;
    Pawn White 6 6 true false; Pawn White 7 6 true false ].

(** The three [useState] initial values. *)
Definition startingState : GameState :=
  mkGameState startingPieces None White.

Section Clicks.

(** [piece === selectedPiece] compares object references, which the contents
    of the two pieces do not determine; the comparison is a parameter. *)
Variable same : Piece -> Piece -> bool.

Definition handleClick (s : GameState) (row column : Z) : outcome GameState :=
  let board := gameBoard s in
  let thisColor := gameColor s in
  let position := (| column, row |) in
  winner <- calculateWinner board thisColor ;;
  match winner with
  | Some _ => Ret s
  | None =>
      played <-
        match gameSelected s with
        | Some selectedPiece =>
            available <- getAvailableMoves selectedPiece board ;;
            if existsb (fun availablePosition => Coord.equals position availablePosition)
                 available
            then
              newBoard <- move selectedPiece position board ;;
              Ret (Some (mkGameState newBoard None (otherColor thisColor)))
            else Ret None
        | None => Ret None
        end ;;
      match played with
      | Some played => Ret played
      | None =>
          empty <- Board.isEmpty board position ;;
          if negb empty then
            piece <- Board.getPieceAt board position ;;
            if match gameSelected s with
               | Some selectedPiece => same piece selectedPiece
               | None => false
               end
            then Ret (mkGameState board None thisColor)
            else if Color_eqb (color piece) thisColor
                 then Ret (mkGameState board (Some piece) thisColor)
                 else Ret s
          else Ret s
      end
  end.

(** The states the game can be in: the starting state, and what a click on
    one of the 64 buttons leaves behind. *)
Inductive reachable : GameState -> Prop :=
| reachable_start : reachable startingState
| reachable_click s row column s' :
    reachable s ->
    Coord.inBounds (| column, row |) = true ->
    handleClick s row column = Ret s' ->
    reachable s'.

End Clicks.

(** The pieces of a well-formed game position. *)
Definition onBoard (piece : Piece) : bool := Coord.inBounds (position piece).

(** A pawn holding [firstMove] stands on its home row. *)
Definition pawnSane (piece : Piece) : bool :=
  match piece with
  | Pawn White _ rw true _ => rw =? 6
  | Pawn Black _ rw true _ => rw =? 1
  | _ => true
  end.

(** A king holding [firstMove] stands on column 4. *)
Definition kingSane (piece : Piece) : bool :=
  match piece with
  | King _ col _ true => col =? 4
  | _ => true
  end.

(** A pawn holding [enPassant] belongs to the color that has just moved and
    stands two rows ahead of its home row, the square it passed being
    empty. *)
Definition flagSane (board : Board) (toMove : Color) (piece : Piece) : bool :=
  match piece with
  | Pawn White col rw _ true =>
      negb (Color_eqb White toMove) && (rw =? 4)
      && holds (Board.isEmpty board (| col, 5 |))
  | Pawn Black col rw _ true =>
      negb (Color_eqb Black toMove) && (rw =? 3)
      && holds (Board.isEmpty board (| col, 2 |))
  | _ => true
  end.

Definition saneBoard (board : Board) (toMove : Color) : bool :=
  forallb onBoard board
  && onePiecePerSquare board
  && forallb pawnSane board
  && forallb kingSane board
  && forallb (flagSane board toMove) board
  && hasKing White board
  && hasKing Black board
  && match inCheck (otherColor toMove) board with
     | Ret checked => negb checked
     | _ => false
     end.

(** A well-formed game state: a sane board, and a selection that is a piece
    of the board of the color to move. *)
Definition sane (s : GameState) : Prop :=
  saneBoard (gameBoard s) (gameColor s) = true
  /\ forall piece, gameSelected s = Some piece ->
       In piece (gameBoard s) /\ color piece = gameColor s.

(** A pawn stands on neither of the two last rows. *)
Definition pawnInside (piece : Piece) : bool :=
  match piece with
  | Pawn _ _ rw _ _ => (1 <=? rw) && (rw <=? 6)
  | _ => true
  end.

(** The home row of the pawns of a color. *)
Definition homeRow (thisColor : Color) : Z :=
  match thisColor with White => 6 | Black => 1 end.

(** A comparison of pieces by their squares, which tells the pieces of a
    board with one piece per square apart. *)
Definition samePosition (p q : Piece) : bool :=
  Coord.equals (position p) (position q).

(** The starting position with the White king's pawn selected, and the
    board once that pawn has made its double step. *)
Definition pawnSelected : GameState :=
  mkGameState startingPieces (Some (Pawn White 4 6 true false)) White.

Definition openingBoard : Board :=
  Eval vm_compute in
    match move (Pawn White 4 6 true false) (| 4, 4 |) startingPieces with
    | Ret after => after
    | _ => []
    end.

(* ================================================================== *)
(** * Properties *)

(** ** Coordinates *)

Lemma equals_spec c d : Coord.equals c d = true <-> c = d.
Proof.
  destruct c as [a b], d as [a' b']; unfold Coord.equals; simpl.
  rewrite andb_true_iff, !Z.eqb_eq. split.
  - intros [-> ->]; reflexivity.
  - intros H; injection H; auto.
Qed.

Lemma equals_false c d : Coord.equals c d = false <-> c <> d.
Proof.
  rewrite <- equals_spec. destruct (Coord.equals c d); split; congruence.
Qed.

Lemma inBounds_spec c :
  Coord.inBounds c = true <-> 0 <= column c < 8 /\ 0 <= row c < 8.
Proof.
  unfold Coord.inBounds. rewrite !andb_true_iff, !Z.leb_le, !Z.ltb_lt. lia.
Qed.

(** ** Outcomes and loops *)

Lemma timedOut_bind {A B : Type} (m : outcome A) (k : A -> outcome B) :
  timedOut m = false ->
  (forall a, m = Ret a -> timedOut (k a) = false) ->
  timedOut (x <- m ;; k x) = false.
Proof. destruct m; simpl; auto. Qed.

Lemma bind_ext {A B : Type} (m : outcome A) (k k' : A -> outcome B) :
  (forall a, m = Ret a -> k a = k' a) ->
  (x <- m ;; k x) = (x <- m ;; k' x).
Proof. destruct m; simpl; auto. Qed.

Lemma forEach_ext {A S : Type} (xs : list A) (f g : S -> A -> outcome S) :
  (forall s x, In x xs -> f s x = g s x) ->
  forall s, forEach xs f s = forEach xs g s.
Proof.
  induction xs as [|x xs IH]; intros E s; simpl; [reflexivity|].
  rewrite (E s x (or_introl eq_refl)).
  apply bind_ext; intros s' _. apply IH. intros; apply E; now right.
Qed.

Lemma forEach_timedOut {A S : Type} (xs : list A) (f : S -> A -> outcome S) :
  (forall s x, In x xs -> timedOut (f s x) = false) ->
  forall s, timedOut (forEach xs f s) = false.
Proof.
  induction xs as [|x xs IH]; intros E s; simpl; [reflexivity|].
  apply timedOut_bind; [apply E; now left|].
  intros s' _. apply IH. intros; apply E; now right.
Qed.

(** A loop whose body cannot fail is a pure left fold. *)
Lemma forEach_pure {A S : Type} (xs : list A) (f : S -> A -> S) (s : S) :
  forEach xs (fun s x => Ret (f s x)) s = Ret (fold_left f xs s).
Proof. revert s; induction xs as [|x xs IH]; intros s; simpl; auto. Qed.

(** ** Board queries *)

Lemma firstAt_Some board coordinate piece :
  Board.firstAt board coordinate = Some piece ->
  In piece board /\ position piece = coordinate.
Proof.
  induction board as [|q rest IH]; simpl; [discriminate|].
  destruct (Coord.equals (position q) coordinate) eqn:E.
  - intros [= <-]. split; [now left | now apply equals_spec].
  - intros H; destruct (IH H); split; [now right | assumption].
Qed.

Lemma firstAt_None board coordinate :
  Board.firstAt board coordinate = None <->
  forall piece, In piece board -> position piece <> coordinate.
Proof.
  induction board as [|q rest IH]; simpl.
  - split; [intros _ p [] | reflexivity].
  - destruct (Coord.equals (position q) coordinate) eqn:E.
    + split; [discriminate|]. intros H. exfalso.
      apply (H q (or_introl eq_refl)). now apply equals_spec.
    + rewrite IH. apply equals_false in E. split.
      * intros H p [<-|Hp]; auto.
      * intros H p Hp. apply H; now right.
Qed.

Lemma isEmpty_timedOut board coordinate :
  timedOut (Board.isEmpty board coordinate) = false.
Proof.
  unfold Board.isEmpty.
  destruct (Coord.inBounds coordinate); [destruct (Board.firstAt _ _)|]; reflexivity.
Qed.

Lemma getPieceAt_timedOut board coordinate :
  timedOut (Board.getPieceAt board coordinate) = false.
Proof.
  unfold Board.getPieceAt.
  destruct (Coord.inBounds coordinate); [destruct (Board.firstAt _ _)|]; reflexivity.
Qed.

Lemma isEmpty_inBounds board coordinate :
  Coord.inBounds coordinate = true ->
  Board.isEmpty board coordinate =
  Ret (match Board.firstAt board coordinate with Some _ => false | None => true end).
Proof.
  intros H; unfold Board.isEmpty; rewrite H. now destruct (Board.firstAt _ _).
Qed.

(* ================================================================== *)
(** ** Fuel: every loop and every nested call is bounded *)

Ltac each_direction H :=
  simpl in H;
  repeat (destruct H as [<- | H]; [| try contradiction]).

Lemma stepsLeft_inBounds d p :
  In d allDirections -> Coord.inBounds p = true -> 1 <= stepsLeft d p <= 8.
Proof.
  intros H B. apply inBounds_spec in B.
  each_direction H; unfold stepsLeft; cbn [fst snd Z.eqb Pos.eqb]; lia.
Qed.

Lemma stepsLeft_shift d p :
  In d allDirections -> stepsLeft d (shift p d) = stepsLeft d p - 1.
Proof.
  intros H. each_direction H; unfold stepsLeft, shift;
    cbn [fst snd column row Z.eqb Pos.eqb]; lia.
Qed.

Lemma diagonals_allDirections d : In d diagonals -> In d allDirections.
Proof. simpl; tauto. Qed.

Lemma orthogonals_allDirections d : In d orthogonals -> In d allDirections.
Proof. simpl; tauto. Qed.

Lemma ray_unfold fuel board thisColor d newPosition openMoves :
  Slider.ray (S fuel) board thisColor d newPosition openMoves =
  if Coord.inBounds newPosition then
    empty <- Board.isEmpty board newPosition ;;
    if empty then
      Slider.ray fuel board thisColor d (shift newPosition d) (push openMoves newPosition)
    else Slider.afterLoop board thisColor newPosition openMoves
  else Slider.afterLoop board thisColor newPosition openMoves.
Proof. reflexivity. Qed.

Lemma afterLoop_timedOut board thisColor newPosition openMoves :
  timedOut (Slider.afterLoop board thisColor newPosition openMoves) = false.
Proof.
  unfold Slider.afterLoop. destruct (Coord.inBounds newPosition); [|reflexivity].
  apply timedOut_bind; [apply getPieceAt_timedOut | reflexivity].
Qed.

(** With more fuel than squares left on the ray, the loop comes back, and
    one more unit of fuel changes nothing. *)
Lemma ray_enough board thisColor d :
  In d allDirections ->
  forall fuel newPosition openMoves,
    stepsLeft d newPosition < Z.of_nat (S fuel) ->
    timedOut (Slider.ray (S fuel) board thisColor d newPosition openMoves) = false
    /\ Slider.ray (S (S fuel)) board thisColor d newPosition openMoves
       = Slider.ray (S fuel) board thisColor d newPosition openMoves.
Proof.
  intros Hd. induction fuel as [|fuel IH]; intros p acc Hlt.
  - rewrite (ray_unfold 1), (ray_unfold 0).
    destruct (Coord.inBounds p) eqn:B.
    + pose proof (stepsLeft_inBounds d p Hd B). lia.
    + split; [apply afterLoop_timedOut | reflexivity].
  - rewrite (ray_unfold (S (S fuel))), (ray_unfold (S fuel)).
    destruct (Coord.inBounds p) eqn:B.
    + assert (Hs : stepsLeft d (shift p d) < Z.of_nat (S fuel))
        by (rewrite stepsLeft_shift by assumption; lia).
      destruct (IH (shift p d) (push acc p) Hs) as [T E].
      split.
      * apply timedOut_bind; [apply isEmpty_timedOut|].
        intros [|] _; [exact T | apply afterLoop_timedOut].
      * apply bind_ext. intros [|] _; [exact E | reflexivity].
    + split; [apply afterLoop_timedOut | reflexivity].
Qed.

Lemma ray_stable board thisColor d fuel newPosition openMoves :
  In d allDirections -> (9 <= fuel)%nat ->
  timedOut (Slider.ray fuel board thisColor d newPosition openMoves) = false
  /\ Slider.ray fuel board thisColor d newPosition openMoves
     = Slider.ray 9 board thisColor d newPosition openMoves.
Proof.
  intros Hd Hf.
  destruct (Coord.inBounds newPosition) eqn:B.
  - pose proof (stepsLeft_inBounds d newPosition Hd B) as Hs.
    induction Hf as [|fuel Hf IH].
    + split; [|reflexivity].
      apply (ray_enough board thisColor d Hd 8); simpl; lia.
    + destruct fuel as [|fuel]; [lia|].
      destruct (ray_enough board thisColor d Hd fuel newPosition openMoves) as [T E]; [lia|].
      destruct IH as [T' E'].
      rewrite E. split; assumption.
  - destruct fuel as [|fuel]; [lia|].
    rewrite (ray_unfold fuel), (ray_unfold 8), B.
    split; [apply afterLoop_timedOut | reflexivity].
Qed.

Lemma Slider_stable fuel directions thisColor col rw board :
  (forall d, In d directions -> In d allDirections) -> (9 <= fuel)%nat ->
  timedOut (Slider.getOpenMoves fuel directions thisColor col rw board) = false
  /\ Slider.getOpenMoves fuel directions thisColor col rw board
     = Slider.getOpenMoves 9 directions thisColor col rw board.
Proof.
  intros Hd Hf. unfold Slider.getOpenMoves. split.
  - apply forEach_timedOut. intros s d Hin.
    apply ray_stable; auto.
  - apply forEach_ext. intros s d Hin.
    apply ray_stable; auto.
Qed.

Lemma capture_timedOut board thisColor target openMoves :
  timedOut (PawnImpl.capture board thisColor target openMoves) = false.
Proof.
  unfold PawnImpl.capture. destruct (Coord.inBounds target); [|reflexivity].
  apply timedOut_bind; [apply isEmpty_timedOut|]. intros [|] _; [reflexivity|].
  simpl. apply timedOut_bind; [apply getPieceAt_timedOut | reflexivity].
Qed.

Lemma passing_timedOut board thisColor horizontal target openMoves :
  timedOut (PawnImpl.passing board thisColor horizontal target openMoves) = false.
Proof.
  unfold PawnImpl.passing. destruct (Coord.inBounds horizontal); [|reflexivity].
  apply timedOut_bind; [apply isEmpty_timedOut|]. intros [|] _; [reflexivity|].
  simpl. apply timedOut_bind; [apply getPieceAt_timedOut |].
  intros other _.
  destruct (negb (Color_eqb thisColor (color other))), (isPawn other); reflexivity.
Qed.

Lemma Pawn_timedOut thisColor col rw first board :
  timedOut (PawnImpl.getOpenMoves thisColor col rw first board) = false.
Proof.
  unfold PawnImpl.getOpenMoves.
  apply timedOut_bind.
  { destruct (Coord.inBounds _); [|reflexivity].
    apply timedOut_bind; [apply isEmpty_timedOut | reflexivity]. }
  intros m1 _. apply timedOut_bind.
  { destruct first; [|reflexivity].
    apply timedOut_bind; [apply isEmpty_timedOut|]. intros [|] _; [|reflexivity].
    apply timedOut_bind; [apply isEmpty_timedOut | reflexivity]. }
  intros m2 _. apply timedOut_bind; [apply capture_timedOut|].
  intros m3 _. apply timedOut_bind; [apply passing_timedOut|].
  intros m4 _. apply timedOut_bind; [apply capture_timedOut|].
  intros m5 _. apply passing_timedOut.
Qed.

Lemma Stepper_timedOut directions thisColor col rw board :
  timedOut (Stepper.getOpenMoves directions thisColor col rw board) = false.
Proof.
  unfold Stepper.getOpenMoves. apply forEach_timedOut. intros s d _.
  unfold Stepper.step. destruct (Coord.inBounds _); [|reflexivity].
  apply timedOut_bind; [apply isEmpty_timedOut|]. intros empty _.
  apply timedOut_bind; [|reflexivity].
  destruct empty; [reflexivity|]. simpl.
  apply timedOut_bind; [apply getPieceAt_timedOut | reflexivity].
Qed.

Lemma relocate_timedOut thisPosition addedPiece newPosition board :
  timedOut (relocate thisPosition addedPiece newPosition board) = false.
Proof.
  unfold relocate. destruct (negb (Coord.inBounds newPosition)); [reflexivity|].
  rewrite forEach_pure. reflexivity.
Qed.

Lemma move_timedOut piece newPosition board :
  timedOut (move piece newPosition board) = false.
Proof.
  destruct piece; cbn [move]; try apply relocate_timedOut.
  - unfold PawnMove.move.
    destruct (negb (Coord.inBounds newPosition)); [reflexivity|].
    apply timedOut_bind; [|reflexivity].
    apply forEach_timedOut. intros s x _.
    apply timedOut_bind; [apply isEmpty_timedOut | reflexivity].
  - unfold KingMove.move.
    destruct (negb (Coord.inBounds newPosition)); [reflexivity|].
    apply timedOut_bind; [|reflexivity].
    apply forEach_timedOut. intros s x _.
    now destruct (stays x newPosition _).
Qed.

Section OpenRecursion.

Variables g1 g2 : Piece -> Board -> bool -> outcome (list Coordinate).

Lemma attacked_ext board thisColor kingPosition :
  (forall p, g1 p board false = g2 p board false) ->
  forall pieces,
    Open.attacked g1 pieces board thisColor kingPosition
    = Open.attacked g2 pieces board thisColor kingPosition.
Proof.
  intros E. induction pieces as [|p rest IH]; simpl; [reflexivity|].
  rewrite E, IH. reflexivity.
Qed.

Lemma inCheck_ext :
  (forall p b, g1 p b false = g2 p b false) ->
  forall thisColor board,
    Open.inCheck g1 thisColor board = Open.inCheck g2 thisColor board.
Proof.
  intros E thisColor board. unfold Open.inCheck.
  destruct (Open.findKing thisColor board) as [[|] k]; [reflexivity|].
  apply attacked_ext. intros; apply E.
Qed.

Lemma attacked_timedOut board thisColor kingPosition :
  (forall p, timedOut (g1 p board false) = false) ->
  forall pieces,
    timedOut (Open.attacked g1 pieces board thisColor kingPosition) = false.
Proof.
  intros T. induction pieces as [|p rest IH]; simpl; [reflexivity|].
  destruct (negb (Color_eqb (color p) thisColor)); [|exact IH].
  apply timedOut_bind; [apply T|]. intros l _.
  now destruct (existsb _ l).
Qed.

Lemma inCheck_timedOut :
  (forall p b, timedOut (g1 p b false) = false) ->
  forall thisColor board, timedOut (Open.inCheck g1 thisColor board) = false.
Proof.
  intros T thisColor board. unfold Open.inCheck.
  destruct (Open.findKing thisColor board) as [[|] k]; [reflexivity|].
  apply attacked_timedOut. intros; apply T.
Qed.

End OpenRecursion.

Section OpenCastle.

Variables ic1 ic2 : Color -> Board -> outcome bool.

Lemma castleSide_ext thisColor col rw first board corner columns target openMoves :
  (forall c b, ic1 c b = ic2 c b) ->
  Open.castleSide ic1 thisColor col rw first board corner columns target openMoves
  = Open.castleSide ic2 thisColor col rw first board corner columns target openMoves.
Proof.
  intros E. unfold Open.castleSide.
  apply bind_ext; intros empty _. destruct (negb empty); [|reflexivity].
  apply bind_ext; intros atCorner _. destruct (isRook atCorner); [|reflexivity].
  apply bind_ext; intros atCorner' _. destruct (firstMove atCorner'); [|reflexivity].
  f_equal. apply forEach_ext. intros can c _.
  unfold Open.crossing. apply bind_ext; intros e _.
  apply bind_ext; intros after _. now rewrite E.
Qed.

Lemma kingGetOpenMoves_ext thisColor col rw first board castle :
  (forall c b, ic1 c b = ic2 c b) ->
  Open.kingGetOpenMoves ic1 thisColor col rw first board castle
  = Open.kingGetOpenMoves ic2 thisColor col rw first board castle.
Proof.
  intros E. unfold Open.kingGetOpenMoves.
  apply bind_ext; intros openMoves _.
  destruct castle, first; try reflexivity.
  rewrite (castleSide_ext _ _ _ _ _ _ _ _ _ E).
  apply bind_ext; intros openMoves' _.
  apply castleSide_ext, E.
Qed.

Lemma kingGetOpenMoves_attack thisColor col rw first board :
  Open.kingGetOpenMoves ic1 thisColor col rw first board false
  = Stepper.getOpenMoves allDirections thisColor col rw board.
Proof.
  unfold Open.kingGetOpenMoves.
  now destruct (Stepper.getOpenMoves allDirections thisColor col rw board).
Qed.

Lemma castleSide_timedOut thisColor col rw first board corner columns target openMoves :
  (forall c b, timedOut (ic1 c b) = false) ->
  timedOut
    (Open.castleSide ic1 thisColor col rw first board corner columns target openMoves)
  = false.
Proof.
  intros T. unfold Open.castleSide.
  apply timedOut_bind; [apply isEmpty_timedOut|]. intros empty _.
  destruct (negb empty); [|reflexivity].
  apply timedOut_bind; [apply getPieceAt_timedOut|]. intros atCorner _.
  destruct (isRook atCorner); [|reflexivity].
  apply timedOut_bind; [apply getPieceAt_timedOut|]. intros atCorner' _.
  destruct (firstMove atCorner'); [|reflexivity].
  apply timedOut_bind; [|reflexivity].
  apply forEach_timedOut. intros can c _. unfold Open.crossing.
  apply timedOut_bind; [apply isEmpty_timedOut|]. intros e _.
  apply timedOut_bind; [apply (move_timedOut (King thisColor col rw first))|].
  intros after _. apply timedOut_bind; [apply T | reflexivity].
Qed.

Lemma kingGetOpenMoves_timedOut thisColor col rw first board castle :
  (forall c b, timedOut (ic1 c b) = false) ->
  timedOut (Open.kingGetOpenMoves ic1 thisColor col rw first board castle) = false.
Proof.
  intros T. unfold Open.kingGetOpenMoves.
  apply timedOut_bind; [apply Stepper_timedOut|]. intros openMoves _.
  destruct castle, first; try reflexivity.
  apply timedOut_bind; [now apply castleSide_timedOut|]. intros openMoves' _.
  now apply castleSide_timedOut.
Qed.

End OpenCastle.

Lemma getOpenMovesFuel_unfold fuel piece board castle :
  getOpenMovesFuel (S fuel) piece board castle =
  match piece with
  | Pawn thisColor col rw first _ =>
      PawnImpl.getOpenMoves thisColor col rw first board
  | Bishop thisColor col rw =>
      Slider.getOpenMoves fuel diagonals thisColor col rw board
  | Rook thisColor col rw _ =>
      Slider.getOpenMoves fuel orthogonals thisColor col rw board
  | Queen thisColor col rw =>
      Slider.getOpenMoves fuel allDirections thisColor col rw board
  | King thisColor col rw first =>
      Open.kingGetOpenMoves (Open.inCheck (getOpenMovesFuel fuel))
        thisColor col rw first board castle
  | Knight thisColor col rw =>
      Stepper.getOpenMoves knightJumps thisColor col rw board
  end.
Proof. reflexivity. Qed.

(** The calls made by [inCheck] ([castle = false]) need ten units. *)
Lemma getOpenMovesFuel_attack fuel piece board :
  (10 <= fuel)%nat ->
  timedOut (getOpenMovesFuel fuel piece board false) = false
  /\ getOpenMovesFuel fuel piece board false = getOpenMovesFuel 10 piece board false.
Proof.
  intros Hf. destruct fuel as [|fuel]; [lia|].
  rewrite (getOpenMovesFuel_unfold fuel), (getOpenMovesFuel_unfold 9).
  assert (H9 : (9 <= fuel)%nat) by lia.
  destruct piece as [c col rw f e|c col rw|c col rw f|c col rw|c col rw f|c col rw].
  - split; [apply Pawn_timedOut | reflexivity].
  - apply Slider_stable; [apply diagonals_allDirections | exact H9].
  - apply Slider_stable; [apply orthogonals_allDirections | exact H9].
  - apply Slider_stable; [auto | exact H9].
  - rewrite !kingGetOpenMoves_attack. split; [apply Stepper_timedOut | reflexivity].
  - split; [apply Stepper_timedOut | reflexivity].
Qed.

Lemma inCheckFuel_stable fuel thisColor board :
  (10 <= fuel)%nat ->
  timedOut (inCheckFuel fuel thisColor board) = false
  /\ inCheckFuel fuel thisColor board = inCheckFuel 10 thisColor board.
Proof.
  intros Hf. unfold inCheckFuel. split.
  - apply inCheck_timedOut. intros; now apply getOpenMovesFuel_attack.
  - apply inCheck_ext. intros; now apply getOpenMovesFuel_attack.
Qed.

Lemma getOpenMovesFuel_stable fuel piece board castle :
  (11 <= fuel)%nat ->
  timedOut (getOpenMovesFuel fuel piece board castle) = false
  /\ getOpenMovesFuel fuel piece board castle = getOpenMovesFuel 11 piece board castle.
Proof.
  intros Hf. destruct fuel as [|fuel]; [lia|].
  rewrite (getOpenMovesFuel_unfold fuel), (getOpenMovesFuel_unfold 10).
  assert (H9 : (9 <= fuel)%nat) by lia.
  assert (H10 : (10 <= fuel)%nat) by lia.
  destruct piece as [c col rw f e|c col rw|c col rw f|c col rw|c col rw f|c col rw].
  - split; [apply Pawn_timedOut | reflexivity].
  - destruct (Slider_stable fuel diagonals c col rw board diagonals_allDirections H9) as [T E].
    split; [exact T|]. rewrite E. symmetry.
    apply Slider_stable; [apply diagonals_allDirections | lia].
  - destruct (Slider_stable fuel orthogonals c col rw board orthogonals_allDirections H9) as [T E].
    split; [exact T|]. rewrite E. symmetry.
    apply Slider_stable; [apply orthogonals_allDirections | lia].
  - destruct (Slider_stable fuel allDirections c col rw board (fun d H => H) H9) as [T E].
    split; [exact T|]. rewrite E. symmetry.
    apply Slider_stable; [auto | lia].
  - split.
    + apply kingGetOpenMoves_timedOut. intros c' b'.
      now apply (inCheckFuel_stable fuel).
    + apply kingGetOpenMoves_ext. intros c' b'.
      now apply (inCheckFuel_stable fuel).
  - split; [apply Stepper_timedOut | reflexivity].
Qed.

Section OpenLegality.

Variables g1 g2 : Piece -> Board -> bool -> outcome (list Coordinate).
Hypothesis g_ext : forall p b c, g1 p b c = g2 p b c.
Hypothesis g_timedOut : forall p b c, timedOut (g1 p b c) = false.

Lemma getAvailableMoves_ext piece board :
  Open.getAvailableMoves g1 piece board = Open.getAvailableMoves g2 piece board.
Proof.
  unfold Open.getAvailableMoves. rewrite g_ext.
  apply bind_ext; intros openMoves _.
  apply forEach_ext. intros s m _.
  apply bind_ext; intros after _.
  now rewrite (inCheck_ext g1 g2 (fun p b => g_ext p b false)).
Qed.

Lemma getAvailableMoves_timedOut piece board :
  timedOut (Open.getAvailableMoves g1 piece board) = false.
Proof.
  unfold Open.getAvailableMoves.
  apply timedOut_bind; [apply g_timedOut|]. intros openMoves _.
  apply forEach_timedOut. intros s m _.
  apply timedOut_bind; [apply move_timedOut|]. intros after _.
  apply timedOut_bind; [|reflexivity].
  apply inCheck_timedOut. intros; apply g_timedOut.
Qed.

Lemma noAvailableMove_ext board thisColor pieces :
  Open.noAvailableMove g1 pieces board thisColor
  = Open.noAvailableMove g2 pieces board thisColor.
Proof.
  induction pieces as [|p rest IH]; simpl; [reflexivity|].
  now rewrite getAvailableMoves_ext, IH.
Qed.

Lemma noAvailableMove_timedOut board thisColor pieces :
  timedOut (Open.noAvailableMove g1 pieces board thisColor) = false.
Proof.
  induction pieces as [|p rest IH]; simpl; [reflexivity|].
  destruct (Color_eqb (color p) thisColor); [|exact IH].
  apply timedOut_bind; [apply getAvailableMoves_timedOut|]. intros l _.
  now destruct (negb _).
Qed.

Lemma inCheckmate_ext thisColor board :
  Open.inCheckmate g1 thisColor board = Open.inCheckmate g2 thisColor board.
Proof.
  unfold Open.inCheckmate.
  rewrite (inCheck_ext g1 g2 (fun p b => g_ext p b false)).
  apply bind_ext; intros [|] _; [apply noAvailableMove_ext | reflexivity].
Qed.

Lemma inStalemate_ext thisColor board :
  Open.inStalemate g1 thisColor board = Open.inStalemate g2 thisColor board.
Proof.
  unfold Open.inStalemate.
  rewrite (inCheck_ext g1 g2 (fun p b => g_ext p b false)).
  apply bind_ext; intros [|] _; [reflexivity | apply noAvailableMove_ext].
Qed.

Lemma inCheckmate_timedOut thisColor board :
  timedOut (Open.inCheckmate g1 thisColor board) = false.
Proof.
  unfold Open.inCheckmate.
  apply timedOut_bind; [apply inCheck_timedOut; intros; apply g_timedOut|].
  intros [|] _; [apply noAvailableMove_timedOut | reflexivity].
Qed.

Lemma inStalemate_timedOut thisColor board :
  timedOut (Open.inStalemate g1 thisColor board) = false.
Proof.
  unfold Open.inStalemate.
  apply timedOut_bind; [apply inCheck_timedOut; intros; apply g_timedOut|].
  intros [|] _; [reflexivity | apply noAvailableMove_timedOut].
Qed.

End OpenLegality.

Lemma getOpenMoves_timedOut piece board castle :
  timedOut (getOpenMoves piece board castle) = false.
Proof. now apply getOpenMovesFuel_stable. Qed.

Lemma getOpenMovesFuel_getOpenMoves fuel :
  (fuelBound <= fuel)%nat ->
  forall piece board castle,
    getOpenMovesFuel fuel piece board castle = getOpenMoves piece board castle.
Proof. intros Hf piece board castle. now apply getOpenMovesFuel_stable. Qed.

(** C8. Every core operation terminates on every board.  Fuel counts the
    evaluations of a [while] condition and the depth of nested calls; with
    [fuelBound] units or more, [getOpenMoves] (either [castle] flag),
    [getAvailableMoves], [inCheck], [inCheckmate] and [inStalemate] never run
    out of fuel and their outcome does not depend on the amount; [move] has no
    unbounded loop at all.  The recursion between [King.getOpenMoves] and
    [inCheck] stops at depth two: called with [castle = false], as [inCheck]
    does, a king's [getOpenMoves] comes back with one single unit of fuel,
    that is, without any nested call. *)
Theorem core_operations_terminate
  (fuel : nat) (piece : Piece) (thisColor : Color) (board : Board)
  (castle : bool) (newPosition : Coordinate) :
  (fuelBound <= fuel)%nat ->
  (timedOut (getOpenMovesFuel fuel piece board castle) = false
   /\ getOpenMovesFuel fuel piece board castle = getOpenMoves piece board castle)
  /\ timedOut (move piece newPosition board) = false
  /\ (timedOut (getAvailableMovesFuel fuel piece board) = false
      /\ getAvailableMovesFuel fuel piece board = getAvailableMoves piece board)
  /\ (timedOut (inCheckFuel fuel thisColor board) = false
      /\ inCheckFuel fuel thisColor board = inCheck thisColor board)
  /\ (timedOut (inCheckmateFuel fuel thisColor board) = false
      /\ inCheckmateFuel fuel thisColor board = inCheckmate thisColor board)
  /\ (timedOut (inStalemateFuel fuel thisColor board) = false
      /\ inStalemateFuel fuel thisColor board = inStalemate thisColor board)
  /\ (isKing piece = true ->
      timedOut (getOpenMovesFuel 1 piece board false) = false).
Proof.
  intros Hf.
  pose proof (getOpenMovesFuel_getOpenMoves fuel Hf) as E.
  assert (T : forall p b c, timedOut (getOpenMovesFuel fuel p b c) = false)
    by (intros; now apply getOpenMovesFuel_stable).
  repeat split.
  - apply T.
  - apply E.
  - apply move_timedOut.
  - now apply getAvailableMoves_timedOut.
  - now apply getAvailableMoves_ext.
  - apply inCheck_timedOut. intros; apply T.
  - apply inCheck_ext. intros; apply E.
  - now apply inCheckmate_timedOut.
  - now apply inCheckmate_ext.
  - now apply inStalemate_timedOut.
  - now apply inStalemate_ext.
  - destruct piece; try discriminate. intros _.
    rewrite getOpenMovesFuel_unfold, kingGetOpenMoves_attack.
    apply Stepper_timedOut.
Qed.

(* ================================================================== *)
(** ** Piece lookup *)

Lemma firstAt_split board coordinate piece :
  Board.firstAt board coordinate = Some piece ->
  exists before after,
    board = before ++ piece :: after
    /\ forall q, In q before -> position q <> coordinate.
Proof.
  induction board as [|q rest IH]; simpl; [discriminate|].
  destruct (Coord.equals (position q) coordinate) eqn:E.
  - intros [= <-]. exists [], rest. split; [reflexivity | intros ? []].
  - intros H. destruct (IH H) as (before & after & -> & Hb).
    exists (q :: before), after. split; [reflexivity|].
    intros q' [<-|Hq]; [now apply equals_false | now apply Hb].
Qed.

(** C7. [Board.getPieceAt] throws the out-of-bounds error ('Illegal
    coordinate') exactly when the coordinate is not in bounds, throws the
    empty-square error ('No Piece In Space') exactly when the coordinate is in
    bounds and no piece stands on it, and otherwise returns the piece standing
    on it (the first one in array order, should there be several). *)
Theorem getPieceAt_outcomes (board : Board) (coordinate : Coordinate) :
  (Board.getPieceAt board coordinate = Throw IllegalCoordinate
   <-> Coord.inBounds coordinate = false)
  /\ (Board.getPieceAt board coordinate = Throw NoPieceInSpace
      <-> Coord.inBounds coordinate = true
          /\ forall piece, In piece board -> position piece <> coordinate)
  /\ (Coord.inBounds coordinate = true
      /\ (exists piece, In piece board /\ position piece = coordinate)
      <-> exists before piece after,
            Board.getPieceAt board coordinate = Ret piece
            /\ board = before ++ piece :: after
            /\ position piece = coordinate
            /\ forall q, In q before -> position q <> coordinate).
Proof.
  unfold Board.getPieceAt.
  destruct (Coord.inBounds coordinate) eqn:B;
    [destruct (Board.firstAt board coordinate) as [p|] eqn:F|].
  - destruct (firstAt_Some _ _ _ F) as [Hin Hpos].
    destruct (firstAt_split _ _ _ F) as (before & after & Hb & Hfirst).
    split; [split; discriminate|]. split.
    + split; [discriminate|]. intros [_ H]. exfalso. now apply (H p).
    + split.
      * intros _. now exists before, p, after.
      * intros _. split; [reflexivity | now exists p].
  - pose proof (proj1 (firstAt_None board coordinate) F) as Hnone.
    split; [split; discriminate|]. split.
    + split; auto.
    + split.
      * intros [_ (p & Hin & Hp)]. exfalso. now apply (Hnone p).
      * intros (? & ? & ? & [=] & _).
  - split; [split; auto|]. split.
    + split; [discriminate | intros [[=] _]].
    + split.
      * intros [[=] _].
      * intros (? & ? & ? & [=] & _).
Qed.

(* ================================================================== *)
(** ** The legality filter *)

Lemma in_pushIf {A : Type} (cond : bool) (xs : list A) (x y : A) :
  In y (pushIf cond xs x) <-> In y xs \/ (cond = true /\ y = x).
Proof.
  unfold pushIf, push. destruct cond.
  - rewrite in_app_iff. simpl. intuition congruence.
  - intuition congruence.
Qed.

(** Invariant of the loop of [getAvailableMoves]: whatever is pushed passed
    the test [!inCheck(piece.color, piece.move(openMove, board))]. *)
Lemma availableMoves_loop g piece board openMoves :
  forall acc availableMoves,
    forEach openMoves
      (fun availableMoves openMove =>
         after <- move piece openMove board ;;
         checked <- Open.inCheck g (color piece) after ;;
         Ret (pushIf (negb checked) availableMoves openMove))
      acc = Ret availableMoves ->
    forall m, In m availableMoves ->
      In m acc
      \/ (In m openMoves
          /\ exists after, move piece m board = Ret after
                           /\ Open.inCheck g (color piece) after = Ret false).
Proof.
  induction openMoves as [|o rest IH]; intros acc result; simpl.
  - intros [= <-] m Hm. now left.
  - destruct (move piece o board) as [after| |] eqn:Em; simpl; try discriminate.
    destruct (Open.inCheck g (color piece) after) as [checked| |] eqn:Ec;
      simpl; try discriminate.
    intros Hloop m Hm.
    destruct (IH _ _ Hloop m Hm) as [Hacc | (Hin & after' & H1 & H2)].
    + apply in_pushIf in Hacc. destruct Hacc as [Hacc | [Hc ->]]; [now left|].
      right. split; [now left|]. exists after. split; [exact Em|].
      now destruct checked.
    + right. split; [now right|]. now exists after'.
Qed.

(** C3. Every destination [m] returned by [getAvailableMoves(piece, board)]
    satisfies [inCheck(piece.color, piece.move(m, board)) == false]: the move
    can be made and leaves the mover's own king out of check.  This holds on
    every board on which the call returns, in particular on the boards on
    which both colors have a king. *)
Theorem available_moves_avoid_check
  (piece : Piece) (board : Board) (availableMoves : list Coordinate)
  (m : Coordinate) :
  getAvailableMoves piece board = Ret availableMoves ->
  In m availableMoves ->
  exists after,
    move piece m board = Ret after /\ inCheck (color piece) after = Ret false.
Proof.
  unfold getAvailableMoves, getAvailableMovesFuel, Open.getAvailableMoves.
  destruct (getOpenMovesFuel fuelBound piece board true) as [openMoves| |];
    simpl; try discriminate.
  intros Hloop Hm.
  destruct (availableMoves_loop _ _ _ _ _ _ Hloop m Hm) as [[] | (_ & H)].
  exact H.
Qed.

(* ================================================================== *)
(** ** Terminal conditions *)

(** C9. [inCheckmate] and [inStalemate] are never both true: the first
    requires [inCheck] to be true, the second requires it to be false.  This
    holds on every board, in particular on every board holding a king of the
    color (on the others both calls throw). *)
Theorem checkmate_excludes_stalemate (thisColor : Color) (board : Board) :
  holds (inCheckmate thisColor board) && holds (inStalemate thisColor board)
  = false.
Proof.
  unfold inCheckmate, inStalemate, inCheckmateFuel, inStalemateFuel,
    Open.inCheckmate, Open.inStalemate.
  destruct (Open.inCheck (getOpenMovesFuel fuelBound) thisColor board)
    as [[|]| |]; simpl; try reflexivity.
  apply andb_false_r.
Qed.

(* ================================================================== *)
(** ** The double step of a pawn on the last but one rank *)

(** C10. A pawn whose [firstMove] flag is true, whose square ahead is on the
    board and empty, and whose two-squares-forward coordinate lies off the
    board makes [getOpenMoves] throw instead of returning a list: the
    double-step test calls [Board.isEmpty] on the off-board coordinate, which
    throws "Coordinate out of bounds".  A White pawn built at row 1 (the
    constructor's default is [firstMove = true]) in front of an empty square
    is such a pawn. *)
Theorem pawn_double_step_throws
  (thisColor : Color) (col rw : Z) (flag castle : bool) (board : Board) :
  Coord.inBounds (forwardOf thisColor col rw) = true ->
  Board.isEmpty board (forwardOf thisColor col rw) = Ret true ->
  Coord.inBounds (doubleForwardOf thisColor col rw) = false ->
  Board.isEmpty board (doubleForwardOf thisColor col rw) = Throw CoordinateOutOfBounds
  /\ getOpenMoves (Pawn thisColor col rw true flag) board castle
     = Throw CoordinateOutOfBounds.
Proof.
  intros Bf Ef Bd.
  assert (Ed : Board.isEmpty board (doubleForwardOf thisColor col rw)
               = Throw CoordinateOutOfBounds)
    by (unfold Board.isEmpty; now rewrite Bd).
  split; [exact Ed|].
  unfold getOpenMoves, fuelBound. rewrite getOpenMovesFuel_unfold.
  unfold PawnImpl.getOpenMoves.
  unfold forwardOf, doubleForwardOf in *.
  destruct thisColor; rewrite Bf, Ef; simpl; rewrite Ed; reflexivity.
Qed.

(* ================================================================== *)
(** ** Castling from the home column *)

Section Blocked.

Variable inCheck' : Color -> Board -> outcome bool.

Lemma crossing_stays_false thisColor col rw first board columns :
  forall canCastle,
    forEach columns (Open.crossing inCheck' thisColor col rw first board) false
    = Ret canCastle ->
    canCastle = false.
Proof.
  induction columns as [|c rest IH]; simpl; intros can.
  - now intros [= <-].
  - unfold Open.crossing at 1.
    destruct (Board.isEmpty board (| c, rw |)) as [e| |]; simpl; try discriminate.
    destruct (KingMove.move thisColor col rw first (| c, rw |) board) as [after| |];
      simpl; try discriminate.
    destruct (inCheck' thisColor after) as [checked| |]; simpl; try discriminate.
    replace (if checked then false else if negb e then false else false)
      with false by (now destruct checked, e).
    apply IH.
Qed.

(** When column 4 of the king's row is occupied, a castling block pushes
    nothing, whatever the rest of the board. *)
Lemma castleSide_blocked thisColor col rw first board corner columns target
  openMoves result :
  Board.isEmpty board (| 4, rw |) = Ret false ->
  Open.castleSide inCheck' thisColor col rw first board corner (4 :: columns)
    target openMoves = Ret result ->
  result = openMoves.
Proof.
  intros Occupied. unfold Open.castleSide.
  destruct (Board.isEmpty board corner) as [e| |]; simpl; try discriminate.
  destruct (negb e); [|now intros [= <-]].
  destruct (Board.getPieceAt board corner) as [atCorner| |]; simpl; try discriminate.
  destruct (isRook atCorner); [|now intros [= <-]].
  destruct (firstMove atCorner); [|now intros [= <-]].
  unfold Open.crossing at 1. rewrite Occupied. simpl.
  destruct (KingMove.move thisColor col rw first (| 4, rw |) board) as [after| |];
    simpl; try discriminate.
  destruct (inCheck' thisColor after) as [checked| |]; simpl; try discriminate.
  replace (if checked then false else false) with false by (now destruct checked).
  destruct (forEach columns _ false) as [can| |] eqn:Loop; simpl; try discriminate.
  apply crossing_stays_false in Loop. subst can. now intros [= <-].
Qed.

End Blocked.

(** A king whose row has a piece on column 4, in particular a king standing
    on its home square (4, row), is offered exactly the moves it is offered
    without castling. *)
Lemma no_castling_past_column_4 thisColor col rw first board openMoves :
  Board.isEmpty board (| 4, rw |) = Ret false ->
  getOpenMoves (King thisColor col rw first) board true = Ret openMoves ->
  getOpenMoves (King thisColor col rw first) board false = Ret openMoves.
Proof.
  intros Occupied. unfold getOpenMoves, fuelBound.
  rewrite !getOpenMovesFuel_unfold, kingGetOpenMoves_attack.
  unfold Open.kingGetOpenMoves.
  destruct (Stepper.getOpenMoves allDirections thisColor col rw board)
    as [adjacent| |]; simpl; try discriminate.
  destruct first; [|auto].
  destruct (Open.castleSide _ thisColor col rw true board _ [4; 3; 2] 2 adjacent)
    as [afterQueenside| |] eqn:Q; simpl; try discriminate.
  apply (castleSide_blocked _ _ _ _ _ _ _ _ _ _ _ Occupied) in Q. subst.
  intros K. apply (castleSide_blocked _ _ _ _ _ _ _ _ _ _ _ Occupied) in K.
  now subst.
Qed.

(* ================================================================== *)
(** ** What [inCheck] does when no pawn throws *)

Lemma forEach_returns {A S : Type} (xs : list A) (f : S -> A -> outcome S) :
  (forall s x, In x xs -> returns (f s x) = true) ->
  forall s, returns (forEach xs f s) = true.
Proof.
  induction xs as [|x xs IH]; intros R s; simpl; [reflexivity|].
  specialize (R s x (or_introl eq_refl)) as Rx.
  destruct (f s x); try discriminate. simpl.
  apply IH. intros; apply R; now right.
Qed.

Lemma ray_returns board thisColor d :
  forall fuel newPosition openMoves,
    timedOut (Slider.ray fuel board thisColor d newPosition openMoves) = false ->
    returns (Slider.ray fuel board thisColor d newPosition openMoves) = true.
Proof.
  induction fuel as [|fuel IH]; intros p acc; [discriminate|].
  rewrite ray_unfold. unfold Slider.afterLoop.
  destruct (Coord.inBounds p) eqn:B; [|reflexivity].
  rewrite (isEmpty_inBounds _ _ B). unfold Board.getPieceAt. rewrite B.
  destruct (Board.firstAt board p); simpl; [reflexivity | apply IH].
Qed.

Lemma Stepper_returns directions thisColor col rw board :
  returns (Stepper.getOpenMoves directions thisColor col rw board) = true.
Proof.
  unfold Stepper.getOpenMoves. apply forEach_returns. intros s d _.
  unfold Stepper.step. destruct (Coord.inBounds _) eqn:B; [|reflexivity].
  rewrite (isEmpty_inBounds _ _ B). unfold Board.getPieceAt. rewrite B.
  now destruct (Board.firstAt board _).
Qed.

(** With [castle = false] only a pawn can make [getOpenMoves] throw. *)
Lemma attack_moves_return piece board :
  isPawn piece = false ->
  returns (getOpenMoves piece board false) = true.
Proof.
  intros NP. unfold getOpenMoves, fuelBound. rewrite getOpenMovesFuel_unfold.
  destruct piece as [c col rw f e|c col rw|c col rw f|c col rw|c col rw f|c col rw];
    try discriminate.
  - apply forEach_returns. intros s d Hd. apply ray_returns.
    apply ray_stable; [now apply diagonals_allDirections | lia].
  - apply forEach_returns. intros s d Hd. apply ray_returns.
    apply ray_stable; [now apply orthogonals_allDirections | lia].
  - apply forEach_returns. intros s d Hd. apply ray_returns.
    apply ray_stable; [assumption | lia].
  - rewrite kingGetOpenMoves_attack. apply Stepper_returns.
  - apply Stepper_returns.
Qed.

Lemma findKing_fold thisColor board :
  forall found,
    fst (fold_left
           (fun (found : bool * Coordinate) piece =>
              if isKing piece && Color_eqb (color piece) thisColor
              then (false, position piece)
              else found)
           board found)
    = fst found && negb (hasKing thisColor board).
Proof.
  unfold hasKing. induction board as [|p rest IH]; intros found; simpl.
  - now rewrite andb_true_r.
  - rewrite IH.
    destruct (isKing p && Color_eqb (color p) thisColor); simpl.
    + now rewrite andb_false_r.
    + reflexivity.
Qed.

Lemma findKing_hasKing thisColor board :
  fst (Open.findKing thisColor board) = negb (hasKing thisColor board).
Proof. unfold Open.findKing, Board.getPieces. now rewrite findKing_fold. Qed.

Lemma attacked_returns thisColor board square pieces :
  (forall p, In p pieces -> Color_eqb (color p) thisColor = false ->
     returns (getOpenMoves p board false) = true) ->
  Open.attacked getOpenMoves pieces board thisColor square
  = Ret (existsb
           (fun piece =>
              negb (Color_eqb (color piece) thisColor)
              && match getOpenMoves piece board false with
                 | Ret openMoves =>
                     existsb (fun openPosition => Coord.equals openPosition square)
                       openMoves
                 | _ => false
                 end)
           pieces).
Proof.
  induction pieces as [|p rest IH]; intros R; simpl; [reflexivity|].
  destruct (Color_eqb (color p) thisColor) eqn:C; simpl.
  - apply IH. intros; apply R; auto. now right.
  - specialize (R p (or_introl eq_refl) C) as Rp.
    destruct (getOpenMoves p board false) as [l| |]; try discriminate. simpl.
    destruct (existsb _ l); [reflexivity|].
    apply IH. intros; apply R; auto. now right.
Qed.

(** [inCheck] throws "Must have a
    king" when the board holds no king of the color, and on a board holding
    one, when the [getOpenMoves] of every opposing piece returns (which it
    does for every piece but a pawn), [inCheck] returns whether some opposing
    piece has the king's square among its open moves. *)
Lemma inCheck_when_moves_return thisColor board :
  (hasKing thisColor board = false -> inCheck thisColor board = Throw MustHaveAKing)
  /\ (hasKing thisColor board = true ->
      (forall p, In p board -> Color_eqb (color p) thisColor = false ->
         returns (getOpenMoves p board false) = true) ->
      inCheck thisColor board
      = Ret (attackedBy thisColor board (kingSquare thisColor board))).
Proof.
  unfold inCheck, inCheckFuel, Open.inCheck, kingSquare, attackedBy.
  pose proof (findKing_hasKing thisColor board) as F.
  destruct (Open.findKing thisColor board) as [noKingFound kingPosition].
  simpl in F. subst noKingFound. split; intros ->; simpl; [reflexivity|].
  intros R. now apply attacked_returns.
Qed.

(* ================================================================== *)
(** ** Scenarios evaluated on the code *)

(** C4 (code defect). On the stalemate scenario built as the test suite
    builds it, [inCheckmate("Black", board)] is false but
    [inStalemate("Black", board)] is false too, where the test "In stalemate"
    asserts it.  The Black king still has its [firstMove] flag, so
    [King.move] to (6,0) is taken for a kingside castle and drops both White
    rooks from the resulting board; on that board the king is not in check
    and (6,0) passes the legality filter. *)
Theorem stalemate_scenario_evaluated :
  inCheckmate Black stalemateBoard = Ret false
  /\ inStalemate Black stalemateBoard = Ret false
  /\ getAvailableMoves (King Black 5 0 true) stalemateBoard = Ret [(| 6, 0 |)]
  /\ move (King Black 5 0 true) (| 6, 0 |) stalemateBoard
     = Ret [King White 5 7 true; Queen White 4 5; King Black 6 0 false].
Proof. repeat split; vm_compute; reflexivity. Qed.

(** With a Black king that has already moved the scenario is a stalemate,
    whatever the flags of the White pieces. *)
Lemma stalemate_scenario_moved_king (whiteKing rook1 rook2 : bool) :
  inStalemate Black (stalemateBoardWith false whiteKing rook1 rook2) = Ret true
  /\ inCheckmate Black (stalemateBoardWith false whiteKing rook1 rook2) = Ret false.
Proof. destruct whiteKing, rook1, rook2; split; vm_compute; reflexivity. Qed.

Lemma stalemate_scenario_unmoved_king (whiteKing rook1 rook2 : bool) :
  inStalemate Black (stalemateBoardWith true whiteKing rook1 rook2) = Ret false.
Proof. destruct whiteKing, rook1, rook2; vm_compute; reflexivity. Qed.

(** C2 (code defect). White castles queenside on [castlingBoard]: the king
    arrives on (2,7) and the rook of (0,7) on (3,7), but the three other
    rooks of the input board, which the move does not concern, are missing
    from the board returned.  The rook branch of the loop of [King.move] has
    no [else] for the rooks that are not on the castling corner. *)
Theorem castle_drops_other_rooks :
  move (King White 4 7 true) (| 2, 7 |) castlingBoard
  = Ret [King Black 4 0 true; Rook White 3 7 true; King White 2 7 false]
  /\ existsb isRook castlingBoard = true
  /\ Board.getPieceAt castlingBoard (| 7, 7 |) = Ret (Rook White 7 7 true)
  /\ Board.getPieceAt castlingBoard (| 0, 0 |) = Ret (Rook Black 0 0 true)
  /\ Board.getPieceAt castlingBoard (| 7, 0 |) = Ret (Rook Black 7 0 true).
Proof. repeat split; vm_compute; reflexivity. Qed.

(** C1 (code defect). On [castlingBoard] the White king and both White rooks
    are unmoved, the rooks stand on their corners, every square between king
    and rook is empty, and the king is in check neither where it stands nor
    on any square it would cross; yet [getOpenMoves(board, true)] returns the
    five adjacent squares only, with neither (2,7) nor (6,7).  The loops over
    the crossed columns start at column 4 and require that square to be
    empty, and it is the king's own square. *)
Theorem castling_not_offered :
  getOpenMoves (King White 4 7 true) castlingBoard true
  = Ret [(| 5, 6 |); (| 3, 6 |); (| 5, 7 |); (| 3, 7 |); (| 4, 6 |)]
  /\ Board.getPieceAt castlingBoard (| 0, 7 |) = Ret (Rook White 0 7 true)
  /\ Board.getPieceAt castlingBoard (| 7, 7 |) = Ret (Rook White 7 7 true)
  /\ forallb (fun c => holds (Board.isEmpty castlingBoard (| c, 7 |)))
       [1; 2; 3; 5; 6] = true
  /\ forallb (fun c => negb (holds (inCheck White (castlingBoardKingOn c))))
       [2; 3; 4; 5; 6] = true
  /\ forallb (fun c => returns (inCheck White (castlingBoardKingOn c)))
       [2; 3; 4; 5; 6] = true.
Proof. repeat split; vm_compute; reflexivity. Qed.

(** C5 (code defect). On [pawnBeforeRookBoard] Black has a king and the
    White rook has the king's square among its [getOpenMoves(board, false)],
    yet [inCheck("Black", board)] does not return true: the White pawn comes
    first in the array and its [getOpenMoves] throws "Coordinate out of
    bounds", which leaves [inCheck]. *)
Theorem inCheck_leaves_on_pawn_throw :
  hasKing Black pawnBeforeRookBoard = true
  /\ getOpenMoves (Rook White 4 5 true) pawnBeforeRookBoard false
     = Ret [(| 5, 5 |); (| 6, 5 |); (| 7, 5 |); (| 3, 5 |); (| 2, 5 |);
            (| 1, 5 |); (| 0, 5 |); (| 4, 6 |); (| 4, 4 |); (| 4, 3 |);
            (| 4, 2 |); (| 4, 1 |); (| 4, 0 |)]
  /\ getOpenMoves (Pawn White 0 1 true false) pawnBeforeRookBoard false
     = Throw CoordinateOutOfBounds
  /\ inCheck Black pawnBeforeRookBoard = Throw CoordinateOutOfBounds.
Proof. repeat split; vm_compute; reflexivity. Qed.

(* ================================================================== *)
(** ** Closed form of [move] on an in-bounds destination *)

Lemma forEach_flat_map {A B : Type} (xs : list A) (f : A -> list B) :
  forall acc,
    forEach xs (fun s x => Ret (s ++ f x)) acc = Ret (acc ++ flat_map f xs).
Proof.
  induction xs as [|x xs IH]; intros acc; simpl.
  - now rewrite app_nil_r.
  - now rewrite IH, app_assoc.
Qed.

Lemma pushIf_app {A : Type} (cond : bool) (xs : list A) (x : A) :
  pushIf cond xs x = xs ++ (if cond then [x] else []).
Proof. destruct cond; unfold pushIf, push; [reflexivity | now rewrite app_nil_r]. Qed.

Lemma relocate_inBounds thisPosition addedPiece newPosition board :
  Coord.inBounds newPosition = true ->
  relocate thisPosition addedPiece newPosition board
  = Ret (flat_map
           (fun oldPiece =>
              if stays oldPiece newPosition thisPosition
              then [clearEnPassant oldPiece] else [])
           board ++ [addedPiece]).
Proof.
  intros B. unfold relocate, Board.getPieces, push. rewrite B. cbn [negb].
  erewrite forEach_ext; [rewrite forEach_flat_map; reflexivity|].
  intros s x _. cbn beta. now rewrite pushIf_app.
Qed.

Lemma PawnMove_inBounds thisColor col rw newPosition board :
  Coord.inBounds newPosition = true ->
  exists addedPiece,
    position addedPiece = newPosition
    /\ PawnMove.move thisColor col rw newPosition board
       = Ret (flat_map
                (fun oldPiece =>
                   if stays oldPiece newPosition (| col, rw |)
                      && negb (PawnMove.takesEnPassant thisColor newPosition
                                 (match Board.firstAt board newPosition with
                                  | Some _ => false | None => true end)
                                 oldPiece)
                   then [clearEnPassant oldPiece] else [])
                board ++ [addedPiece]).
Proof.
  intros B. unfold PawnMove.move, Board.getPieces, push. rewrite B. cbn [negb].
  erewrite forEach_ext.
  2:{ intros s x _. rewrite (isEmpty_inBounds _ _ B). cbn [bind].
      rewrite pushIf_app. reflexivity. }
  rewrite forEach_flat_map. cbn [bind app].
  eexists. split; [|reflexivity].
  destruct newPosition as [c r]; cbn [column row].
  destruct thisColor; [destruct (r =? 0) | destruct (r =? 7)]; reflexivity.
Qed.

Lemma KingMove_inBounds thisColor col rw first newPosition board :
  Coord.inBounds newPosition = true ->
  KingMove.move thisColor col rw first newPosition board
  = Ret (flat_map
           (fun oldPiece =>
              if stays oldPiece newPosition (| col, rw |)
              then KingMove.pushed (first && Coord.equals newPosition (| 2, rw |))
                     (first && Coord.equals newPosition (| 6, rw |)) rw oldPiece
              else [])
           board
         ++ [King thisColor (column newPosition) (row newPosition) false]).
Proof.
  intros B. unfold KingMove.move, Board.getPieces, push. rewrite B. cbn [negb].
  erewrite forEach_ext; [rewrite forEach_flat_map; reflexivity|].
  intros s x _. cbn beta.
  destruct (stays x newPosition (| col, rw |)); [reflexivity | now rewrite app_nil_r].
Qed.

(** For the four classes whose [move] is the plain relocation, the board returned holds the pieces of the input
    board that stand neither on the destination nor on the mover's square,
    pawns with their en-passant flag cleared, then the piece rebuilt at the
    destination. *)
Lemma move_plain_pieces piece newPosition board :
  Coord.inBounds newPosition = true ->
  isPawn piece = false -> isKing piece = false ->
  exists addedPiece,
    position addedPiece = newPosition
    /\ color addedPiece = color piece
    /\ firstMove addedPiece = false
    /\ move piece newPosition board
       = Ret (flat_map
                (fun oldPiece =>
                   if stays oldPiece newPosition (position piece)
                   then [clearEnPassant oldPiece] else [])
                board ++ [addedPiece]).
Proof.
  intros B NP NK. destruct newPosition as [c r].
  destruct piece; try discriminate; cbn [move];
    rewrite (relocate_inBounds _ _ _ _ B);
    eexists; (split; [|split; [|split; [|reflexivity]]]); reflexivity.
Qed.

(* ================================================================== *)
(** ** One piece per square *)

Lemma position_clearEnPassant piece :
  position (clearEnPassant piece) = position piece.
Proof. now destruct piece. Qed.

Lemma firstAt_None_positions board coordinate :
  Board.firstAt board coordinate = None <-> ~ In coordinate (map position board).
Proof.
  rewrite firstAt_None, in_map_iff. split.
  - intros H (p & Hp & Hin). now apply (H p).
  - intros H p Hin Hp. apply H. now exists p.
Qed.

Lemma onePiecePerSquare_NoDup board :
  onePiecePerSquare board = true <-> NoDup (map position board).
Proof.
  induction board as [|p rest IH]; simpl.
  - split; [constructor | reflexivity].
  - destruct (Board.firstAt rest (position p)) as [q|] eqn:F.
    + split; [discriminate|]. intros ND. inversion ND as [|? ? Hn _]; subst.
      apply firstAt_None_positions in Hn. congruence.
    + rewrite IH. apply firstAt_None_positions in F. split.
      * intros ND. now constructor.
      * intros ND. now inversion ND.
Qed.

(** The pieces [f] keeps or rebuilds stand on the square they came from, or,
    for a piece coming from [corner], on a square that is free on the input
    board; then the board made of them and of a piece added on the destination
    has one piece per square. *)
Lemma kept_onePiece (f : Piece -> list Piece) board newPosition corner addedPiece :
  NoDup (map position board) ->
  position addedPiece = newPosition ->
  (forall p, In p board -> NoDup (map position (f p))) ->
  (forall p c, In p board -> In c (map position (f p)) ->
     c <> newPosition
     /\ (c = position p
         \/ (position p = corner /\ forall q, In q board -> position q <> c))) ->
  NoDup (map position (flat_map f board ++ [addedPiece])).
Proof.
  intros ND Hadd H1 H2. rewrite map_app. apply NoDup_app.
  - assert (Hsub : forall p, In p board -> In p board) by auto.
    revert ND H1 Hsub.
    generalize board at 1 2 3 5 as l.
    induction l as [|a rest IH]; simpl; intros ND H1 Hsub; [constructor|].
    inversion ND as [|? ? Hn ND']; subst.
    rewrite map_app. apply NoDup_app.
    + apply H1. now left.
    + apply IH; auto.
    + intros c Hc Hc'. apply in_map_iff in Hc'.
      destruct Hc' as (q' & <- & Hq'). apply in_flat_map in Hq'.
      destruct Hq' as (q & Hq & Hq'f).
      assert (Hcq : In (position q') (map position (f q)))
        by (apply in_map_iff; now exists q').
      destruct (H2 a _ (Hsub a (or_introl eq_refl)) Hc) as [_ Ha].
      destruct (H2 q _ (Hsub q (or_intror Hq)) Hcq) as [_ Hb].
      apply Hn. apply in_map_iff. exists q. split; [|exact Hq].
      destruct Ha as [Ha | [Ha Hfree]], Hb as [Hb | [Hb Hfree']].
      * congruence.
      * exfalso. apply (Hfree' a); auto.
      * exfalso. apply (Hfree q); auto.
      * congruence.
  - simpl. constructor; [intros [] | constructor].
  - intros c Hc [<- | []]. apply in_map_iff in Hc.
    destruct Hc as (q' & Hq' & Hin). apply in_flat_map in Hin.
    destruct Hin as (q & Hq & Hq'f).
    assert (Hcq : In (position q') (map position (f q)))
      by (apply in_map_iff; now exists q').
    destruct (H2 q _ Hq Hcq) as [Hne _]. congruence.
Qed.

Lemma stays_newPosition oldPiece newPosition thisPosition :
  stays oldPiece newPosition thisPosition = true ->
  position oldPiece <> newPosition.
Proof.
  unfold stays. rewrite andb_true_iff, !negb_true_iff. intros [H _].
  now apply equals_false.
Qed.

(** Pieces kept on their own square. *)
Lemma kept_in_place (cond : Piece -> bool) board newPosition thisPosition addedPiece :
  NoDup (map position board) ->
  position addedPiece = newPosition ->
  (forall p, cond p = true -> stays p newPosition thisPosition = true) ->
  NoDup (map position
           (flat_map (fun oldPiece =>
                        if cond oldPiece then [clearEnPassant oldPiece] else [])
              board ++ [addedPiece])).
Proof.
  intros ND Hadd Hc.
  apply (kept_onePiece _ board newPosition newPosition addedPiece ND Hadd).
  - intros p _. destruct (cond p); simpl; repeat constructor. intros [].
  - intros p c _. destruct (cond p) eqn:E; simpl; [|intros []].
    intros [<- | []]. rewrite position_clearEnPassant. split; [|now left].
    eapply stays_newPosition; eauto.
Qed.

Lemma pushed_NoDup queenside kingside rw oldPiece :
  NoDup (map position (KingMove.pushed queenside kingside rw oldPiece)).
Proof.
  assert (S1 : forall c : Coordinate, NoDup [c])
    by (intros c; constructor; [intros [] | constructor]).
  destruct oldPiece; cbn [KingMove.pushed]; try apply S1.
  destruct queenside; [|destruct kingside];
    try destruct (Coord.equals _ _); simpl; try apply S1; constructor.
Qed.

Lemma pushed_positions queenside kingside rw oldPiece c :
  In c (map position (KingMove.pushed queenside kingside rw oldPiece)) ->
  c = position oldPiece
  \/ (queenside = true /\ position oldPiece = (| 0, rw |) /\ c = (| 3, rw |))
  \/ (queenside = false /\ kingside = true
      /\ position oldPiece = (| 7, rw |) /\ c = (| 5, rw |)).
Proof.
  destruct oldPiece; cbn [KingMove.pushed];
    try (simpl; intros [<- | []]; now left).
  destruct queenside; [|destruct kingside].
  - destruct (Coord.equals _ _) eqn:E; simpl; [|intros []].
    intros [<- | []]. apply equals_spec in E. right; left. auto.
  - destruct (Coord.equals _ _) eqn:E; simpl; [|intros []].
    intros [<- | []]. apply equals_spec in E. right; right. auto.
  - simpl. intros [<- | []]. now left.
Qed.

Lemma holds_isEmpty_free board coordinate :
  holds (Board.isEmpty board coordinate) = true ->
  forall q, In q board -> position q <> coordinate.
Proof.
  unfold Board.isEmpty. destruct (Coord.inBounds coordinate); [|discriminate].
  destruct (Board.firstAt board coordinate) eqn:F; [discriminate|].
  intros _. now apply firstAt_None.
Qed.

Lemma KingMove_onePiece thisColor col rw first newPosition board :
  NoDup (map position board) ->
  landingFree (King thisColor col rw first) newPosition board = true ->
  NoDup (map position
           (flat_map
              (fun oldPiece =>
                 if stays oldPiece newPosition (| col, rw |)
                 then KingMove.pushed (first && Coord.equals newPosition (| 2, rw |))
                        (first && Coord.equals newPosition (| 6, rw |)) rw oldPiece
                 else [])
              board
            ++ [King thisColor (column newPosition) (row newPosition) false])).
Proof.
  intros ND Free.
  set (queenside := first && Coord.equals newPosition (| 2, rw |)).
  set (kingside := first && Coord.equals newPosition (| 6, rw |)).
  apply (kept_onePiece _ board newPosition
           (if queenside then (| 0, rw |) else (| 7, rw |)) _ ND).
  - now destruct newPosition.
  - intros p _. destruct (stays p newPosition _); [apply pushed_NoDup | constructor].
  - intros p c Hp. destruct (stays p newPosition (| col, rw |)) eqn:St; [|intros []].
    intros Hc. apply pushed_positions in Hc.
    destruct Hc as [-> | [(Hq & Hcorner & ->) | (Hq & Hk & Hcorner & ->)]].
    + split; [now apply (stays_newPosition _ _ _ St) | now left].
    + rewrite Hq. subst queenside. apply andb_true_iff in Hq.
      destruct Hq as [-> Hq]. apply equals_spec in Hq. subst newPosition.
      unfold landingFree in Free. cbn in Free. rewrite !Z.eqb_refl in Free.
      cbn in Free. split; [intros [=] | right]. split; [exact Hcorner|].
      now apply holds_isEmpty_free.
    + rewrite Hq. subst kingside. apply andb_true_iff in Hk.
      destruct Hk as [-> Hk]. apply equals_spec in Hk. subst newPosition.
      unfold landingFree in Free. cbn in Free. rewrite !Z.eqb_refl in Free.
      cbn in Free. split; [intros [=] | right]. split; [exact Hcorner|].
      now apply holds_isEmpty_free.
Qed.

Lemma relocate_onePiece thisPosition addedPiece newPosition board :
  NoDup (map position board) ->
  Coord.inBounds newPosition = true ->
  position addedPiece = newPosition ->
  exists after,
    relocate thisPosition addedPiece newPosition board = Ret after
    /\ onePiecePerSquare after = true.
Proof.
  intros One B Hadd. rewrite (relocate_inBounds _ _ _ _ B).
  eexists; split; [reflexivity|]. apply onePiecePerSquare_NoDup.
  apply (kept_in_place (fun p => stays p newPosition thisPosition)
           board newPosition thisPosition addedPiece One Hadd).
  auto.
Qed.

(** C6, as the code has it. [move] places the rook of a castle on column 3
    (or 5) of the king's row without looking at that square.  On a board with
    at most one piece per square, every move to an in-bounds destination
    returns a board with at most one piece per square, provided that, when the
    mover is a king with [firstMove] set going to column 2 (or 6) of its own
    row, the square on column 3 (or 5) of that row is empty. *)
Theorem move_keeps_one_piece_per_square
  (piece : Piece) (newPosition : Coordinate) (board : Board) :
  onePiecePerSquare board = true ->
  Coord.inBounds newPosition = true ->
  landingFree piece newPosition board = true ->
  exists after,
    move piece newPosition board = Ret after
    /\ onePiecePerSquare after = true.
Proof.
  intros One B Free. apply onePiecePerSquare_NoDup in One.
  destruct piece as [c col rw f e|c col rw|c col rw f|c col rw|c col rw f|c col rw];
    cbn [move].
  - destruct (PawnMove_inBounds c col rw newPosition board B) as (added & Hadd & ->).
    eexists; split; [reflexivity|]. apply onePiecePerSquare_NoDup.
    apply (kept_in_place _ board newPosition (| col, rw |) added One Hadd).
    intros p Hp. now apply andb_true_iff in Hp.
  - apply relocate_onePiece; [assumption | assumption | now destruct newPosition].
  - apply relocate_onePiece; [assumption | assumption | now destruct newPosition].
  - apply relocate_onePiece; [assumption | assumption | now destruct newPosition].
  - rewrite (KingMove_inBounds _ _ _ _ _ _ B).
    eexists; split; [reflexivity|]. apply onePiecePerSquare_NoDup.
    now apply KingMove_onePiece.
  - apply relocate_onePiece; [assumption | assumption | now destruct newPosition].
Qed.

(** C6 as stated fails: White castles queenside on [blockedCastlingBoard],
    where the queen stands on (3,7).  The input board has one piece per
    square, the destination (2,7) is in bounds, and the board returned holds
    both the rook and the queen on (3,7). *)
Lemma castle_onto_occupied_square :
  onePiecePerSquare blockedCastlingBoard = true
  /\ Coord.inBounds (| 2, 7 |) = true
  /\ move (King White 4 7 true) (| 2, 7 |) blockedCastlingBoard
     = Ret [King Black 4 0 true; Rook White 3 7 true; Queen White 3 7;
            King White 2 7 false]
  /\ onePiecePerSquare
       [King Black 4 0 true; Rook White 3 7 true; Queen White 3 7;
        King White 2 7 false] = false.
Proof. repeat split; vm_compute; reflexivity. Qed.

(* ================================================================== *)
(** ** The general statements at concrete inputs *)

Lemma available_moves_avoid_check_witness :
  getAvailableMoves (Bishop White 4 5) checkingKnightBoard = Ret [(| 5, 6 |)]
  /\ In (| 5, 6 |) [(| 5, 6 |)]
  /\ exists after,
       move (Bishop White 4 5) (| 5, 6 |) checkingKnightBoard = Ret after
       /\ inCheck (color (Bishop White 4 5)) after = Ret false.
Proof.
  split; [vm_compute; reflexivity|].
  split; [simpl; left; reflexivity|].
  apply (available_moves_avoid_check (Bishop White 4 5) checkingKnightBoard
           [(| 5, 6 |)] (| 5, 6 |)).
  - vm_compute; reflexivity.
  - simpl; left; reflexivity.
Defined.

Lemma move_keeps_one_piece_per_square_witness :
  onePiecePerSquare queensideBoard = true
  /\ Coord.inBounds (| 2, 7 |) = true
  /\ landingFree (King White 4 7 true) (| 2, 7 |) queensideBoard = true
  /\ exists after,
       move (King White 4 7 true) (| 2, 7 |) queensideBoard = Ret after
       /\ onePiecePerSquare after = true.
Proof.
  split; [reflexivity|]. split; [reflexivity|]. split; [reflexivity|].
  apply (move_keeps_one_piece_per_square (King White 4 7 true) (| 2, 7 |)
           queensideBoard); reflexivity.
Defined.

Lemma core_operations_terminate_witness :
  (fuelBound <= 12)%nat
  /\ timedOut (inStalemateFuel 12 Black stalemateBoard) = false
  /\ inStalemateFuel 12 Black stalemateBoard = inStalemate Black stalemateBoard.
Proof.
  split; [unfold fuelBound; lia|].
  apply (core_operations_terminate 12 (King Black 5 0 true) Black stalemateBoard
           true (| 6, 0 |)).
  unfold fuelBound; lia.
Defined.

Lemma pawn_double_step_throws_witness :
  Coord.inBounds (forwardOf White 3 1) = true
  /\ Board.isEmpty lastRankPawnBoard (forwardOf White 3 1) = Ret true
  /\ Coord.inBounds (doubleForwardOf White 3 1) = false
  /\ getOpenMoves (Pawn White 3 1 true false) lastRankPawnBoard false
     = Throw CoordinateOutOfBounds.
Proof.
  split; [reflexivity|]. split; [reflexivity|]. split; [reflexivity|].
  apply (pawn_double_step_throws White 3 1 false false lastRankPawnBoard);
    reflexivity.
Defined.

(* ================================================================== *)
(** ** Occupancy queries *)

(** [Board.isEmpty] throws "Coordinate out of bounds" exactly off the board;
    on the board it answers true exactly when no piece of the array stands on
    the coordinate, and false exactly when one does. *)
Theorem isEmpty_outcomes (board : Board) (coordinate : Coordinate) :
  (Board.isEmpty board coordinate = Throw CoordinateOutOfBounds
   <-> Coord.inBounds coordinate = false)
  /\ (Board.isEmpty board coordinate = Ret true
      <-> Coord.inBounds coordinate = true
          /\ forall piece, In piece board -> position piece <> coordinate)
  /\ (Board.isEmpty board coordinate = Ret false
      <-> Coord.inBounds coordinate = true
          /\ exists piece, In piece board /\ position piece = coordinate).
Proof.
  unfold Board.isEmpty.
  destruct (Coord.inBounds coordinate) eqn:B;
    [destruct (Board.firstAt board coordinate) as [p|] eqn:F|].
  - destruct (firstAt_Some _ _ _ F) as [Hin Hpos].
    split; [split; discriminate|]. split.
    + split; [discriminate|]. intros [_ H]. exfalso. now apply (H p).
    + split; [|reflexivity]. intros _. split; [reflexivity | now exists p].
  - pose proof (proj1 (firstAt_None board coordinate) F) as Hnone.
    split; [split; discriminate|]. split.
    + split; auto.
    + split; [discriminate|]. intros [_ (p & Hin & Hp)]. exfalso. now apply (Hnone p).
  - split; [split; auto|]. split.
    + split; [discriminate | intros [[=] _]].
    + split; [discriminate | intros [[=] _]].
Qed.

(** [isEmpty] and [getPieceAt] agree: the lookup returns a piece exactly on
    the squares [isEmpty] reports occupied, throws 'No Piece In Space'
    exactly on those it reports empty, and both throw off the board. *)
Theorem isEmpty_agrees_with_getPieceAt (board : Board) (coordinate : Coordinate) :
  (Board.isEmpty board coordinate = Ret false
   <-> returns (Board.getPieceAt board coordinate) = true)
  /\ (Board.isEmpty board coordinate = Ret true
      <-> Board.getPieceAt board coordinate = Throw NoPieceInSpace)
  /\ (Board.isEmpty board coordinate = Throw CoordinateOutOfBounds
      <-> Board.getPieceAt board coordinate = Throw IllegalCoordinate).
Proof.
  unfold Board.isEmpty, Board.getPieceAt.
  destruct (Coord.inBounds coordinate);
    [destruct (Board.firstAt board coordinate)|];
    simpl; repeat split; intros; try reflexivity; discriminate.
Qed.

(* ================================================================== *)
(** ** The board after a move *)

Lemma move_closed_form piece newPosition board :
  Coord.inBounds newPosition = true ->
  move piece newPosition board
  = Ret (flat_map (keeps piece newPosition board) board
         ++ [arrival piece newPosition]).
Proof.
  intros B.
  destruct piece as [c col rw f e|c col rw|c col rw f|c col rw|c col rw f|c col rw];
    cbn [move]; try (rewrite (relocate_inBounds _ _ _ _ B); reflexivity).
  - unfold PawnMove.move, Board.getPieces, push. rewrite B. cbn [negb].
    erewrite forEach_ext.
    2:{ intros s x _. rewrite (isEmpty_inBounds _ _ B). cbn [bind].
        rewrite pushIf_app. reflexivity. }
    rewrite forEach_flat_map. cbn [bind app]. do 2 f_equal.
    + apply flat_map_ext. intros p. unfold keeps. cbn [position].
      rewrite (isEmpty_inBounds _ _ B). cbn [holds].
      destruct (stays p newPosition (| col, rw |)); [|reflexivity].
      now destruct (PawnMove.takesEnPassant _ _ _ p).
    + destruct c; reflexivity.
  - rewrite (KingMove_inBounds _ _ _ _ _ _ B). reflexivity.
Qed.

Lemma move_off_board piece newPosition board :
  Coord.inBounds newPosition = false ->
  move piece newPosition board = Throw MovingPieceOutOfBounds.
Proof.
  intros B. destruct piece; cbn [move];
    unfold relocate, PawnMove.move, KingMove.move; now rewrite B.
Qed.

Lemma move_inBounds_of_returns piece newPosition board after :
  move piece newPosition board = Ret after ->
  Coord.inBounds newPosition = true
  /\ after = flat_map (keeps piece newPosition board) board
             ++ [arrival piece newPosition].
Proof.
  intros M. destruct (Coord.inBounds newPosition) eqn:B.
  - rewrite (move_closed_form _ _ _ B) in M. injection M as <-. now split.
  - rewrite (move_off_board _ _ _ B) in M. discriminate.
Qed.

(** [move] throws "Moving piece out of bounds" exactly when the destination
    is off the board, whatever the class of the piece, and returns a board in
    every other case: it never fails on a destination of the board. *)
Theorem move_fails_exactly_off_board
  (piece : Piece) (newPosition : Coordinate) (board : Board) :
  (move piece newPosition board = Throw MovingPieceOutOfBounds
   <-> Coord.inBounds newPosition = false)
  /\ returns (move piece newPosition board) = Coord.inBounds newPosition.
Proof.
  destruct (Coord.inBounds newPosition) eqn:B.
  - rewrite (move_closed_form _ _ _ B). split; [split; discriminate | reflexivity].
  - rewrite (move_off_board _ _ _ B). split; [split; reflexivity | reflexivity].
Qed.

Lemma position_arrival piece newPosition :
  position (arrival piece newPosition) = newPosition.
Proof.
  destruct newPosition as [c r].
  destruct piece as [[|] ? ? ? ?| | | | |]; cbn [arrival column row];
    try reflexivity.
  - now destruct (r =? 0).
  - now destruct (r =? 7).
Qed.

Lemma color_arrival piece newPosition :
  color (arrival piece newPosition) = color piece.
Proof.
  destruct piece as [[|] ? ? ? ?| | | | |]; cbn [arrival]; try reflexivity.
  - now destruct (row newPosition =? 0).
  - now destruct (row newPosition =? 7).
Qed.

Lemma clearEnPassant_other piece :
  isPawn piece = false -> clearEnPassant piece = piece.
Proof. now destruct piece. Qed.

(** Whatever the loop pushes for an old piece is that piece with its
    en-passant flag cleared, or the rook of a castle rebuilt on the landing
    square. *)
Lemma keeps_cases piece newPosition board oldPiece q :
  In q (keeps piece newPosition board oldPiece) ->
  stays oldPiece newPosition (position piece) = true
  /\ (q = clearEnPassant oldPiece
      \/ (isRook oldPiece = true /\ isRook q = true
          /\ color q = color oldPiece
          /\ rookLanding piece newPosition = Some (position q))).
Proof.
  unfold keeps.
  destruct (stays oldPiece newPosition (position piece)) eqn:St; [|intros []].
  intros H. split; [reflexivity|].
  destruct piece as [c col rw f e|c col rw|c col rw f|c col rw|c col rw f|c col rw];
    try (destruct H as [<- | []]; now left).
  - destruct (PawnMove.takesEnPassant _ _ _ _); [destruct H|].
    destruct H as [<- | []]. now left.
  - destruct oldPiece as [oc ocol orw ofm oe|oc ocol orw|oc ocol orw ofm
                         |oc ocol orw|oc ocol orw ofm|oc ocol orw];
      cbn [KingMove.pushed] in H;
      try (destruct H as [<- | []]; now left).
    cbn [rookLanding].
    destruct f; cbn [andb] in H |- *.
    + destruct (Coord.equals newPosition (| 2, rw |)).
      * destruct (Coord.equals _ (| 0, rw |)); [|destruct H].
        destruct H as [<- | []]. right. repeat split.
      * destruct (Coord.equals newPosition (| 6, rw |)).
        -- destruct (Coord.equals _ (| 7, rw |)); [|destruct H].
           destruct H as [<- | []]. right. repeat split.
        -- destruct H as [<- | []]. now left.
    + destruct H as [<- | []]. now left.
Qed.

Lemma rookLanding_newPosition piece newPosition landing :
  rookLanding piece newPosition = Some landing -> landing <> newPosition.
Proof.
  destruct piece as [| | | |c col rw [|]|]; try discriminate. cbn [rookLanding].
  destruct (Coord.equals newPosition (| 2, rw |)) eqn:E2.
  - apply equals_spec in E2. subst. intros [= <-] [=].
  - destruct (Coord.equals newPosition (| 6, rw |)) eqn:E6; [|discriminate].
    apply equals_spec in E6. subst. intros [= <-] [=].
Qed.

Lemma keeps_off_destination piece newPosition board oldPiece q :
  In q (keeps piece newPosition board oldPiece) -> position q <> newPosition.
Proof.
  intros H. destruct (keeps_cases _ _ _ _ _ H) as [St [-> | (_ & _ & _ & L)]].
  - rewrite position_clearEnPassant. now apply (stays_newPosition _ _ _ St).
  - now apply (rookLanding_newPosition _ _ _ L).
Qed.

Lemma firstAt_app_skip before after coordinate :
  (forall q, In q before -> position q <> coordinate) ->
  Board.firstAt (before ++ after) coordinate = Board.firstAt after coordinate.
Proof.
  induction before as [|p rest IH]; intros H; simpl; [reflexivity|].
  assert (E : Coord.equals (position p) coordinate = false)
    by (apply equals_false, H; now left).
  rewrite E. apply IH. intros; apply H; now right.
Qed.

(** After a move the destination holds the piece the class builds there and
    nothing else: the lookup on the destination returns it, it has the
    mover's color, and no other piece of the new board stands on the
    destination (a captured piece is gone). *)
Theorem move_destination
  (piece : Piece) (newPosition : Coordinate) (board after : Board) :
  move piece newPosition board = Ret after ->
  Board.getPieceAt after newPosition = Ret (arrival piece newPosition)
  /\ color (arrival piece newPosition) = color piece
  /\ forall q, In q after -> position q = newPosition ->
       q = arrival piece newPosition.
Proof.
  intros M. destruct (move_inBounds_of_returns _ _ _ _ M) as [B ->].
  assert (Off : forall q, In q (flat_map (keeps piece newPosition board) board) ->
                          position q <> newPosition).
  { intros q Hq. apply in_flat_map in Hq. destruct Hq as (p & _ & Hq).
    now apply (keeps_off_destination _ _ _ _ _ Hq). }
  split; [|split].
  - unfold Board.getPieceAt. rewrite B, (firstAt_app_skip _ _ _ Off). simpl.
    now rewrite position_arrival, (proj2 (equals_spec _ _) eq_refl).
  - apply color_arrival.
  - intros q Hq Hp. apply in_app_iff in Hq. destruct Hq as [Hq | [<- | []]].
    + now apply Off in Hq.
    + reflexivity.
Qed.

Lemma enPassant_clearEnPassant piece : enPassant (clearEnPassant piece) = false.
Proof. now destruct piece. Qed.

Lemma enPassant_arrival piece newPosition :
  enPassant (arrival piece newPosition) = true ->
  isPawn piece = true /\ doubleStep piece newPosition = true.
Proof.
  destruct piece as [[|] col rw f e| | | | |]; cbn [arrival doubleStep];
    try discriminate.
  - destruct (row newPosition =? 0); [discriminate|]. cbn [enPassant]. auto.
  - destruct (row newPosition =? 7); [discriminate|]. cbn [enPassant]. auto.
Qed.

(** The en-passant flag lasts one move: on the board returned by any move,
    of any class, the only piece that can hold the flag is the piece just
    moved, and it holds it only if it is a pawn that went from its home row
    to the row two squares ahead. *)
Theorem move_clears_enPassant
  (piece : Piece) (newPosition : Coordinate) (board after : Board) (q : Piece) :
  move piece newPosition board = Ret after ->
  In q after ->
  enPassant q = true ->
  q = arrival piece newPosition
  /\ isPawn piece = true
  /\ doubleStep piece newPosition = true.
Proof.
  intros M Hq E. destruct (move_inBounds_of_returns _ _ _ _ M) as [B ->].
  apply in_app_iff in Hq. destruct Hq as [Hq | [<- | []]].
  - exfalso. apply in_flat_map in Hq. destruct Hq as (p & _ & Hq).
    destruct (keeps_cases _ _ _ _ _ Hq) as [_ [-> | (_ & R & _)]].
    + now rewrite enPassant_clearEnPassant in E.
    + destruct q; discriminate.
  - split; [reflexivity|]. now apply enPassant_arrival.
Qed.

Lemma keeps_length piece newPosition board oldPiece :
  (length (keeps piece newPosition board oldPiece) <= 1)%nat.
Proof.
  unfold keeps. destruct (stays _ _ _); [|simpl; lia].
  destruct piece as [c col rw f e|c col rw|c col rw f|c col rw|c col rw f|c col rw];
    try (simpl; lia).
  - destruct (PawnMove.takesEnPassant _ _ _ _); simpl; lia.
  - destruct oldPiece; cbn [KingMove.pushed]; try (simpl; lia).
    destruct (f && _); [|destruct (f && _)];
      try destruct (Coord.equals _ _); simpl; lia.
Qed.

Lemma flat_map_length_le {A B : Type} (f : A -> list B) (l : list A) :
  (forall x, length (f x) <= 1)%nat ->
  (length (flat_map f l) <= length l)%nat
  /\ (forall x, In x l -> f x = [] -> (length (flat_map f l) < length l)%nat).
Proof.
  intros H. induction l as [|a rest [IH1 IH2]]; simpl.
  - split; [lia | intros ? []].
  - rewrite length_app. specialize (H a) as Ha. split; [lia|].
    intros x [<- | Hx] E.
    + rewrite E. simpl. lia.
    + specialize (IH2 x Hx E). lia.
Qed.

Lemma stays_self piece newPosition :
  stays piece newPosition (position piece) = false.
Proof.
  unfold stays. rewrite (proj2 (equals_spec _ _) eq_refl). simpl.
  apply andb_false_r.
Qed.

(** A move never makes a piece appear: when the mover is a piece of the
    board, the board returned has at most as many pieces as the input board
    (the mover is rebuilt, everything else is kept, taken or dropped). *)
Theorem move_never_adds_a_piece
  (piece : Piece) (newPosition : Coordinate) (board after : Board) :
  move piece newPosition board = Ret after ->
  In piece board ->
  (length after <= length board)%nat.
Proof.
  intros M Hin. destruct (move_inBounds_of_returns _ _ _ _ M) as [B ->].
  rewrite length_app. simpl.
  destruct (flat_map_length_le (keeps piece newPosition board) board
              (keeps_length piece newPosition board)) as [_ H].
  specialize (H piece Hin). unfold keeps at 1 in H. rewrite stays_self in H.
  specialize (H eq_refl). lia.
Qed.

Lemma stays_iff oldPiece newPosition thisPosition :
  stays oldPiece newPosition thisPosition = true
  <-> position oldPiece <> newPosition /\ position oldPiece <> thisPosition.
Proof.
  unfold stays. rewrite andb_true_iff, !negb_true_iff, !equals_false. tauto.
Qed.

Lemma keeps_bystander piece newPosition board p :
  stays p newPosition (position piece) = true ->
  isPawn piece = false \/ enPassant p = false ->
  rookLanding piece newPosition = None \/ isRook p = false ->
  In (clearEnPassant p) (keeps piece newPosition board p).
Proof.
  intros St Hep Hrook. unfold keeps. rewrite St.
  destruct piece as [c col rw f e|c col rw|c col rw f|c col rw|c col rw f|c col rw];
    try (now left).
  - destruct Hep as [[=] | Hep].
    assert (T : PawnMove.takesEnPassant c newPosition
                  (holds (Board.isEmpty board newPosition)) p = false).
    { unfold PawnMove.takesEnPassant. rewrite Hep.
      now rewrite andb_false_r. }
    rewrite T. now left.
  - destruct p as [oc ocol orw ofm oe|oc ocol orw|oc ocol orw ofm
                  |oc ocol orw|oc ocol orw ofm|oc ocol orw];
      cbn [KingMove.pushed]; try (now left).
    destruct Hrook as [L | [=]]. cbn [rookLanding] in L.
    destruct f; cbn [andb]; [|now left].
    destruct (Coord.equals newPosition (| 2, rw |)); [discriminate|].
    destruct (Coord.equals newPosition (| 6, rw |)); [discriminate|].
    now left.
Qed.

(** The frame of a move.  A piece of the input board that stands neither on
    the destination nor on the mover's square is on the board returned, with
    its en-passant flag cleared and nothing else changed, provided it is not
    a pawn taken en passant (the mover is no pawn, or the piece holds no
    en-passant flag) and it is not a rook on a castling move (the move is no
    castle, or the piece is no rook). *)
Theorem move_keeps_bystanders
  (piece : Piece) (newPosition : Coordinate) (board after : Board) (p : Piece) :
  move piece newPosition board = Ret after ->
  In p board ->
  position p <> newPosition ->
  position p <> position piece ->
  isPawn piece = false \/ enPassant p = false ->
  rookLanding piece newPosition = None \/ isRook p = false ->
  In (clearEnPassant p) after.
Proof.
  intros M Hin Hn Ho Hep Hrook.
  destruct (move_inBounds_of_returns _ _ _ _ M) as [B ->].
  apply in_app_iff. left. apply in_flat_map. exists p. split; [exact Hin|].
  apply keeps_bystander; auto. now apply stays_iff.
Qed.

(** Nothing but the mover is new on the board returned by a move: every
    other piece is a piece of the input board that stood neither on the
    destination nor on the mover's square, with its en-passant flag cleared,
    or, on a castling move, a rook of the input board rebuilt with its color
    on the landing square. *)
Theorem move_adds_nothing_else
  (piece : Piece) (newPosition : Coordinate) (board after : Board) (q : Piece) :
  move piece newPosition board = Ret after ->
  In q after ->
  q = arrival piece newPosition
  \/ exists p,
       In p board
       /\ position p <> newPosition
       /\ position p <> position piece
       /\ (q = clearEnPassant p
           \/ (isRook p = true /\ isRook q = true /\ color q = color p
               /\ rookLanding piece newPosition = Some (position q))).
Proof.
  intros M Hq. destruct (move_inBounds_of_returns _ _ _ _ M) as [B ->].
  apply in_app_iff in Hq. destruct Hq as [Hq | [<- | []]]; [right | now left].
  apply in_flat_map in Hq. destruct Hq as (p & Hp & Hq).
  destruct (keeps_cases _ _ _ _ _ Hq) as [St H].
  apply stays_iff in St. exists p. tauto.
Qed.

Lemma onePiece_same_square board p q :
  onePiecePerSquare board = true ->
  In p board -> In q board -> position p = position q -> p = q.
Proof.
  intros One. apply onePiecePerSquare_NoDup in One.
  induction board as [|a rest IH]; simpl; [intros []|].
  inversion One as [|? ? Hn ND]; subst.
  intros [<- | Hp] [<- | Hq] E; auto.
  - exfalso. apply Hn. rewrite E. now apply in_map.
  - exfalso. apply Hn. rewrite <- E. now apply in_map.
Qed.

(** Taking en passant: when a pawn moves to an empty square and a pawn
    holding the en-passant flag stands one row behind that square (seen from
    the mover), the square of that pawn is empty on the board returned, on
    any input board with one piece per square.  The code asks neither for a
    diagonal move nor for a pawn of the other color. *)
Theorem enPassant_capture_empties_square
  (thisColor : Color) (col rw : Z) (first flag : bool)
  (newPosition : Coordinate) (board after : Board) (p q : Piece) :
  move (Pawn thisColor col rw first flag) newPosition board = Ret after ->
  onePiecePerSquare board = true ->
  Board.isEmpty board newPosition = Ret true ->
  In p board ->
  isPawn p = true ->
  enPassant p = true ->
  position p = passedSquare thisColor newPosition ->
  In q after ->
  position q <> position p.
Proof.
  intros M One Empty Hp Pp Ep Sq Hq.
  destruct (move_inBounds_of_returns _ _ _ _ M) as [B ->].
  apply in_app_iff in Hq. destruct Hq as [Hq | [<- | []]].
  - apply in_flat_map in Hq. destruct Hq as (p' & Hp' & Hq).
    destruct (keeps_cases _ _ _ _ _ Hq) as [St [-> | (_ & _ & _ & [=])]].
    rewrite position_clearEnPassant. intros E.
    assert (p' = p) by (now apply (onePiece_same_square board)). subst p'.
    unfold keeps in Hq. rewrite St, Empty in Hq. cbn [holds] in Hq.
    assert (T : PawnMove.takesEnPassant thisColor newPosition true p = true).
    { unfold PawnMove.takesEnPassant. rewrite Pp, Ep, Sq.
      destruct thisColor; cbn [passedSquare position column row andb];
        now rewrite !Z.eqb_refl. }
    rewrite T in Hq. destruct Hq.
  - rewrite position_arrival, Sq. destruct newPosition as [c r].
    destruct thisColor; cbn [passedSquare column row]; intros [=]; lia.
Qed.

(** A move leaves the mover's square empty: when the destination is another
    square, no piece of the board returned stands on the square the mover
    came from, unless the move is a castle that lands the rook there. *)
Theorem move_vacates_origin
  (piece : Piece) (newPosition : Coordinate) (board after : Board) (q : Piece) :
  move piece newPosition board = Ret after ->
  newPosition <> position piece ->
  rookLanding piece newPosition <> Some (position piece) ->
  In q after ->
  position q <> position piece.
Proof.
  intros M Hn Hl Hq.
  destruct (move_inBounds_of_returns _ _ _ _ M) as [B ->].
  apply in_app_iff in Hq. destruct Hq as [Hq | [<- | []]].
  - apply in_flat_map in Hq. destruct Hq as (p & Hp & Hq).
    destruct (keeps_cases _ _ _ _ _ Hq) as [St [-> | (_ & _ & _ & L)]].
    + rewrite position_clearEnPassant. now apply stays_iff in St.
    + intros E. apply Hl. now rewrite L, E.
  - now rewrite position_arrival.
Qed.

(* ================================================================== *)
(** ** Open moves of the king and the knight *)

Lemma forEach_union {A B : Type} (xs : list A) (f : list B -> A -> outcome (list B))
  (P : A -> B -> Prop) :
  (forall s x r, In x xs -> f s x = Ret r ->
     forall m, In m r <-> In m s \/ P x m) ->
  forall s r, forEach xs f s = Ret r ->
    forall m, In m r <-> In m s \/ exists x, In x xs /\ P x m.
Proof.
  induction xs as [|x xs IH]; intros H s r; simpl.
  - intros [= <-] m. split; [now left|]. intros [Hm | (? & [] & _)]. exact Hm.
  - destruct (f s x) as [s'| |] eqn:E; simpl; try discriminate.
    intros Hr m.
    rewrite (IH (fun s x r Hx => H s x r (or_intror Hx)) _ _ Hr m).
    rewrite (H s x s' (or_introl eq_refl) E m). split.
    + intros [[Hm | Hm] | (y & Hy & Hm)]; auto.
      * right. exists x. auto.
      * right. exists y. auto.
    + intros [Hm | (y & [<- | Hy] & Hm)]; auto.
      right. exists y. auto.
Qed.

Lemma getPieceAt_firstAt board square piece :
  Coord.inBounds square = true ->
  Board.firstAt board square = Some piece ->
  Board.getPieceAt board square = Ret piece.
Proof. intros B F. unfold Board.getPieceAt. now rewrite B, F. Qed.

Lemma step_spec board thisColor from openMoves direction :
  exists result,
    Stepper.step board thisColor from openMoves direction = Ret result
    /\ forall m, In m result <->
         In m openMoves
         \/ (m = shift from direction /\ landable board thisColor m = true).
Proof.
  unfold Stepper.step, landable, friendlyAt.
  destruct (Coord.inBounds (shift from direction)) eqn:B.
  - rewrite (isEmpty_inBounds _ _ B). unfold Board.getPieceAt. rewrite B.
    destruct (Board.firstAt board (shift from direction)) as [other|] eqn:F;
      cbn [bind negb]; eexists; (split; [reflexivity|]); intros m;
      rewrite in_pushIf.
    + split.
      * intros [Hm | [Hc ->]]; [now left | right].
        split; [reflexivity|]. now rewrite B, F, Hc.
      * intros [Hm | [-> Hl]]; [now left | right].
        rewrite B, F in Hl. now split.
    + split.
      * intros [Hm | [_ ->]]; [now left | right].
        split; [reflexivity|]. now rewrite B, F.
      * intros [Hm | [-> _]]; [now left | right]. now split.
  - exists openMoves. split; [reflexivity|]. intros m. split; [now left|].
    intros [Hm | [-> Hl]]; [exact Hm|]. now rewrite B in Hl.
Qed.

Lemma Stepper_spec directions thisColor col rw board :
  exists result,
    Stepper.getOpenMoves directions thisColor col rw board = Ret result
    /\ forall m, In m result <->
         exists d, In d directions
                   /\ m = shift (| col, rw |) d
                   /\ landable board thisColor m = true.
Proof.
  pose proof (Stepper_returns directions thisColor col rw board) as R.
  destruct (Stepper.getOpenMoves directions thisColor col rw board)
    as [result| |] eqn:E; try discriminate.
  exists result. split; [reflexivity|]. intros m.
  unfold Stepper.getOpenMoves in E.
  rewrite (forEach_union directions _
             (fun d m => m = shift (| col, rw |) d
                         /\ landable board thisColor m = true)
             ltac:(intros s x r _ Hs;
                   destruct (step_spec board thisColor (| col, rw |) s x)
                     as (r' & Hr' & Hspec);
                   rewrite Hs in Hr'; injection Hr' as <-; exact Hspec)
             _ _ E m).
  split; [intros [[] | H]; exact H | now right].
Qed.

(** A knight, and a king asked for its moves without castling, is offered
    exactly the squares one jump (one step) away that are on the board and
    not held by a piece of its own color; the call never fails. *)
Theorem hop_moves_characterised (piece : Piece) (board : Board) :
  isKing piece || isKnight piece = true ->
  exists openMoves,
    getOpenMoves piece board false = Ret openMoves
    /\ forall m, In m openMoves <->
         exists d, In d (directionsOf piece)
                   /\ m = shift (position piece) d
                   /\ landable board (color piece) m = true.
Proof.
  intros K. unfold getOpenMoves, fuelBound. rewrite getOpenMovesFuel_unfold.
  destruct piece as [c col rw f e|c col rw|c col rw f|c col rw|c col rw f|c col rw];
    try discriminate.
  - rewrite kingGetOpenMoves_attack. apply Stepper_spec.
  - apply Stepper_spec.
Qed.

(* ================================================================== *)
(** ** Open moves of the sliding pieces *)

Lemma along_0 p d : along p d 0 = p.
Proof. destruct p as [c r]. unfold along. cbn [column row]. f_equal; lia. Qed.

Lemma along_S p d j : along p d (S j) = along (shift p d) d j.
Proof.
  unfold along, shift. cbn [column row]. rewrite Nat2Z.inj_succ. f_equal; lia.
Qed.

Lemma isEmpty_firstAt_None board square :
  Coord.inBounds square = true ->
  Board.firstAt board square = None ->
  Board.isEmpty board square = Ret true.
Proof. intros B F. unfold Board.isEmpty. now rewrite B, F. Qed.

Lemma isEmpty_true_firstAt board square :
  Board.isEmpty board square = Ret true ->
  Coord.inBounds square = true /\ Board.firstAt board square = None.
Proof.
  unfold Board.isEmpty. destruct (Coord.inBounds square); [|discriminate].
  now destruct (Board.firstAt board square).
Qed.

(** What one ray contributes: the squares [j] steps further that are
    reached over empty squares only and are on the board, empty or held by
    the other color. *)
Lemma ray_spec board thisColor d :
  forall fuel p acc l,
    Slider.ray fuel board thisColor d p acc = Ret l ->
    forall m, In m l <->
      In m acc
      \/ exists j,
           m = along p d j
           /\ (forall i, (i < j)%nat -> Board.isEmpty board (along p d i) = Ret true)
           /\ landable board thisColor m = true.
Proof.
  induction fuel as [|fuel IH]; intros p acc l; [discriminate|].
  rewrite ray_unfold. unfold Slider.afterLoop.
  destruct (Coord.inBounds p) eqn:B.
  - rewrite (isEmpty_inBounds _ _ B).
    destruct (Board.firstAt board p) as [other|] eqn:F; cbn [bind].
    + rewrite (getPieceAt_firstAt _ _ _ B F). cbn [bind].
      intros [= <-] m. rewrite in_pushIf. split.
      * intros [Hm | [Hc ->]]; [now left | right].
        exists 0%nat. rewrite along_0. split; [reflexivity|].
        split; [intros i Hi; lia|].
        unfold landable, friendlyAt. now rewrite B, F.
      * intros [Hm | (j & -> & Hclear & Hl)]; [now left|].
        destruct j as [|j].
        -- right. rewrite along_0 in *. split; [|reflexivity].
           unfold landable, friendlyAt in Hl. now rewrite B, F in Hl.
        -- specialize (Hclear 0%nat ltac:(lia)). rewrite along_0 in Hclear.
           apply isEmpty_true_firstAt in Hclear. destruct Hclear; congruence.
    + intros Hr m. rewrite (IH _ _ _ Hr m). unfold push. rewrite in_app_iff.
      split.
      * intros [[Hm | [<- | []]] | (j & -> & Hclear & Hl)].
        -- now left.
        -- right. exists 0%nat. rewrite along_0. split; [reflexivity|].
           split; [intros i Hi; lia|].
           unfold landable, friendlyAt. now rewrite B, F.
        -- right. exists (S j). rewrite along_S. split; [reflexivity|].
           split; [|exact Hl]. intros [|i] Hi.
           ++ rewrite along_0. now apply isEmpty_firstAt_None.
           ++ rewrite along_S. apply Hclear. lia.
      * intros [Hm | (j & -> & Hclear & Hl)]; [now left; left|].
        destruct j as [|j].
        -- left. right. rewrite along_0. now left.
        -- right. exists j. rewrite <- along_S. split; [reflexivity|].
           split; [|exact Hl]. intros i Hi. rewrite <- along_S.
           apply Hclear. lia.
  - intros [= <-] m. split; [now left|].
    intros [Hm | (j & -> & Hclear & Hl)]; [exact Hm|]. exfalso.
    destruct j as [|j].
    + rewrite along_0 in Hl. unfold landable in Hl. now rewrite B in Hl.
    + specialize (Hclear 0%nat ltac:(lia)). rewrite along_0 in Hclear.
      apply isEmpty_true_firstAt in Hclear. destruct Hclear; congruence.
Qed.

Lemma Slider_spec fuel directions thisColor col rw board l :
  Slider.getOpenMoves fuel directions thisColor col rw board = Ret l ->
  forall m, In m l <->
    exists d j,
      In d directions
      /\ (1 <= j)%nat
      /\ m = along (| col, rw |) d j
      /\ (forall i, (1 <= i < j)%nat ->
            Board.isEmpty board (along (| col, rw |) d i) = Ret true)
      /\ landable board thisColor m = true.
Proof.
  unfold Slider.getOpenMoves. intros E m.
  rewrite (forEach_union directions _
             (fun d m => exists j,
                  m = along (shift (| col, rw |) d) d j
                  /\ (forall i, (i < j)%nat ->
                        Board.isEmpty board (along (shift (| col, rw |) d) d i)
                        = Ret true)
                  /\ landable board thisColor m = true)
             ltac:(intros s x r _ Hs; exact (ray_spec board thisColor x fuel _ s r Hs))
             _ _ E m).
  split.
  - intros [[] | (d & Hd & j & -> & Hclear & Hl)].
    exists d, (S j). split; [exact Hd|]. split; [lia|].
    rewrite along_S. split; [reflexivity|]. split; [|exact Hl].
    intros [|i] Hi; [lia|]. rewrite along_S. apply Hclear. lia.
  - intros (d & j & Hd & Hj & -> & Hclear & Hl). right. exists d.
    split; [exact Hd|]. destruct j as [|j]; [lia|]. exists j.
    rewrite <- along_S. split; [reflexivity|]. split; [|exact Hl].
    intros i Hi. rewrite <- along_S. apply Hclear. lia.
Qed.

Lemma slider_castle_irrelevant piece board castle :
  isSlider piece = true ->
  getOpenMoves piece board castle = getOpenMoves piece board false.
Proof. now destruct piece. Qed.

(** A bishop, rook or queen is offered exactly the squares that lie some
    number of steps away in one of its directions, with every square in
    between on the board and empty, and that are themselves on the board
    and empty or held by the other color: it never jumps over a piece, never
    leaves the board and never takes its own color.  The call never fails. *)
Theorem slider_moves_characterised (piece : Piece) (board : Board) (castle : bool) :
  isSlider piece = true ->
  exists openMoves,
    getOpenMoves piece board castle = Ret openMoves
    /\ forall m, In m openMoves <->
         exists d j,
           In d (directionsOf piece)
           /\ (1 <= j)%nat
           /\ m = along (position piece) d j
           /\ (forall i, (1 <= i < j)%nat ->
                 Board.isEmpty board (along (position piece) d i) = Ret true)
           /\ landable board (color piece) m = true.
Proof.
  intros S. rewrite (slider_castle_irrelevant _ _ _ S).
  pose proof (attack_moves_return piece board) as R.
  destruct (getOpenMoves piece board false) as [openMoves| |] eqn:E;
    try (destruct piece; discriminate (R eq_refl) || discriminate).
  exists openMoves. split; [reflexivity|].
  unfold getOpenMoves, fuelBound in E. rewrite getOpenMovesFuel_unfold in E.
  destruct piece as [c col rw f e|c col rw|c col rw f|c col rw|c col rw f|c col rw];
    try discriminate; exact (Slider_spec _ _ _ _ _ _ _ E).
Qed.

(* ================================================================== *)
(** ** Open moves of a pawn *)

Lemma Color_eqb_sym a b : Color_eqb a b = Color_eqb b a.
Proof. now destruct a, b. Qed.

Lemma capture_spec board thisColor target openMoves :
  PawnImpl.capture board thisColor target openMoves
  = Ret (pushIf (capturable board thisColor target) openMoves target).
Proof.
  unfold PawnImpl.capture, capturable, hostileAt.
  destruct (Coord.inBounds target) eqn:B; [|reflexivity].
  rewrite (isEmpty_inBounds _ _ B). unfold Board.getPieceAt. rewrite B.
  destruct (Board.firstAt board target) as [other|]; cbn; [|reflexivity].
  now rewrite Color_eqb_sym.
Qed.

Lemma passing_spec board thisColor horizontal target openMoves :
  PawnImpl.passing board thisColor horizontal target openMoves
  = Ret (pushIf (passable board thisColor horizontal) openMoves target).
Proof.
  unfold PawnImpl.passing, passable.
  destruct (Coord.inBounds horizontal) eqn:B; [|reflexivity].
  rewrite (isEmpty_inBounds _ _ B). unfold Board.getPieceAt. rewrite B.
  destruct (Board.firstAt board horizontal) as [other|]; cbn; [|reflexivity].
  destruct (Color_eqb thisColor (color other)); cbn; [reflexivity|].
  now destruct (isPawn other).
Qed.

Lemma forward_step board forward :
  (if Coord.inBounds forward
   then empty <- Board.isEmpty board forward ;;
        Ret (pushIf empty (@nil Coordinate) forward)
   else Ret [])
  = Ret (pushIf (holds (Board.isEmpty board forward)) [] forward).
Proof.
  unfold Board.isEmpty. destruct (Coord.inBounds forward); [|reflexivity].
  now destruct (Board.firstAt board forward).
Qed.

(** The two forward steps of [Pawn.getOpenMoves], before the captures. *)
Lemma pawn_forward_steps thisColor col rw first board :
  let forward := forwardOf thisColor col rw in
  let doubleForward := doubleForwardOf thisColor col rw in
  PawnImpl.getOpenMoves thisColor col rw first board
  = (openMoves <-
       (if first
        then e1 <- Board.isEmpty board forward ;;
             if e1
             then e2 <- Board.isEmpty board doubleForward ;;
                  Ret (pushIf e2 (pushIf (holds (Board.isEmpty board forward)) [] forward)
                         doubleForward)
             else Ret (pushIf (holds (Board.isEmpty board forward)) [] forward)
        else Ret (pushIf (holds (Board.isEmpty board forward)) [] forward)) ;;
     Ret (pushIf (passable board thisColor (| col + 1, rw |))
            (pushIf (capturable board thisColor (rightOf thisColor col rw))
               (pushIf (passable board thisColor (| col - 1, rw |))
                  (pushIf (capturable board thisColor (leftOf thisColor col rw))
                     openMoves (leftOf thisColor col rw))
                  (leftOf thisColor col rw))
               (rightOf thisColor col rw))
            (rightOf thisColor col rw))).
Proof.
  cbv zeta. unfold PawnImpl.getOpenMoves, forwardOf, doubleForwardOf, leftOf, rightOf.
  destruct thisColor; rewrite forward_step; cbn [bind];
    (destruct first; cbn [bind];
     [destruct (Board.isEmpty board _) as [[|]| |]; cbn [bind holds];
      try reflexivity;
      try (destruct (Board.isEmpty board _) as [e2| |]; cbn [bind];
           try reflexivity)|]);
    rewrite capture_spec; cbn [bind]; rewrite passing_spec; cbn [bind];
    rewrite capture_spec; cbn [bind]; rewrite passing_spec; reflexivity.
Qed.

Lemma PawnImpl_outcome thisColor col rw (first : bool) board :
  returns (PawnImpl.getOpenMoves thisColor col rw first board)
  = negb (first
          && (negb (Coord.inBounds (forwardOf thisColor col rw))
              || holds (Board.isEmpty board (forwardOf thisColor col rw))
                 && negb (Coord.inBounds (doubleForwardOf thisColor col rw))))
  /\ forall e,
       PawnImpl.getOpenMoves thisColor col rw first board = Throw e ->
       e = CoordinateOutOfBounds.
Proof.
  rewrite pawn_forward_steps. cbv zeta. unfold Board.isEmpty.
  destruct first; cbn [andb negb];
    [|split; [reflexivity | intros e [=]]].
  destruct (Coord.inBounds (forwardOf thisColor col rw));
    [|split; [reflexivity | now intros e [= <-]]].
  destruct (Board.firstAt board (forwardOf thisColor col rw));
    cbn [bind holds negb orb andb];
    [split; [reflexivity | intros e [=]]|].
  destruct (Coord.inBounds (doubleForwardOf thisColor col rw));
    [|split; [reflexivity | now intros e [= <-]]].
  destruct (Board.firstAt board (doubleForwardOf thisColor col rw));
    split; try reflexivity; intros e [=].
Qed.

(** [getOpenMoves] of a pawn fails in one situation only, and only with
    "Coordinate out of bounds": the pawn holds its [firstMove] flag and the
    square ahead is off the board, or the square ahead is empty and the
    square two ahead is off the board.  A pawn without the flag never
    fails. *)
Theorem pawn_open_moves_fail_exactly
  (thisColor : Color) (col rw : Z) (first flag : bool) (board : Board)
  (castle : bool) :
  returns (getOpenMoves (Pawn thisColor col rw first flag) board castle)
  = negb (first
          && (negb (Coord.inBounds (forwardOf thisColor col rw))
              || holds (Board.isEmpty board (forwardOf thisColor col rw))
                 && negb (Coord.inBounds (doubleForwardOf thisColor col rw))))
  /\ forall e,
       getOpenMoves (Pawn thisColor col rw first flag) board castle = Throw e ->
       e = CoordinateOutOfBounds.
Proof.
  unfold getOpenMoves, fuelBound. rewrite getOpenMovesFuel_unfold.
  apply PawnImpl_outcome.
Qed.

Lemma pawn_forward_spec board (first : bool) forward doubleForward acc :
  (if first
   then e1 <- Board.isEmpty board forward ;;
        if e1
        then e2 <- Board.isEmpty board doubleForward ;;
             Ret (pushIf e2 (pushIf (holds (Board.isEmpty board forward)) [] forward)
                    doubleForward)
        else Ret (pushIf (holds (Board.isEmpty board forward)) [] forward)
   else Ret (pushIf (holds (Board.isEmpty board forward)) [] forward)) = Ret acc ->
  forall m, In m acc <->
    (m = forward /\ Board.isEmpty board forward = Ret true)
    \/ (m = doubleForward /\ first = true
        /\ Board.isEmpty board forward = Ret true
        /\ Board.isEmpty board doubleForward = Ret true).
Proof.
  destruct first;
    destruct (Board.isEmpty board forward) as [[|]| |]; cbn [bind holds];
    try destruct (Board.isEmpty board doubleForward) as [[|]| |]; cbn [bind];
    try discriminate; intros [= <-] m; cbn [pushIf push app In];
    intuition (congruence || discriminate).
Qed.

Lemma PawnImpl_spec thisColor col rw (first : bool) board openMoves m :
  PawnImpl.getOpenMoves thisColor col rw first board = Ret openMoves ->
  (In m openMoves <->
   (m = forwardOf thisColor col rw /\ Board.isEmpty board m = Ret true)
   \/ (m = doubleForwardOf thisColor col rw /\ first = true
       /\ Board.isEmpty board (forwardOf thisColor col rw) = Ret true
       /\ Board.isEmpty board m = Ret true)
   \/ (m = leftOf thisColor col rw
       /\ (capturable board thisColor m = true
           \/ passable board thisColor (| col - 1, rw |) = true))
   \/ (m = rightOf thisColor col rw
       /\ (capturable board thisColor m = true
           \/ passable board thisColor (| col + 1, rw |) = true))).
Proof.
  rewrite pawn_forward_steps. cbv zeta.
  match goal with
  | |- (x <- ?step ;; _) = _ -> _ => destruct step as [acc| |] eqn:E
  end; cbn [bind]; try discriminate.
  intros [= <-]. rewrite !in_pushIf.
  rewrite (pawn_forward_spec _ _ _ _ _ E m).
  split.
  - intros [[[[H | [H ->]] | [H ->]] | [H ->]] | [H ->]]; auto 10.
    destruct H as [[-> H] | (-> & H)]; auto 10.
  - intros [[-> H] | [(-> & H) | [[-> [H | H]] | [-> [H | H]]]]]; auto 10.
Qed.

(** The squares a pawn is offered, whenever the call returns: the square
    ahead if it is empty; the square two ahead if the pawn holds its
    [firstMove] flag and both squares are empty; each square diagonally
    ahead if it is on the board and held by the other color, or if the piece
    beside the pawn on that side is a pawn of the other color holding the
    en-passant flag.  In the last case the diagonal square itself is not
    looked at. *)
Theorem pawn_moves_characterised
  (thisColor : Color) (col rw : Z) (first flag : bool) (board : Board)
  (castle : bool) (openMoves : list Coordinate) (m : Coordinate) :
  getOpenMoves (Pawn thisColor col rw first flag) board castle = Ret openMoves ->
  (In m openMoves <->
   (m = forwardOf thisColor col rw /\ Board.isEmpty board m = Ret true)
   \/ (m = doubleForwardOf thisColor col rw /\ first = true
       /\ Board.isEmpty board (forwardOf thisColor col rw) = Ret true
       /\ Board.isEmpty board m = Ret true)
   \/ (m = leftOf thisColor col rw
       /\ (capturable board thisColor m = true
           \/ passable board thisColor (| col - 1, rw |) = true))
   \/ (m = rightOf thisColor col rw
       /\ (capturable board thisColor m = true
           \/ passable board thisColor (| col + 1, rw |) = true))).
Proof.
  unfold getOpenMoves, fuelBound. rewrite getOpenMovesFuel_unfold.
  apply PawnImpl_spec.
Qed.

(* ================================================================== *)
(** ** What castling adds, and how [getOpenMoves] can fail *)

Section CastleSpec.

Variable inCheck' : Color -> Board -> outcome bool.

Lemma crossing_spec thisColor col rw first board columns :
  forall canCastle result,
    forEach columns (Open.crossing inCheck' thisColor col rw first board) canCastle
    = Ret result ->
    (result = true <->
     canCastle = true
     /\ forall c, In c columns -> crossable inCheck' thisColor col rw first board c).
Proof.
  unfold crossable.
  induction columns as [|c rest IH]; simpl; intros can result.
  - intros [= <-]. split; [intros ->; split; [reflexivity | intros ? []] | tauto].
  - unfold Open.crossing at 1.
    destruct (Board.isEmpty board (| c, rw |)) as [e| |] eqn:E; simpl;
      try discriminate.
    destruct (KingMove.move thisColor col rw first (| c, rw |) board)
      as [after| |] eqn:M; simpl; try discriminate.
    destruct (inCheck' thisColor after) as [checked| |] eqn:C; simpl;
      try discriminate.
    intros Hr. rewrite (IH _ _ Hr). split.
    + intros [Hcan Hrest].
      destruct checked; [discriminate|]. destruct e; [|discriminate].
      simpl in Hcan. split; [exact Hcan|].
      intros x [<- | Hx]; [|now apply Hrest].
      split; [exact E|]. now exists after.
    + intros [-> Hall]. split; [|intros x Hx; apply Hall; now right].
      destruct (Hall c (or_introl eq_refl)) as [He (after' & Ha & Hc)].
      rewrite E in He. injection He as ->.
      rewrite M in Ha. injection Ha as <-.
      rewrite C in Hc. now injection Hc as ->.
Qed.

Lemma crossing_fails thisColor col rw first board columns :
  (forall square after e,
     KingMove.move thisColor col rw first square board = Ret after ->
     inCheck' thisColor after = Throw e -> e = CoordinateOutOfBounds) ->
  forall canCastle e,
    forEach columns (Open.crossing inCheck' thisColor col rw first board) canCastle
    = Throw e ->
    e = CoordinateOutOfBounds.
Proof.
  intros Hic. induction columns as [|c rest IH]; simpl; intros can e;
    [discriminate|].
  unfold Open.crossing at 1. unfold Board.isEmpty at 1.
  destruct (Coord.inBounds (| c, rw |)) eqn:B; [|now intros [= <-]].
  pose proof (move_closed_form (King thisColor col rw first) _ board B) as M.
  cbn [move] in M. rewrite M.
  destruct (Board.firstAt board (| c, rw |)); cbn [bind];
    (destruct (inCheck' thisColor _) as [checked| |] eqn:C; cbn [bind];
     [apply IH | intros [= <-]; exact (Hic _ _ _ M C) | discriminate]).
Qed.

(** One castling block pushes nothing or the one square ([target], row) at
    the end; it pushes it exactly when the corner holds a rook with its
    [firstMove] flag and every crossed column is [crossable]. *)
Lemma castleSide_spec thisColor col rw first board corner columns target
  openMoves result :
  Open.castleSide inCheck' thisColor col rw first board corner columns target
    openMoves = Ret result ->
  (result = openMoves \/ result = openMoves ++ [(| target, rw |)])
  /\ (result = openMoves ++ [(| target, rw |)] ->
      (exists rook, Board.getPieceAt board corner = Ret rook
                    /\ isRook rook = true /\ firstMove rook = true)
      /\ forall c, In c columns -> crossable inCheck' thisColor col rw first board c).
Proof.
  assert (Nil : openMoves <> openMoves ++ [(| target, rw |)]).
  { intros E. apply (f_equal (@length _)) in E. rewrite length_app in E.
    simpl in E. lia. }
  unfold Open.castleSide.
  destruct (Board.isEmpty board corner) as [[|]| |]; cbn [bind negb];
    try discriminate; try (intros [= <-]; split; [now left | now intros E]).
  destruct (Board.getPieceAt board corner) as [rook| |]; cbn [bind];
    try discriminate.
  destruct (isRook rook) eqn:R;
    [|intros [= <-]; split; [now left | now intros E]].
  destruct (firstMove rook) eqn:F;
    [|intros [= <-]; split; [now left | now intros E]].
  destruct (forEach columns _ true) as [[|]| |] eqn:Loop; cbn [bind];
    try discriminate; intros [= <-]; cbn [pushIf push].
  - split; [now right|]. intros _. split; [now exists rook|].
    now apply (crossing_spec _ _ _ _ _ _ _ _ Loop).
  - split; [now left | now intros E].
Qed.

Lemma castleSide_fails thisColor col rw first board corner columns target
  openMoves e :
  (forall square after e,
     KingMove.move thisColor col rw first square board = Ret after ->
     inCheck' thisColor after = Throw e -> e = CoordinateOutOfBounds) ->
  Coord.inBounds corner = true ->
  Open.castleSide inCheck' thisColor col rw first board corner columns target
    openMoves = Throw e ->
  e = CoordinateOutOfBounds.
Proof.
  intros Hic B. unfold Open.castleSide.
  rewrite (isEmpty_inBounds _ _ B). unfold Board.getPieceAt. rewrite B.
  destruct (Board.firstAt board corner) as [rook|]; cbn [bind negb];
    [|discriminate].
  destruct (isRook rook); [|discriminate].
  destruct (firstMove rook); [|discriminate].
  destruct (forEach columns _ true) as [can| |] eqn:Loop; cbn [bind];
    try discriminate.
  intros [= <-]. exact (crossing_fails _ _ _ _ _ _ Hic _ _ Loop).
Qed.

End CastleSpec.

Lemma attack_moves_fail piece board e :
  getOpenMoves piece board false = Throw e ->
  e = CoordinateOutOfBounds /\ isPawn piece = true /\ firstMove piece = true.
Proof.
  intros T. destruct (isPawn piece) eqn:P.
  - destruct piece as [c col rw f fl| | | | |]; try discriminate.
    unfold getOpenMoves, fuelBound in T. rewrite getOpenMovesFuel_unfold in T.
    destruct (PawnImpl_outcome c col rw f board) as [R E].
    rewrite T in R. cbn [returns] in R.
    split; [now apply E|]. split; [reflexivity|].
    cbn [firstMove]. now destruct f.
  - pose proof (attack_moves_return piece board P) as R.
    now rewrite T in R.
Qed.

Lemma inCheck_fuel10 thisColor board :
  Open.inCheck (getOpenMovesFuel 10) thisColor board = inCheck thisColor board.
Proof.
  unfold inCheck. symmetry.
  apply (inCheckFuel_stable fuelBound). unfold fuelBound. lia.
Qed.

Lemma attacked_fails pieces board thisColor kingPosition e :
  Open.attacked getOpenMoves pieces board thisColor kingPosition = Throw e ->
  e = CoordinateOutOfBounds.
Proof.
  induction pieces as [|p rest IH]; simpl; [discriminate|].
  destruct (negb (Color_eqb (color p) thisColor)); [|exact IH].
  destruct (getOpenMoves p board false) as [l| |] eqn:G; cbn [bind];
    try discriminate.
  - destruct (existsb _ l); [discriminate | exact IH].
  - intros [= <-]. now apply (attack_moves_fail _ _ _ G).
Qed.

Lemma inCheck_throw_cases thisColor board e :
  inCheck thisColor board = Throw e ->
  (e = MustHaveAKing /\ hasKing thisColor board = false)
  \/ (e = CoordinateOutOfBounds /\ hasKing thisColor board = true).
Proof.
  unfold inCheck, inCheckFuel, Open.inCheck.
  pose proof (findKing_hasKing thisColor board) as F.
  destruct (Open.findKing thisColor board) as [noKingFound kingPosition].
  simpl in F. subst noKingFound.
  destruct (hasKing thisColor board); cbn [negb].
  - intros T. right. split; [|reflexivity].
    exact (attacked_fails _ _ _ _ _ T).
  - intros [= <-]. now left.
Qed.

(** [inCheck] fails with "Must have a king" exactly when the board holds no
    king of the color; its only other failure is the "Coordinate out of
    bounds" of an opposing pawn, on a board that does hold the king. *)
Theorem inCheck_failures (thisColor : Color) (board : Board) :
  (inCheck thisColor board = Throw MustHaveAKing
   <-> hasKing thisColor board = false)
  /\ forall e, inCheck thisColor board = Throw e ->
       e = MustHaveAKing
       \/ (e = CoordinateOutOfBounds /\ hasKing thisColor board = true).
Proof.
  split.
  - split.
    + intros T. destruct (inCheck_throw_cases _ _ _ T) as [[_ K] | [[=] _]].
      exact K.
    + apply inCheck_when_moves_return.
  - intros e T. destruct (inCheck_throw_cases _ _ _ T) as [[-> _] | H]; auto.
Qed.

Lemma Color_eqb_true a b : Color_eqb a b = true <-> a = b.
Proof. destruct a, b; simpl; split; congruence. Qed.

Lemma hasKing_app thisColor before after :
  hasKing thisColor (before ++ after)
  = hasKing thisColor before || hasKing thisColor after.
Proof. unfold hasKing. apply existsb_app. Qed.

Lemma hasKing_after_king_move thisColor col rw first newPosition board after :
  KingMove.move thisColor col rw first newPosition board = Ret after ->
  hasKing thisColor after = true.
Proof.
  intros M.
  destruct (move_inBounds_of_returns (King thisColor col rw first) _ _ _ M)
    as [_ ->].
  rewrite hasKing_app. cbn [arrival hasKing existsb isKing color andb].
  rewrite (proj2 (Color_eqb_true thisColor thisColor) eq_refl).
  now rewrite orb_true_r.
Qed.

Lemma king_open_moves_unfold thisColor col rw first board castle :
  getOpenMoves (King thisColor col rw first) board castle
  = Open.kingGetOpenMoves inCheck thisColor col rw first board castle.
Proof.
  unfold getOpenMoves, fuelBound. rewrite getOpenMovesFuel_unfold.
  apply kingGetOpenMoves_ext. intros; apply inCheck_fuel10.
Qed.

Lemma inCheck_after_king_move_fails thisColor col rw first board square after e :
  KingMove.move thisColor col rw first square board = Ret after ->
  inCheck thisColor after = Throw e -> e = CoordinateOutOfBounds.
Proof.
  intros M T. apply hasKing_after_king_move in M.
  destruct (inCheck_throw_cases _ _ _ T) as [[_ K] | [-> _]]; [|reflexivity].
  congruence.
Qed.

(** [getOpenMoves] has one way to fail, whatever the class and the flag:
    "Coordinate out of bounds".  It comes from a pawn holding its
    [firstMove] flag or, with [castle = true], from the castling test of a
    king holding its [firstMove] flag; no other piece ever makes it fail. *)
Theorem getOpenMoves_failures
  (piece : Piece) (board : Board) (castle : bool) (e : Error) :
  getOpenMoves piece board castle = Throw e ->
  e = CoordinateOutOfBounds
  /\ firstMove piece = true
  /\ (isPawn piece = true \/ (isKing piece = true /\ castle = true)).
Proof.
  destruct (isKing piece) eqn:K.
  - destruct piece as [| | | |c col rw f|]; try discriminate.
    rewrite king_open_moves_unfold. unfold Open.kingGetOpenMoves.
    pose proof (Stepper_returns allDirections c col rw board) as R.
    destruct (Stepper.getOpenMoves allDirections c col rw board) as [adj| |];
      try discriminate. cbn [bind].
    destruct castle; [|discriminate]. destruct f; [|discriminate].
    cbn [firstMove].
    assert (Hic : forall square after e,
               KingMove.move c col rw true square board = Ret after ->
               inCheck c after = Throw e -> e = CoordinateOutOfBounds)
      by (intros; eapply inCheck_after_king_move_fails; eauto).
    destruct (Open.castleSide inCheck c col rw true board _ [4; 3; 2] 2 adj)
      as [q| |] eqn:Q; cbn [bind]; try discriminate.
    + intros T. split; [|auto].
      apply (castleSide_fails _ _ _ _ _ _ _ _ _ _ _ Hic) in T; [exact T|].
      now destruct c.
    + intros [= <-]. split; [|auto].
      apply (castleSide_fails _ _ _ _ _ _ _ _ _ _ _ Hic) in Q; [exact Q|].
      now destruct c.
  - intros T.
    assert (T' : getOpenMoves piece board false = Throw e)
      by (destruct piece; try discriminate; exact T).
    destruct (attack_moves_fail _ _ _ T') as (-> & P & F). auto.
Qed.

Lemma king_castle_extra c col rw (f : bool) board withCastle :
  getOpenMoves (King c col rw f) board true = Ret withCastle ->
  exists plain extra,
    getOpenMoves (King c col rw f) board false = Ret plain
    /\ withCastle = plain ++ extra
    /\ (f = false -> extra = [])
    /\ forall m, In m extra ->
         row m = rw
         /\ (column m = 2 \/ column m = 6)
         /\ Board.isEmpty board m = Ret true
         /\ Board.isEmpty board (| 4, row m |) = Ret true.
Proof.
  rewrite !king_open_moves_unfold. unfold Open.kingGetOpenMoves.
  destruct (Stepper.getOpenMoves allDirections c col rw board) as [adj| |];
    cbn [bind]; try discriminate.
  destruct f.
  + destruct (Open.castleSide inCheck c col rw true board _ [4; 3; 2] 2 adj)
      as [q| |] eqn:Q; cbn [bind]; try discriminate.
    intros S.
    destruct (castleSide_spec _ _ _ _ _ _ _ _ _ _ _ Q) as [Q1 Q2].
    destruct (castleSide_spec _ _ _ _ _ _ _ _ _ _ _ S) as [S1 S2].
    assert (Hq : q = adj ++ [(| 2, rw |)] ->
                 crossable inCheck c col rw true board 4
                 /\ crossable inCheck c col rw true board 2)
      by (intros E; destruct (Q2 E) as [_ H]; split; apply H; simpl; auto).
    assert (Hs : withCastle = q ++ [(| 6, rw |)] ->
                 crossable inCheck c col rw true board 4
                 /\ crossable inCheck c col rw true board 6)
      by (intros E; destruct (S2 E) as [_ H]; split; apply H; simpl; auto).
    exists adj.
    destruct Q1 as [-> | ->], S1 as [-> | ->].
    * exists []. split; [reflexivity|]. split; [now rewrite app_nil_r|].
      split; [discriminate | intros ? []].
    * exists [(| 6, rw |)]. split; [reflexivity|]. split; [reflexivity|].
      split; [discriminate|].
      intros m [<- | []]. destruct (Hs eq_refl) as [[H4 _] [H6 _]].
      cbn [row column position]. auto.
    * exists [(| 2, rw |)]. split; [reflexivity|]. split; [reflexivity|].
      split; [discriminate|].
      intros m [<- | []]. destruct (Hq eq_refl) as [[H4 _] [H2 _]].
      cbn [row column position]. auto.
    * exists [(| 2, rw |); (| 6, rw |)]. split; [reflexivity|].
      split; [now rewrite <- app_assoc|]. split; [discriminate|].
      destruct (Hq eq_refl) as [[H4 _] [H2 _]].
      destruct (Hs eq_refl) as [_ [H6 _]].
      intros m [<- | [<- | []]]; cbn [row column position]; auto.
  + intros [= <-]. exists adj, []. split; [reflexivity|].
    split; [now rewrite app_nil_r|]. split; [reflexivity | intros ? []].
Qed.

(** The [castle] flag matters to one class only.  With [castle = true] a
    piece is offered the moves it is offered with [castle = false], in the
    same order, followed by at most the two squares on columns 2 and 6 of
    its row; the addition is empty unless the piece is a king holding its
    [firstMove] flag, and a square is added only if it is empty and column 4
    of that row is empty too. *)
Theorem castle_flag_effect
  (piece : Piece) (board : Board) (withCastle : list Coordinate) :
  getOpenMoves piece board true = Ret withCastle ->
  exists plain extra,
    getOpenMoves piece board false = Ret plain
    /\ withCastle = plain ++ extra
    /\ (isKing piece && firstMove piece = false -> extra = [])
    /\ forall m, In m extra ->
         row m = row (position piece)
         /\ (column m = 2 \/ column m = 6)
         /\ Board.isEmpty board m = Ret true
         /\ Board.isEmpty board (| 4, row m |) = Ret true.
Proof.
  destruct (isKing piece) eqn:K.
  - destruct piece as [| | | |c col rw f|]; try discriminate.
    intros G. destruct (king_castle_extra _ _ _ _ _ _ G)
      as (plain & extra & Gp & E & F & H).
    exists plain, extra. split; [exact Gp|]. split; [exact E|].
    split; [exact F | exact H].
  - intros T. exists withCastle, [].
    split; [destruct piece; try discriminate; exact T|].
    split; [now rewrite app_nil_r|]. split; [reflexivity | intros ? []].
Qed.

(* ================================================================== *)
(** ** Squares offered, legal moves and terminal positions *)

Lemma isEmpty_landable board thisColor m :
  Board.isEmpty board m = Ret true -> landable board thisColor m = true.
Proof.
  intros E. apply isEmpty_true_firstAt in E. destruct E as [B F].
  unfold landable, friendlyAt. now rewrite B, F.
Qed.

Lemma plain_moves_landable piece board openMoves m :
  isPawn piece = false ->
  getOpenMoves piece board false = Ret openMoves ->
  In m openMoves ->
  landable board (color piece) m = true.
Proof.
  intros P G Hm. unfold getOpenMoves, fuelBound in G.
  rewrite getOpenMovesFuel_unfold in G.
  destruct piece as [c col rw f e|c col rw|c col rw f|c col rw|c col rw f|c col rw];
    try discriminate; cbn [color];
    try (apply (Slider_spec _ _ _ _ _ _ _ G) in Hm;
         now destruct Hm as (d & j & _ & _ & _ & _ & L)).
  - rewrite kingGetOpenMoves_attack in G.
    destruct (Stepper_spec allDirections c col rw board) as (l & G' & H).
    rewrite G in G'. injection G' as <-.
    apply H in Hm. now destruct Hm as (d & _ & _ & L).
  - destruct (Stepper_spec knightJumps c col rw board) as (l & G' & H).
    rewrite G in G'. injection G' as <-.
    apply H in Hm. now destruct Hm as (d & _ & _ & L).
Qed.

(** No piece other than a pawn is ever offered a square off the board or a
    square held by a piece of its own color, with or without castling. *)
Theorem open_moves_are_landable
  (piece : Piece) (board : Board) (castle : bool)
  (openMoves : list Coordinate) (m : Coordinate) :
  isPawn piece = false ->
  getOpenMoves piece board castle = Ret openMoves ->
  In m openMoves ->
  landable board (color piece) m = true.
Proof.
  intros P G Hm. destruct castle; [|exact (plain_moves_landable _ _ _ _ P G Hm)].
  destruct (isKing piece) eqn:K.
  - destruct piece as [| | | |c col rw f|]; try discriminate.
    destruct (king_castle_extra _ _ _ _ _ _ G)
      as (plain & extra & Gp & -> & _ & Hextra).
    apply in_app_iff in Hm. destruct Hm as [Hm | Hm].
    + exact (plain_moves_landable _ _ _ _ P Gp Hm).
    + destruct (Hextra m Hm) as (_ & _ & E & _). now apply isEmpty_landable.
  - refine (plain_moves_landable piece board openMoves m P _ Hm).
    destruct piece; try discriminate; exact G.
Qed.

Lemma availableMoves_filter piece board openMoves :
  forall acc available,
    forEach openMoves
      (fun availableMoves openMove =>
         after <- move piece openMove board ;;
         checked <- inCheck (color piece) after ;;
         Ret (pushIf (negb checked) availableMoves openMove))
      acc = Ret available ->
    available = acc ++ filter (leavesKingSafe piece board) openMoves.
Proof.
  induction openMoves as [|o rest IH]; intros acc available; simpl.
  - intros [= <-]. now rewrite app_nil_r.
  - unfold leavesKingSafe at 1.
    destruct (move piece o board) as [after| |]; cbn [bind]; try discriminate.
    destruct (inCheck (color piece) after) as [checked| |]; cbn [bind];
      try discriminate.
    intros H. rewrite (IH _ _ H), pushIf_app.
    destruct (negb checked); cbn [app]; [now rewrite <- app_assoc|].
    now rewrite app_nil_r.
Qed.

Lemma available_move_safe piece board available m :
  getAvailableMoves piece board = Ret available ->
  In m available ->
  exists after,
    move piece m board = Ret after /\ inCheck (color piece) after = Ret false.
Proof.
  unfold getAvailableMoves, getAvailableMovesFuel, Open.getAvailableMoves.
  fold getOpenMoves.
  destruct (getOpenMoves piece board true) as [openMoves| |]; cbn [bind];
    try discriminate.
  intros H Hm. rewrite (availableMoves_filter _ _ _ _ _ H) in Hm.
  apply filter_In in Hm. destruct Hm as [_ Safe].
  unfold leavesKingSafe in Safe.
  destruct (move piece m board) as [after| |]; try discriminate.
  exists after. split; [reflexivity|].
  destruct (inCheck (color piece) after) as [[|]| |]; now try discriminate.
Qed.

(** The legal moves are the open moves that pass the check test, in the
    order of the open moves: whenever [getAvailableMoves] returns, its
    result is the list returned by [getOpenMoves(board, true)] filtered by
    "the move can be made and leaves the mover's color out of check". *)
Theorem available_moves_are_filtered_open_moves
  (piece : Piece) (board : Board) (available : list Coordinate) :
  getAvailableMoves piece board = Ret available ->
  exists openMoves,
    getOpenMoves piece board true = Ret openMoves
    /\ available = filter (leavesKingSafe piece board) openMoves.
Proof.
  unfold getAvailableMoves, getAvailableMovesFuel, Open.getAvailableMoves.
  fold getOpenMoves.
  destruct (getOpenMoves piece board true) as [openMoves| |]; cbn [bind];
    try discriminate.
  intros H. exists openMoves. split; [reflexivity|].
  now rewrite (availableMoves_filter _ _ _ _ _ H).
Qed.

Lemma noAvailableMove_true pieces board thisColor :
  Open.noAvailableMove getOpenMoves pieces board thisColor = Ret true
  <-> forall p, In p pieces -> color p = thisColor ->
        getAvailableMoves p board = Ret [].
Proof.
  induction pieces as [|p rest IH]; simpl.
  - split; [intros _ ? [] | reflexivity].
  - destruct (Color_eqb (color p) thisColor) eqn:C.
    + apply Color_eqb_true in C.
      change (Open.getAvailableMoves getOpenMoves p board)
        with (getAvailableMoves p board).
      destruct (getAvailableMoves p board) as [[|m l]| |] eqn:G; cbn [bind].
      * simpl. rewrite IH. split.
        -- intros H q [<- | Hq] Hc; auto.
        -- intros H q Hq. apply H. now right.
      * simpl. split; [discriminate|]. intros H.
        specialize (H p (or_introl eq_refl) C). congruence.
      * split; [discriminate|]. intros H.
        specialize (H p (or_introl eq_refl) C). congruence.
      * split; [discriminate|]. intros H.
        specialize (H p (or_introl eq_refl) C). congruence.
    + rewrite IH. split.
      * intros H q [<- | Hq] Hc; auto.
        apply Color_eqb_true in Hc. congruence.
      * intros H q Hq. apply H. now right.
Qed.

(** [inCheckmate] answers true exactly when the color is in check and none
    of its pieces has a legal move; [inStalemate] answers true exactly when
    the color is not in check and none of its pieces has a legal move. *)
Theorem terminal_positions_characterised (thisColor : Color) (board : Board) :
  (inCheckmate thisColor board = Ret true
   <-> inCheck thisColor board = Ret true
       /\ forall p, In p board -> color p = thisColor ->
            getAvailableMoves p board = Ret [])
  /\ (inStalemate thisColor board = Ret true
      <-> inCheck thisColor board = Ret false
          /\ forall p, In p board -> color p = thisColor ->
               getAvailableMoves p board = Ret []).
Proof.
  unfold inCheckmate, inStalemate, inCheckmateFuel, inStalemateFuel,
    Open.inCheckmate, Open.inStalemate.
  fold getOpenMoves.
  change (Open.inCheck getOpenMoves thisColor board) with (inCheck thisColor board).
  unfold Board.getPieces.
  destruct (inCheck thisColor board) as [[|]| |]; cbn [bind negb];
    rewrite ?noAvailableMove_true; split;
    (split;
     [intros H; first [discriminate H | split; [reflexivity | exact H]]
     |intros [H1 H2]; first [discriminate H1 | exact H2]]).
Qed.

(* ================================================================== *)
(** ** The statements on moves and open moves at concrete inputs *)

Lemma move_destination_witness :
  move (Bishop White 4 5) (| 5, 6 |) checkingKnightBoard
  = Ret [King White 4 4 true; King Black 1 0 true; Bishop White 5 6]
  /\ Board.getPieceAt [King White 4 4 true; King Black 1 0 true; Bishop White 5 6]
       (| 5, 6 |) = Ret (arrival (Bishop White 4 5) (| 5, 6 |)).
Proof.
  split; [reflexivity|].
  apply (move_destination (Bishop White 4 5) (| 5, 6 |) checkingKnightBoard
           [King White 4 4 true; King Black 1 0 true; Bishop White 5 6]).
  reflexivity.
Defined.

Lemma move_clears_enPassant_witness :
  move (Pawn White 3 6 true false) (| 3, 4 |) doubleStepBoard
  = Ret [King Black 4 0 true; King White 4 7 true; Pawn Black 2 4 false false;
         Pawn White 3 4 false true]
  /\ Pawn White 3 4 false true = arrival (Pawn White 3 6 true false) (| 3, 4 |)
  /\ isPawn (Pawn White 3 6 true false) = true
  /\ doubleStep (Pawn White 3 6 true false) (| 3, 4 |) = true.
Proof.
  split; [reflexivity|].
  apply (move_clears_enPassant (Pawn White 3 6 true false) (| 3, 4 |)
           doubleStepBoard
           [King Black 4 0 true; King White 4 7 true; Pawn Black 2 4 false false;
            Pawn White 3 4 false true]
           (Pawn White 3 4 false true)).
  - reflexivity.
  - simpl; auto.
  - reflexivity.
Defined.

Lemma move_never_adds_a_piece_witness :
  move (Bishop White 4 5) (| 5, 6 |) checkingKnightBoard
  = Ret [King White 4 4 true; King Black 1 0 true; Bishop White 5 6]
  /\ (length [King White 4 4 true; King Black 1 0 true; Bishop White 5 6]
      <= length checkingKnightBoard)%nat.
Proof.
  split; [reflexivity|].
  apply (move_never_adds_a_piece (Bishop White 4 5) (| 5, 6 |)).
  - reflexivity.
  - simpl; auto.
Defined.

Lemma move_keeps_bystanders_witness :
  move (Pawn White 3 6 true false) (| 3, 4 |) doubleStepBoard
  = Ret [King Black 4 0 true; King White 4 7 true; Pawn Black 2 4 false false;
         Pawn White 3 4 false true]
  /\ In (clearEnPassant (Pawn Black 2 4 false false))
       [King Black 4 0 true; King White 4 7 true; Pawn Black 2 4 false false;
        Pawn White 3 4 false true].
Proof.
  split; [reflexivity|].
  apply (move_keeps_bystanders (Pawn White 3 6 true false) (| 3, 4 |)
           doubleStepBoard _ (Pawn Black 2 4 false false)).
  - reflexivity.
  - simpl; auto.
  - discriminate.
  - discriminate.
  - right; reflexivity.
  - left; reflexivity.
Defined.

Lemma move_adds_nothing_else_witness :
  move (King White 4 7 true) (| 2, 7 |) queensideBoard
  = Ret [King Black 4 0 true; Rook White 3 7 true; King White 2 7 false]
  /\ (Rook White 3 7 true = arrival (King White 4 7 true) (| 2, 7 |)
      \/ exists p,
           In p queensideBoard
           /\ position p <> (| 2, 7 |)
           /\ position p <> position (King White 4 7 true)
           /\ (Rook White 3 7 true = clearEnPassant p
               \/ (isRook p = true /\ isRook (Rook White 3 7 true) = true
                   /\ color (Rook White 3 7 true) = color p
                   /\ rookLanding (King White 4 7 true) (| 2, 7 |)
                      = Some (position (Rook White 3 7 true))))).
Proof.
  split; [reflexivity|].
  apply (move_adds_nothing_else (King White 4 7 true) (| 2, 7 |) queensideBoard
           [King Black 4 0 true; Rook White 3 7 true; King White 2 7 false]).
  - reflexivity.
  - simpl; auto.
Defined.

Lemma enPassant_capture_empties_square_witness :
  move (Pawn White 3 3 false false) (| 2, 2 |) enPassantBoard
  = Ret [King Black 4 0 true; King White 4 7 true; Pawn White 2 2 false false]
  /\ position (Pawn White 2 2 false false) <> position (Pawn Black 2 3 false true).
Proof.
  split; [reflexivity|].
  apply (enPassant_capture_empties_square White 3 3 false false (| 2, 2 |)
           enPassantBoard
           [King Black 4 0 true; King White 4 7 true; Pawn White 2 2 false false]
           (Pawn Black 2 3 false true) (Pawn White 2 2 false false));
    try reflexivity; simpl; auto.
Defined.

Lemma move_vacates_origin_witness :
  move (Bishop White 4 5) (| 5, 6 |) checkingKnightBoard
  = Ret [King White 4 4 true; King Black 1 0 true; Bishop White 5 6]
  /\ position (King White 4 4 true) <> position (Bishop White 4 5).
Proof.
  split; [reflexivity|].
  apply (move_vacates_origin (Bishop White 4 5) (| 5, 6 |) checkingKnightBoard
           [King White 4 4 true; King Black 1 0 true; Bishop White 5 6]).
  - reflexivity.
  - discriminate.
  - discriminate.
  - simpl; auto.
Defined.

Lemma hop_moves_characterised_witness :
  exists openMoves,
    getOpenMoves (Knight Black 5 6) checkingKnightBoard false = Ret openMoves
    /\ forall m, In m openMoves <->
         exists d, In d (directionsOf (Knight Black 5 6))
                   /\ m = shift (position (Knight Black 5 6)) d
                   /\ landable checkingKnightBoard (color (Knight Black 5 6)) m
                      = true.
Proof.
  apply (hop_moves_characterised (Knight Black 5 6) checkingKnightBoard).
  reflexivity.
Defined.

Lemma slider_moves_characterised_witness :
  exists openMoves,
    getOpenMoves (Rook White 0 7 true) castlingBoard false = Ret openMoves
    /\ forall m, In m openMoves <->
         exists d j,
           In d (directionsOf (Rook White 0 7 true))
           /\ (1 <= j)%nat
           /\ m = along (position (Rook White 0 7 true)) d j
           /\ (forall i, (1 <= i < j)%nat ->
                 Board.isEmpty castlingBoard
                   (along (position (Rook White 0 7 true)) d i) = Ret true)
           /\ landable castlingBoard (color (Rook White 0 7 true)) m = true.
Proof.
  apply (slider_moves_characterised (Rook White 0 7 true) castlingBoard false).
  reflexivity.
Defined.

Lemma pawn_moves_characterised_witness :
  getOpenMoves (Pawn White 3 3 false false) enPassantBoard false
  = Ret [(| 3, 2 |); (| 2, 2 |)]
  /\ (In (| 2, 2 |) [(| 3, 2 |); (| 2, 2 |)] <->
      ((| 2, 2 |) = forwardOf White 3 3
       /\ Board.isEmpty enPassantBoard (| 2, 2 |) = Ret true)
      \/ ((| 2, 2 |) = doubleForwardOf White 3 3 /\ false = true
          /\ Board.isEmpty enPassantBoard (forwardOf White 3 3) = Ret true
          /\ Board.isEmpty enPassantBoard (| 2, 2 |) = Ret true)
      \/ ((| 2, 2 |) = leftOf White 3 3
          /\ (capturable enPassantBoard White (| 2, 2 |) = true
              \/ passable enPassantBoard White (| 3 - 1, 3 |) = true))
      \/ ((| 2, 2 |) = rightOf White 3 3
          /\ (capturable enPassantBoard White (| 2, 2 |) = true
              \/ passable enPassantBoard White (| 3 + 1, 3 |) = true))).
Proof.
  split; [reflexivity|].
  apply (pawn_moves_characterised White 3 3 false false enPassantBoard false).
  reflexivity.
Defined.

Lemma getOpenMoves_failures_witness :
  getOpenMoves (Pawn White 3 1 true false) lastRankPawnBoard false
  = Throw CoordinateOutOfBounds
  /\ CoordinateOutOfBounds = CoordinateOutOfBounds
  /\ firstMove (Pawn White 3 1 true false) = true
  /\ (isPawn (Pawn White 3 1 true false) = true
      \/ (isKing (Pawn White 3 1 true false) = true /\ false = true)).
Proof.
  split; [reflexivity|].
  apply (getOpenMoves_failures (Pawn White 3 1 true false) lastRankPawnBoard false).
  reflexivity.
Defined.

Lemma castle_flag_effect_witness :
  getOpenMoves (King White 1 7 true) cornerKingBoard true
  = Ret [(| 2, 6 |); (| 0, 6 |); (| 2, 7 |); (| 1, 6 |); (| 2, 7 |)]
  /\ exists plain extra,
       getOpenMoves (King White 1 7 true) cornerKingBoard false = Ret plain
       /\ [(| 2, 6 |); (| 0, 6 |); (| 2, 7 |); (| 1, 6 |); (| 2, 7 |)]
          = plain ++ extra
       /\ (isKing (King White 1 7 true) && firstMove (King White 1 7 true) = false
           -> extra = [])
       /\ forall m, In m extra ->
            row m = row (position (King White 1 7 true))
            /\ (column m = 2 \/ column m = 6)
            /\ Board.isEmpty cornerKingBoard m = Ret true
            /\ Board.isEmpty cornerKingBoard (| 4, row m |) = Ret true.
Proof.
  split; [vm_compute; reflexivity|].
  apply (castle_flag_effect (King White 1 7 true) cornerKingBoard).
  vm_compute; reflexivity.
Defined.

Lemma open_moves_are_landable_witness :
  getOpenMoves (Rook White 0 7 true) castlingBoard false
  = Ret [(| 1, 7 |); (| 2, 7 |); (| 3, 7 |); (| 0, 6 |); (| 0, 5 |); (| 0, 4 |);
         (| 0, 3 |); (| 0, 2 |); (| 0, 1 |); (| 0, 0 |)]
  /\ landable castlingBoard (color (Rook White 0 7 true)) (| 0, 0 |) = true.
Proof.
  split; [vm_compute; reflexivity|].
  apply (open_moves_are_landable (Rook White 0 7 true) castlingBoard false
           [(| 1, 7 |); (| 2, 7 |); (| 3, 7 |); (| 0, 6 |); (| 0, 5 |); (| 0, 4 |);
            (| 0, 3 |); (| 0, 2 |); (| 0, 1 |); (| 0, 0 |)] (| 0, 0 |)).
  - reflexivity.
  - vm_compute; reflexivity.
  - simpl; auto 12.
Defined.

Lemma available_moves_are_filtered_open_moves_witness :
  getAvailableMoves (Bishop White 4 5) checkingKnightBoard = Ret [(| 5, 6 |)]
  /\ exists openMoves,
       getOpenMoves (Bishop White 4 5) checkingKnightBoard true = Ret openMoves
       /\ [(| 5, 6 |)]
          = filter (leavesKingSafe (Bishop White 4 5) checkingKnightBoard) openMoves.
Proof.
  split; [vm_compute; reflexivity|].
  apply (available_moves_are_filtered_open_moves (Bishop White 4 5)
           checkingKnightBoard).
  vm_compute; reflexivity.
Defined.


(* ================================================================== *)
(** ** The game component *)

Lemma checkmate_is_no_stalemate thisColor board :
  inCheckmate thisColor board = Ret true ->
  inStalemate thisColor board = Ret false.
Proof.
  unfold inCheckmate, inStalemate, inCheckmateFuel, inStalemateFuel,
    Open.inCheckmate, Open.inStalemate.
  destruct (Open.inCheck (getOpenMovesFuel fuelBound) thisColor board)
    as [[|]| |]; cbn [bind negb]; (reflexivity || discriminate).
Qed.

(** [calculateWinner] answers "Tie" exactly when the color to move is
    stalemated, names the other color exactly when the color to move is
    checkmated, and answers [null] exactly when it is neither: testing
    stalemate first loses no checkmate. *)
Theorem calculateWinner_characterised (board : Board) (thisColor : Color) :
  (calculateWinner board thisColor = Ret (Some Tie)
   <-> inStalemate thisColor board = Ret true)
  /\ (forall winner,
        calculateWinner board thisColor = Ret (Some (Won winner))
        <-> inCheckmate thisColor board = Ret true
            /\ winner = otherColor thisColor)
  /\ (calculateWinner board thisColor = Ret None
      <-> inStalemate thisColor board = Ret false
          /\ inCheckmate thisColor board = Ret false).
Proof.
  pose proof (checkmate_is_no_stalemate thisColor board) as X.
  unfold calculateWinner.
  destruct (inStalemate thisColor board) as [[|]| |]; cbn [bind].
  - split; [tauto|]. split.
    + intros w. split; [discriminate|]. intros [M _]. now specialize (X M).
    + split; [discriminate | intros [[=] _]].
  - destruct (inCheckmate thisColor board) as [[|]| |]; cbn [bind].
    + split; [split; [destruct thisColor|]; discriminate|]. split.
      * intros w. destruct thisColor; cbn [otherColor]; split.
        -- now intros [= <-].
        -- now intros [_ ->].
        -- now intros [= <-].
        -- now intros [_ ->].
      * split; [destruct thisColor; discriminate | intros [_ [=]]].
    + split; [split; discriminate|]. split.
      * intros w. split; [discriminate | intros [[=] _]].
      * tauto.
    + split; [split; discriminate|]. split.
      * intros w. split; [discriminate | intros [[=] _]].
      * split; [discriminate | intros [_ [=]]].
    + split; [split; discriminate|]. split.
      * intros w. split; [discriminate | intros [[=] _]].
      * split; [discriminate | intros [_ [=]]].
  - split; [split; discriminate|]. split.
    + intros w. split; [discriminate|]. intros [M _]. now specialize (X M).
    + split; [discriminate | intros [[=] _]].
  - split; [split; discriminate|]. split.
    + intros w. split; [discriminate|]. intros [M _]. now specialize (X M).
    + split; [discriminate | intros [[=] _]].
Qed.

Section ClickFacts.

Variable same : Piece -> Piece -> bool.

(** What a click can leave behind. *)
Lemma handleClick_cases s row column s' :
  handleClick same s row column = Ret s' ->
  s' = s
  \/ (calculateWinner (gameBoard s) (gameColor s) = Ret None
      /\ exists piece available newBoard,
           gameSelected s = Some piece
           /\ getAvailableMoves piece (gameBoard s) = Ret available
           /\ In (| column, row |) available
           /\ move piece (| column, row |) (gameBoard s) = Ret newBoard
           /\ s' = mkGameState newBoard None (otherColor (gameColor s)))
  \/ s' = mkGameState (gameBoard s) None (gameColor s)
  \/ exists piece,
       Board.getPieceAt (gameBoard s) (| column, row |) = Ret piece
       /\ color piece = gameColor s
       /\ s' = mkGameState (gameBoard s) (Some piece) (gameColor s).
Proof.
  unfold handleClick.
  destruct (calculateWinner (gameBoard s) (gameColor s)) as [[w|]| |];
    cbn [bind]; try discriminate; [intros [= <-]; now left|].
  assert (Rest :
    (empty <- Board.isEmpty (gameBoard s) (| column, row |) ;;
     (if negb empty
      then piece <- Board.getPieceAt (gameBoard s) (| column, row |) ;;
           (if match gameSelected s with
               | Some selectedPiece => same piece selectedPiece
               | None => false
               end
            then Ret (mkGameState (gameBoard s) None (gameColor s))
            else if Color_eqb (color piece) (gameColor s)
                 then Ret (mkGameState (gameBoard s) (Some piece) (gameColor s))
                 else Ret s)
      else Ret s)) = Ret s' ->
    s' = s
    \/ s' = mkGameState (gameBoard s) None (gameColor s)
    \/ exists piece,
         Board.getPieceAt (gameBoard s) (| column, row |) = Ret piece
         /\ color piece = gameColor s
         /\ s' = mkGameState (gameBoard s) (Some piece) (gameColor s)).
  { destruct (Board.isEmpty (gameBoard s) (| column, row |)) as [[|]| |];
      cbn [bind negb]; try discriminate; [intros [= <-]; now left|].
    destruct (Board.getPieceAt (gameBoard s) (| column, row |)) as [piece| |];
      cbn [bind]; try discriminate.
    destruct (match gameSelected s with Some sp => same piece sp | None => false end);
      [intros [= <-]; right; now left|].
    destruct (Color_eqb (color piece) (gameColor s)) eqn:C;
      [|intros [= <-]; now left].
    intros [= <-]. right; right. exists piece. apply Color_eqb_true in C. auto. }
  destruct (gameSelected s) as [piece|]; cbn [bind].
  - destruct (getAvailableMoves piece (gameBoard s)) as [available| |] eqn:G;
      cbn [bind]; try discriminate.
    destruct (existsb _ available) eqn:Ex.
    + destruct (move piece (| column, row |) (gameBoard s)) as [newBoard| |] eqn:M;
        cbn [bind]; try discriminate.
      intros [= <-]. right; left. split; [reflexivity|].
      exists piece, available, newBoard.
      split; [reflexivity|]. split; [exact G|].
      split; [|split; [exact M | reflexivity]].
      apply existsb_exists in Ex. destruct Ex as (a & Ha & E).
      apply equals_spec in E. now subst a.
    + cbn [bind]. intros H. destruct (Rest H) as [H1 | [H1 | H1]]; auto.
  - intros H. destruct (Rest H) as [H1 | [H1 | H1]]; auto.
Qed.

End ClickFacts.

(** The turn passes only by a legal move.  When a click changes the color
    to move, the game was not over, a piece was selected, the clicked square
    was one of its legal moves, the new board is the board of that move,
    the selection is dropped, and the color of the piece moved is not in
    check on the new board.  When a click leaves the color to move as it
    was, it leaves the board as it was. *)
Theorem turn_passes_by_a_legal_move (same : Piece -> Piece -> bool)
  (s : GameState) (row column : Z) (s' : GameState) :
  handleClick same s row column = Ret s' ->
  (gameColor s' <> gameColor s ->
   calculateWinner (gameBoard s) (gameColor s) = Ret None
   /\ exists piece available,
        gameSelected s = Some piece
        /\ getAvailableMoves piece (gameBoard s) = Ret available
        /\ In (| column, row |) available
        /\ move piece (| column, row |) (gameBoard s) = Ret (gameBoard s')
        /\ inCheck (color piece) (gameBoard s') = Ret false
        /\ gameSelected s' = None
        /\ gameColor s' = otherColor (gameColor s))
  /\ (gameColor s' = gameColor s -> gameBoard s' = gameBoard s).
Proof.
  intros H. apply handleClick_cases in H.
  destruct H as [-> | [(W & piece & available & newBoard & S & G & I & M & ->)
                      | [-> | (piece & _ & _ & ->)]]];
    cbn [gameColor gameBoard gameSelected].
  - split; [intros N; now elim N | reflexivity].
  - split.
    + intros _. split; [exact W|]. exists piece, available.
      destruct (available_move_safe piece (gameBoard s) available _ G I)
        as (after & M' & C).
      rewrite M in M'. injection M' as <-. auto 10.
    + intros E. destruct (gameColor s); discriminate.
  - split; [intros N; now elim N | reflexivity].
  - split; [intros N; now elim N | reflexivity].
Qed.


(** On a board holding a king of the color, [inCheck] returns whether some
    piece of the other color has the square of that king (the last one in
    array order) among its [getOpenMoves(board, false)], as soon as that
    call returns for the opposing pawns holding [firstMove]; the other
    pieces cannot make it fail. *)
Theorem inCheck_detects_attacks (thisColor : Color) (board : Board) :
  hasKing thisColor board = true ->
  (forall p, In p board -> isPawn p = true -> firstMove p = true ->
     Color_eqb (color p) thisColor = false ->
     returns (getOpenMoves p board false) = true) ->
  inCheck thisColor board
  = Ret (attackedBy thisColor board (kingSquare thisColor board)).
Proof.
  intros K Pawns. apply inCheck_when_moves_return; [exact K|].
  intros p Hin C. destruct (isPawn p) eqn:P; [|now apply attack_moves_return].
  destruct (firstMove p) eqn:F; [now apply Pawns|].
  destruct p as [c col rw f e| | | | |]; try discriminate.
  cbn [firstMove] in F. subst f.
  unfold getOpenMoves, fuelBound. rewrite getOpenMovesFuel_unfold.
  now rewrite (proj1 (PawnImpl_outcome c col rw false board)).
Qed.

Lemma inCheck_detects_attacks_witness :
  hasKing Black stalemateBoard = true
  /\ inCheck Black stalemateBoard
     = Ret (attackedBy Black stalemateBoard (kingSquare Black stalemateBoard)).
Proof.
  split; [reflexivity|].
  apply (inCheck_detects_attacks Black stalemateBoard).
  - reflexivity.
  - intros p Hin P. simpl in Hin.
    repeat (destruct Hin as [<- | Hin]; [discriminate P|]). destruct Hin.
Defined.

(* ================================================================== *)
(** ** Well-formed positions: nothing throws *)

Lemma forward_squares_inBounds c col rw :
  onBoard (Pawn c col rw true false) = true ->
  pawnSane (Pawn c col rw true false) = true ->
  Coord.inBounds (forwardOf c col rw) = true
  /\ Coord.inBounds (doubleForwardOf c col rw) = true.
Proof.
  unfold onBoard. cbn [position pawnSane]. intros B S.
  apply inBounds_spec in B. cbn [column row] in B.
  destruct c; apply Z.eqb_eq in S; subst rw;
    split; apply inBounds_spec; cbn [forwardOf doubleForwardOf column row]; lia.
Qed.

Lemma pawn_sane_returns c col rw f e board castle :
  onBoard (Pawn c col rw f e) = true ->
  pawnSane (Pawn c col rw f e) = true ->
  returns (getOpenMoves (Pawn c col rw f e) board castle) = true.
Proof.
  intros B S. unfold getOpenMoves, fuelBound. rewrite getOpenMovesFuel_unfold.
  rewrite (proj1 (PawnImpl_outcome c col rw f board)).
  destruct f; [|reflexivity].
  destruct (forward_squares_inBounds c col rw) as [F D].
  - exact B.
  - destruct c; exact S.
  - rewrite F, D. cbn [negb orb andb]. now rewrite andb_false_r.
Qed.

Lemma sane_attack_returns board p :
  onBoard p = true -> pawnSane p = true ->
  returns (getOpenMoves p board false) = true.
Proof.
  intros B S. destruct (isPawn p) eqn:P; [|now apply attack_moves_return].
  destruct p; try discriminate. now apply pawn_sane_returns.
Qed.

Lemma sane_inCheck thisColor board :
  forallb onBoard board = true ->
  forallb pawnSane board = true ->
  hasKing thisColor board = true ->
  inCheck thisColor board
  = Ret (attackedBy thisColor board (kingSquare thisColor board)).
Proof.
  intros B S K. apply inCheck_when_moves_return; [exact K|].
  intros p Hin _. rewrite forallb_forall in B, S.
  apply sane_attack_returns; auto.
Qed.

(** The pieces of the board a move gives. *)
Lemma move_pieces piece newPosition board after :
  move piece newPosition board = Ret after ->
  Coord.inBounds newPosition = true
  /\ forall q, In q after ->
       q = arrival piece newPosition
       \/ exists p, In p board
                    /\ stays p newPosition (position piece) = true
                    /\ (q = clearEnPassant p
                        \/ (isRook q = true
                            /\ rookLanding piece newPosition = Some (position q))).
Proof.
  intros M. destruct (move_inBounds_of_returns _ _ _ _ M) as [B ->].
  split; [exact B|]. intros q Hq. apply in_app_iff in Hq.
  destruct Hq as [Hq|[<-|[]]]; [|now left].
  right. apply in_flat_map in Hq. destruct Hq as [p [Hp Hq]].
  exists p. split; [exact Hp|].
  destruct (keeps_cases _ _ _ _ _ Hq) as [St [->|[_ [R [_ L]]]]]; auto.
Qed.

Lemma rookLanding_inBounds piece newPosition landing :
  rookLanding piece newPosition = Some landing ->
  Coord.inBounds newPosition = true -> Coord.inBounds landing = true.
Proof.
  destruct piece as [| | | |c col rw [|]|]; try discriminate.
  cbn [rookLanding].
  destruct (Coord.equals newPosition (| 2, rw |)) eqn:E2.
  - apply equals_spec in E2. subst. intros [= <-]. rewrite !inBounds_spec.
    cbn [column row]. lia.
  - destruct (Coord.equals newPosition (| 6, rw |)) eqn:E6; [|discriminate].
    apply equals_spec in E6. subst. intros [= <-]. rewrite !inBounds_spec.
    cbn [column row]. lia.
Qed.

Lemma move_keeps_onBoard piece newPosition board after :
  forallb onBoard board = true ->
  move piece newPosition board = Ret after ->
  forallb onBoard after = true.
Proof.
  intros B M. destruct (move_pieces _ _ _ _ M) as [I Q].
  rewrite forallb_forall in *. intros q Hq.
  destruct (Q q Hq) as [->|[p [Hp [_ [->|[_ L]]]]]]; unfold onBoard.
  - now rewrite position_arrival.
  - rewrite position_clearEnPassant. now apply B.
  - now apply (rookLanding_inBounds _ _ _ L).
Qed.

Lemma pawnSane_clearEnPassant p : pawnSane (clearEnPassant p) = pawnSane p.
Proof. now destruct p. Qed.

Lemma kingSane_clearEnPassant p : kingSane (clearEnPassant p) = kingSane p.
Proof. now destruct p. Qed.

Lemma flagSane_clearEnPassant board toMove p :
  flagSane board toMove (clearEnPassant p) = true.
Proof. now destruct p as [[|]| | | | |]. Qed.

Lemma move_keeps_pawnSane piece newPosition board after :
  forallb pawnSane board = true ->
  move piece newPosition board = Ret after ->
  forallb pawnSane after = true.
Proof.
  intros B M. destruct (move_pieces _ _ _ _ M) as [I Q].
  rewrite forallb_forall in *. intros q Hq.
  destruct (Q q Hq) as [->|[p [Hp [_ [->|[R _]]]]]].
  - destruct piece as [[|] ? ? ? ?| | | | |]; cbn [arrival]; try reflexivity;
      now destruct (row newPosition =? _).
  - rewrite pawnSane_clearEnPassant. now apply B.
  - now destruct q.
Qed.

Lemma move_keeps_kingSane piece newPosition board after :
  forallb kingSane board = true ->
  move piece newPosition board = Ret after ->
  forallb kingSane after = true.
Proof.
  intros B M. destruct (move_pieces _ _ _ _ M) as [I Q].
  rewrite forallb_forall in *. intros q Hq.
  destruct (Q q Hq) as [->|[p [Hp [_ [->|[R _]]]]]].
  - destruct piece as [[|] ? ? ? ?| | | | |]; cbn [arrival]; try reflexivity;
      now destruct (row newPosition =? _).
  - rewrite kingSane_clearEnPassant. now apply B.
  - now destruct q.
Qed.

Section CastleReturns.

Variable inCheck' : Color -> Board -> outcome bool.

Lemma crossing_returns thisColor col rw first board columns :
  (forall c, In c columns -> Coord.inBounds (| c, rw |) = true) ->
  (forall square after,
     KingMove.move thisColor col rw first square board = Ret after ->
     returns (inCheck' thisColor after) = true) ->
  forall canCastle,
    returns (forEach columns (Open.crossing inCheck' thisColor col rw first board)
               canCastle) = true.
Proof.
  intros Cols Chk. apply forEach_returns. intros s c Hc.
  unfold Open.crossing. rewrite (isEmpty_inBounds _ _ (Cols c Hc)). cbn [bind].
  rewrite (KingMove_inBounds _ _ _ _ _ _ (Cols c Hc)). cbn [bind].
  match goal with |- context [inCheck' thisColor ?a] => 
    specialize (Chk (| c, rw |) a (KingMove_inBounds _ _ _ _ _ _ (Cols c Hc)));
    destruct (inCheck' thisColor a) as [b| |]; try discriminate
  end.
  reflexivity.
Qed.

Lemma castleSide_returns thisColor col rw first board corner columns target
  openMoves :
  Coord.inBounds corner = true ->
  (forall c, In c columns -> Coord.inBounds (| c, rw |) = true) ->
  (forall square after,
     KingMove.move thisColor col rw first square board = Ret after ->
     returns (inCheck' thisColor after) = true) ->
  returns (Open.castleSide inCheck' thisColor col rw first board corner columns
             target openMoves) = true.
Proof.
  intros Corner Cols Chk. unfold Open.castleSide.
  rewrite (isEmpty_inBounds _ _ Corner). cbn [bind].
  destruct (Board.firstAt board corner) as [rook|] eqn:F; cbn [negb];
    [|reflexivity].
  rewrite (getPieceAt_firstAt _ _ _ Corner F). cbn [bind].
  destruct (isRook rook); [|reflexivity]. cbn [bind].
  destruct (firstMove rook); [|reflexivity].
  pose proof (crossing_returns thisColor col rw first board columns Cols Chk true)
    as R.
  destruct (forEach columns _ true); try discriminate. reflexivity.
Qed.

End CastleReturns.

Lemma king_moves_return c col rw f board castle :
  forallb onBoard board = true ->
  forallb pawnSane board = true ->
  Coord.inBounds (| col, rw |) = true ->
  returns (getOpenMoves (King c col rw f) board castle) = true.
Proof.
  intros B S I. rewrite king_open_moves_unfold. unfold Open.kingGetOpenMoves.
  destruct (Stepper_spec allDirections c col rw board) as [plain [-> _]].
  cbn [bind]. destruct castle; [|reflexivity]. destruct f; [|reflexivity].
  assert (Chk : forall square after,
             KingMove.move c col rw true square board = Ret after ->
             returns (inCheck c after) = true).
  { intros square after M.
    rewrite (sane_inCheck c after); [reflexivity| | |].
    - exact (move_keeps_onBoard (King c col rw true) _ _ _ B M).
    - exact (move_keeps_pawnSane (King c col rw true) _ _ _ S M).
    - exact (hasKing_after_king_move _ _ _ _ _ _ _ M). }
  assert (Cols : forall x, In x [4; 3; 2] \/ In x [4; 5; 6] ->
                   Coord.inBounds (| x, rw |) = true).
  { intros x Hx. apply inBounds_spec in I. apply inBounds_spec.
    cbn [column row] in *. simpl in Hx. lia. }
  pose proof (fun corner cI target openMoves =>
    castleSide_returns inCheck c col rw true board corner [4; 3; 2] target
      openMoves cI (fun x Hx => Cols x (or_introl Hx)) Chk) as Q.
  pose proof (fun corner cI target openMoves =>
    castleSide_returns inCheck c col rw true board corner [4; 5; 6] target
      openMoves cI (fun x Hx => Cols x (or_intror Hx)) Chk) as K.
  destruct c.
  all: match goal with
       | |- context [Open.castleSide _ _ _ _ _ _ ?corner (4 :: 3 :: _) _ _] =>
           specialize (Q corner eq_refl 2 plain)
       end;
       destruct (Open.castleSide _ _ _ _ _ _ _ (4 :: 3 :: _) _ _) as [mid| |];
       try discriminate; cbn [bind].
  all: match goal with
       | |- context [Open.castleSide _ _ _ _ _ _ ?corner (4 :: 5 :: _) _ _] =>
           exact (K corner eq_refl 6 mid)
       end.
Qed.

Lemma sane_moves_return board p castle :
  forallb onBoard board = true ->
  forallb pawnSane board = true ->
  In p board ->
  returns (getOpenMoves p board castle) = true.
Proof.
  intros B S Hin.
  assert (Bp : onBoard p = true) by (rewrite forallb_forall in B; auto).
  assert (Sp : pawnSane p = true) by (rewrite forallb_forall in S; auto).
  destruct p as [c col rw f e|c col rw|c col rw f|c col rw|c col rw f|c col rw].
  - now apply pawn_sane_returns.
  - rewrite (slider_castle_irrelevant (Bishop c col rw)) by reflexivity.
    now apply attack_moves_return.
  - rewrite (slider_castle_irrelevant (Rook c col rw f)) by reflexivity.
    now apply attack_moves_return.
  - rewrite (slider_castle_irrelevant (Queen c col rw)) by reflexivity.
    now apply attack_moves_return.
  - now apply king_moves_return.
  - exact (attack_moves_return (Knight c col rw) board eq_refl).
Qed.

Lemma castle_irrelevant_off_king piece board castle :
  isKing piece = false ->
  getOpenMoves piece board castle = getOpenMoves piece board false.
Proof. now destruct piece. Qed.

Lemma hostile_landable board thisColor m :
  capturable board thisColor m = true -> landable board thisColor m = true.
Proof.
  unfold capturable, landable, hostileAt, friendlyAt.
  destruct (Coord.inBounds m); [|discriminate]. cbn [andb].
  destruct (Board.firstAt board m); [|discriminate]. auto.
Qed.

(** The square an en-passant capture lands on is empty as soon as the pawn
    taken holds its flag rightly. *)
Lemma passable_landable board toMove thisColor rw side :
  forallb (flagSane board toMove) board = true ->
  passable board thisColor (| side, rw |) = true ->
  landable board thisColor
    (match thisColor with
     | Black => (| side, rw + 1 |)
     | White => (| side, rw - 1 |)
     end) = true.
Proof.
  intros F P. unfold passable in P.
  apply andb_true_iff in P. destruct P as [_ P].
  destruct (Board.firstAt board (| side, rw |)) as [other|] eqn:E; [|discriminate].
  destruct (firstAt_Some _ _ _ E) as [Hin Hpos].
  rewrite forallb_forall in F. specialize (F other Hin).
  apply andb_true_iff in P. destruct P as [P Ep].
  apply andb_true_iff in P. destruct P as [C Pw].
  destruct other as [oc ocol orw ofirst oflag| | | | |]; try discriminate.
  cbn [enPassant] in Ep. subst oflag. cbn [position] in Hpos.
  injection Hpos as -> ->. cbn [color] in C.
  destruct thisColor, oc; try discriminate; cbn [flagSane] in F;
    apply andb_true_iff in F; destruct F as [F Em];
    apply andb_true_iff in F; destruct F as [_ R];
    apply Z.eqb_eq in R; subst rw; apply isEmpty_landable;
    unfold holds in Em;
    match type of Em with
    | match ?x with _ => _ end = true =>
        destruct x as [[|]| |] eqn:X; try discriminate
    end; exact X.
Qed.

Lemma sane_moves_landable board toMove p castle openMoves m :
  forallb (flagSane board toMove) board = true ->
  getOpenMoves p board castle = Ret openMoves ->
  In m openMoves ->
  landable board (color p) m = true.
Proof.
  intros F G Hm.
  destruct (isPawn p) eqn:P.
  - destruct p as [c col rw f e| | | | |]; try discriminate.
    unfold getOpenMoves, fuelBound in G. rewrite getOpenMovesFuel_unfold in G.
    apply (PawnImpl_spec c col rw f board openMoves m G) in Hm. cbn [color].
    destruct Hm as [[_ E]|[[_ [_ [_ E]]]|[[-> [C|Ps]]|[-> [C|Ps]]]]].
    + now apply isEmpty_landable.
    + now apply isEmpty_landable.
    + now apply hostile_landable.
    + pose proof (passable_landable board toMove c rw (col - 1) F Ps) as L.
      now destruct c.
    + now apply hostile_landable.
    + pose proof (passable_landable board toMove c rw (col + 1) F Ps) as L.
      now destruct c.
  - destruct castle; [|exact (plain_moves_landable p board openMoves m P G Hm)].
    destruct (isKing p) eqn:K.
    + destruct p as [| | | |c col rw f|]; try discriminate.
      destruct (king_castle_extra c col rw f board openMoves G)
        as [plain [extra [Gp [-> [_ Ex]]]]].
      apply in_app_iff in Hm. destruct Hm as [Hm|Hm].
      * exact (plain_moves_landable (King c col rw f) board plain m eq_refl Gp Hm).
      * apply isEmpty_landable. now apply Ex.
    + rewrite (castle_irrelevant_off_king p board true K) in G.
      exact (plain_moves_landable p board openMoves m P G Hm).
Qed.

(** A king that does not stand on the destination is still there after the
    move, or is the piece that moved. *)
Lemma king_outlives_move board p m after K :
  onePiecePerSquare board = true ->
  In p board -> In K board -> isKing K = true ->
  position K <> m ->
  move p m board = Ret after ->
  hasKing (color K) after = true.
Proof.
  intros One Hp HK IK Off M.
  destruct (move_inBounds_of_returns _ _ _ _ M) as [B ->].
  rewrite hasKing_app. apply orb_true_iff.
  destruct (Coord.equals (position K) (position p)) eqn:E.
  - right. apply equals_spec in E.
    assert (K = p) by (apply (onePiece_same_square board); auto). subst K.
    destruct p as [| | | |c col rw f|]; try discriminate.
    cbn [arrival hasKing existsb isKing color andb]. now destruct c.
  - left. apply equals_false in E. apply existsb_exists. exists K.
    split.
    + apply in_flat_map. exists K. split; [exact HK|].
      assert (Kept : In (clearEnPassant K) (keeps p m board K)).
      { apply keeps_bystander.
        - now apply stays_iff.
        - right. now destruct K.
        - right. now destruct K. }
      rewrite clearEnPassant_other in Kept; [exact Kept | now destruct K].
    + rewrite IK. cbn [andb]. now destruct (color K).
Qed.

Lemma hasKing_witness thisColor board :
  hasKing thisColor board = true ->
  exists K, In K board /\ isKing K = true /\ color K = thisColor.
Proof.
  intros H. apply existsb_exists in H. destruct H as [K [HK C]].
  apply andb_true_iff in C. destruct C as [IK C].
  exists K. repeat split; auto. now apply Color_eqb_true.
Qed.

Lemma king_survives board p m after thisColor :
  onePiecePerSquare board = true ->
  In p board ->
  hasKing thisColor board = true ->
  landable board thisColor m = true ->
  move p m board = Ret after ->
  hasKing thisColor after = true.
Proof.
  intros One Hp HK L M.
  destruct (hasKing_witness _ _ HK) as [K [HKin [IK <-]]].
  apply (king_outlives_move board p m after K); auto.
  intros Eq. subst m. unfold landable, friendlyAt in L.
  apply andb_true_iff in L. destruct L as [_ L].
  destruct (Board.firstAt board (position K)) as [other|] eqn:E.
  - destruct (firstAt_Some _ _ _ E) as [Ho Po].
    assert (other = K) by (apply (onePiece_same_square board); auto). subst other.
    now destruct (color K).
  - rewrite firstAt_None in E. now apply (E K HKin).
Qed.

(** The square [inCheck] takes for the king's is that of a king of the
    color. *)
Lemma findKing_position thisColor board :
  forall found,
    let result :=
      fold_left
        (fun (found : bool * Coordinate) piece =>
           if isKing piece && Color_eqb (color piece) thisColor
           then (false, position piece)
           else found)
        board found in
    (result = found /\ hasKing thisColor board = false)
    \/ exists K, In K board /\ isKing K = true /\ color K = thisColor
                 /\ position K = snd result.
Proof.
  induction board as [|a rest IH]; intros found; cbn zeta.
  - left. split; reflexivity.
  - cbn [fold_left hasKing existsb].
    destruct (isKing a && Color_eqb (color a) thisColor) eqn:E.
    + right. destruct (IH (false, position a)) as [[-> _]|[K [HK [IK [C P]]]]].
      * exists a. apply andb_true_iff in E. destruct E as [IK C].
        apply Color_eqb_true in C. repeat split; auto. now left.
      * exists K. repeat split; auto. now right.
    + destruct (IH found) as [[-> N]|[K [HK [IK [C P]]]]].
      * left. split; [reflexivity|]. exact N.
      * right. exists K. repeat split; auto. now right.
Qed.

Lemma kingSquare_king thisColor board :
  hasKing thisColor board = true ->
  exists K, In K board /\ isKing K = true /\ color K = thisColor
            /\ position K = kingSquare thisColor board.
Proof.
  intros H.
  destruct (findKing_position thisColor board (true, (| -1, -1 |)))
    as [[_ N]|X]; [congruence|exact X].
Qed.

Lemma available_in_open piece board available :
  getAvailableMoves piece board = Ret available ->
  exists openMoves,
    getOpenMoves piece board true = Ret openMoves
    /\ forall m, In m available -> In m openMoves.
Proof.
  unfold getAvailableMoves, getAvailableMovesFuel, Open.getAvailableMoves.
  fold getOpenMoves.
  destruct (getOpenMoves piece board true) as [openMoves| |]; cbn [bind];
    try discriminate.
  intros H. exists openMoves. split; [reflexivity|]. intros m Hm.
  rewrite (availableMoves_filter _ _ _ _ _ H) in Hm.
  apply filter_In in Hm. tauto.
Qed.

Lemma sane_available_return board toMove p :
  forallb onBoard board = true ->
  onePiecePerSquare board = true ->
  forallb pawnSane board = true ->
  forallb (flagSane board toMove) board = true ->
  hasKing (color p) board = true ->
  In p board ->
  returns (getAvailableMoves p board) = true.
Proof.
  intros B One S F K Hin.
  unfold getAvailableMoves, getAvailableMovesFuel, Open.getAvailableMoves.
  fold getOpenMoves.
  pose proof (sane_moves_return board p true B S Hin) as R.
  destruct (getOpenMoves p board true) as [openMoves| |] eqn:G;
    try discriminate. cbn [bind].
  assert (Body : forall s m, In m openMoves ->
            returns (after <- move p m board ;;
                     checked <- Open.inCheck getOpenMoves (color p) after ;;
                     Ret (pushIf (negb checked) s m)) = true).
  { intros s m Hm.
    pose proof (sane_moves_landable board toMove p true openMoves m F G Hm) as L.
    assert (I : Coord.inBounds m = true)
      by (unfold landable in L; apply andb_true_iff in L; tauto).
    pose proof (move_closed_form p m board I) as M. rewrite M. cbn [bind].
    change (Open.inCheck getOpenMoves) with inCheck.
    rewrite sane_inCheck; [reflexivity| | |].
    - exact (move_keeps_onBoard _ _ _ _ B M).
    - exact (move_keeps_pawnSane _ _ _ _ S M).
    - exact (king_survives board p m _ (color p) One Hin K L M). }
  exact (forEach_returns openMoves _ Body []).
Qed.

Lemma noAvailableMove_returns pieces board thisColor :
  (forall p, In p pieces -> color p = thisColor ->
     returns (getAvailableMoves p board) = true) ->
  returns (Open.noAvailableMove getOpenMoves pieces board thisColor) = true.
Proof.
  induction pieces as [|p rest IH]; intros H; [reflexivity|].
  cbn [Open.noAvailableMove].
  destruct (Color_eqb (color p) thisColor) eqn:C.
  - apply Color_eqb_true in C.
    pose proof (H p (or_introl eq_refl) C) as R.
    change (Open.getAvailableMoves getOpenMoves p board)
      with (getAvailableMoves p board).
    destruct (getAvailableMoves p board) as [l| |]; try discriminate.
    cbn [bind]. destruct (negb _); [reflexivity|].
    apply IH. intros; apply H; auto. now right.
  - apply IH. intros; apply H; auto. now right.
Qed.

Lemma saneBoard_parts board toMove :
  saneBoard board toMove = true ->
  forallb onBoard board = true
  /\ onePiecePerSquare board = true
  /\ forallb pawnSane board = true
  /\ forallb kingSane board = true
  /\ forallb (flagSane board toMove) board = true
  /\ hasKing White board = true
  /\ hasKing Black board = true
  /\ inCheck (otherColor toMove) board = Ret false.
Proof.
  unfold saneBoard. rewrite !andb_true_iff.
  intros [[[[[[[A B] C] D] E] F] G] H]. repeat split; auto.
  destruct (inCheck (otherColor toMove) board) as [[|]| |]; now try discriminate.
Qed.

Lemma hasKing_either board thisColor :
  hasKing White board = true -> hasKing Black board = true ->
  hasKing thisColor board = true.
Proof. now destruct thisColor. Qed.

Lemma sane_terminal_return board toMove thisColor :
  saneBoard board toMove = true ->
  returns (inCheck thisColor board) = true
  /\ returns (inCheckmate thisColor board) = true
  /\ returns (inStalemate thisColor board) = true.
Proof.
  intros Sn.
  destruct (saneBoard_parts _ _ Sn) as [B [One [S [_ [F [KW [KB _]]]]]]].
  assert (N : returns (Open.noAvailableMove getOpenMoves board board thisColor)
              = true).
  { apply noAvailableMove_returns. intros p Hp C.
    apply (sane_available_return board toMove); auto.
    now apply hasKing_either. }
  unfold inStalemate, inStalemateFuel, Open.inStalemate,
    inCheckmate, inCheckmateFuel, Open.inCheckmate.
  fold getOpenMoves. change (Open.inCheck getOpenMoves) with inCheck.
  rewrite (sane_inCheck thisColor board B S (hasKing_either _ _ KW KB)).
  unfold Board.getPieces. cbn [bind].
  destruct (attackedBy thisColor board (kingSquare thisColor board));
    cbn [negb]; auto.
Qed.

Lemma sane_calculateWinner board toMove :
  saneBoard board toMove = true ->
  returns (calculateWinner board toMove) = true.
Proof.
  intros Sn. destruct (sane_terminal_return board toMove toMove Sn) as [_ [C St]].
  unfold calculateWinner.
  destruct (inStalemate toMove board) as [[|]| |]; try discriminate;
    cbn [bind]; [reflexivity|].
  destruct (inCheckmate toMove board) as [[|]| |]; try discriminate;
    cbn [bind]; [now destruct toMove | reflexivity].
Qed.

(* ================================================================== *)
(** ** Well-formed positions: a played move gives one again *)

Lemma occupied_not_empty board p :
  In p board -> onBoard p = true ->
  Board.isEmpty board (position p) = Ret false.
Proof.
  intros Hin B. rewrite (isEmpty_inBounds _ _ B).
  destruct (Board.firstAt board (position p)) eqn:E; [reflexivity|].
  rewrite firstAt_None in E. now destruct (E p Hin).
Qed.

(** A king that holds [firstMove] on column 4 is offered no castle, so no
    move of a well-formed position moves a rook along. *)
Lemma sane_move_no_castle board p openMoves m :
  onBoard p = true -> kingSane p = true -> In p board ->
  getOpenMoves p board true = Ret openMoves ->
  In m openMoves ->
  rookLanding p m = None.
Proof.
  intros B KS Hin G Hm.
  destruct p as [| | | |c col rw [|]|]; try reflexivity.
  cbn [kingSane] in KS. apply Z.eqb_eq in KS. subst col.
  pose proof (occupied_not_empty board _ Hin B) as Occ. cbn [position] in Occ.
  apply (no_castling_past_column_4 c 4 rw true board openMoves Occ) in G.
  rewrite king_open_moves_unfold in G. unfold Open.kingGetOpenMoves in G.
  destruct (Stepper_spec allDirections c 4 rw board) as [plain [E Sp]].
  rewrite E in G. cbn [bind] in G. injection G as ->.
  apply Sp in Hm. destruct Hm as [d [Hd [-> _]]].
  each_direction Hd; unfold rookLanding, shift, Coord.equals;
    cbn [fst snd column row Z.add Z.eqb Pos.eqb Z.pos_sub Pos.add Pos.succ
         Z.opp Pos.pred_double Z.double Z.succ_double Z.pred_double andb];
    reflexivity.
Qed.

Lemma move_onePiece_plain piece newPosition board after :
  onePiecePerSquare board = true ->
  rookLanding piece newPosition = None ->
  move piece newPosition board = Ret after ->
  onePiecePerSquare after = true.
Proof.
  intros One NoRook M.
  destruct (move_inBounds_of_returns _ _ _ _ M) as [B ->].
  apply onePiecePerSquare_NoDup.
  apply (kept_onePiece (keeps piece newPosition board) board newPosition
           newPosition (arrival piece newPosition)).
  - now apply onePiecePerSquare_NoDup.
  - apply position_arrival.
  - intros p _. pose proof (keeps_length piece newPosition board p) as L.
    destruct (keeps piece newPosition board p) as [|x [|y rest]];
      cbn [map length] in *; [constructor| |lia].
    constructor; [intros []|constructor].
  - intros p c Hp Hc. apply in_map_iff in Hc. destruct Hc as [q [<- Hq]].
    split; [exact (keeps_off_destination _ _ _ _ _ Hq)|].
    left. destruct (keeps_cases _ _ _ _ _ Hq) as [_ [->|[_ [_ [_ L]]]]].
    + apply position_clearEnPassant.
    + congruence.
Qed.

(** The flag of the pawn a move builds is set by a double step only, whose
    passed square is empty before and after the move. *)
Lemma arrival_flagSane board p openMoves m after :
  getOpenMoves p board true = Ret openMoves ->
  In m openMoves ->
  move p m board = Ret after ->
  flagSane after (otherColor (color p)) (arrival p m) = true.
Proof.
  intros G Hm M.
  destruct p as [c col rw f e|c col rw|c col rw f|c col rw|c col rw f|c col rw];
    try reflexivity.
  unfold getOpenMoves, fuelBound in G. rewrite getOpenMovesFuel_unfold in G.
  apply (PawnImpl_spec c col rw f board openMoves m G) in Hm.
  destruct (move_pieces _ _ _ _ M) as [I Q].
  assert (Free : forall passed,
            Board.isEmpty board passed = Ret true -> passed <> m ->
            holds (Board.isEmpty after passed) = true).
  { intros passed Em Ne. destruct (isEmpty_true_firstAt _ _ Em) as [Ip Fp].
    rewrite (isEmpty_firstAt_None after passed Ip); [reflexivity|].
    apply firstAt_None. intros q Hq.
    destruct (Q q Hq) as [->|[p' [Hp' [_ [->|[_ L]]]]]].
    - rewrite position_arrival. congruence.
    - rewrite position_clearEnPassant. rewrite firstAt_None in Fp. now apply Fp.
    - discriminate L. }
  cbn [color arrival]. destruct c; cbn [otherColor].
  - destruct (row m =? 0); [reflexivity|]. cbn [flagSane].
    destruct (rw =? 6) eqn:R6; [|reflexivity].
    destruct (row m =? 4) eqn:R4; [|reflexivity].
    apply Z.eqb_eq in R6, R4. subst rw. cbn [andb negb Color_eqb].
    destruct Hm as [[-> _]|[[-> [_ [E _]]]|[[-> _]|[-> _]]]];
      cbn [forwardOf doubleForwardOf leftOf rightOf row column] in *; try lia.
    apply Free; [exact E|]. intros Heq. apply (f_equal row) in Heq.
    cbn [row] in Heq. lia.
  - destruct (row m =? 7); [reflexivity|]. cbn [flagSane].
    destruct (rw =? 1) eqn:R1; [|reflexivity].
    destruct (row m =? 3) eqn:R3; [|reflexivity].
    apply Z.eqb_eq in R1, R3. subst rw. cbn [andb negb Color_eqb].
    destruct Hm as [[-> _]|[[-> [_ [E _]]]|[[-> _]|[-> _]]]];
      cbn [forwardOf doubleForwardOf leftOf rightOf row column] in *; try lia.
    apply Free; [exact E|]. intros Heq. apply (f_equal row) in Heq.
    cbn [row] in Heq. lia.
Qed.

Lemma move_flagSane board p openMoves m after :
  getOpenMoves p board true = Ret openMoves ->
  In m openMoves ->
  move p m board = Ret after ->
  forallb (flagSane after (otherColor (color p))) after = true.
Proof.
  intros G Hm M. apply forallb_forall. intros q Hq.
  destruct (move_pieces _ _ _ _ M) as [_ Q].
  destruct (Q q Hq) as [->|[p' [_ [_ [->|[R _]]]]]].
  - exact (arrival_flagSane board p openMoves m after G Hm M).
  - apply flagSane_clearEnPassant.
  - now destruct q.
Qed.

Lemma otherColor_differs thisColor :
  Color_eqb thisColor (otherColor thisColor) = false.
Proof. now destruct thisColor. Qed.

Lemma otherColor_involutive thisColor :
  otherColor (otherColor thisColor) = thisColor.
Proof. now destruct thisColor. Qed.

(** The king of the side that is not in check is not on a square the mover
    can reach, so it is still there after the move. *)
Lemma opposing_king_survives board p openMoves m after :
  forallb onBoard board = true ->
  onePiecePerSquare board = true ->
  forallb pawnSane board = true ->
  hasKing (otherColor (color p)) board = true ->
  inCheck (otherColor (color p)) board = Ret false ->
  In p board ->
  getOpenMoves p board true = Ret openMoves ->
  In m openMoves ->
  move p m board = Ret after ->
  hasKing (otherColor (color p)) after = true.
Proof.
  intros B One S HK NoCheck Hp G Hm M.
  destruct (kingSquare_king _ _ HK) as [K [HKin [IK [CK PK]]]].
  rewrite <- CK. apply (king_outlives_move board p m after K); auto.
  intros At.
  rewrite (sane_inCheck _ board B S HK) in NoCheck.
  injection NoCheck as NoCheck.
  assert (Plain : forall plain,
            getOpenMoves p board false = Ret plain -> In m plain -> False).
  { intros plain Gp Hin.
    assert (A : attackedBy (otherColor (color p)) board
                  (kingSquare (otherColor (color p)) board) = true).
    { apply existsb_exists. exists p. split; [exact Hp|].
      rewrite otherColor_differs, Gp. cbn [negb andb].
      apply existsb_exists. exists m. split; [exact Hin|].
      apply equals_spec. congruence. }
    congruence. }
  destruct (isKing p) eqn:PK'.
  - destruct p as [| | | |c col rw f|]; try discriminate.
    destruct (king_castle_extra c col rw f board openMoves G)
      as [plain [extra [Gp [-> [_ Ex]]]]].
    apply in_app_iff in Hm. destruct Hm as [Hm|Hm].
    + exact (Plain plain Gp Hm).
    + destruct (Ex m Hm) as [_ [_ [Em _]]].
      destruct (isEmpty_true_firstAt _ _ Em) as [_ Fm].
      rewrite firstAt_None in Fm. exact (Fm K HKin At).
  - rewrite (castle_irrelevant_off_king p board true PK') in G.
    exact (Plain openMoves G Hm).
Qed.

(** A move taken from [getAvailableMoves] leads from a well-formed position
    to a well-formed position with the other color to move. *)
Lemma sane_after_move board p available m after :
  saneBoard board (color p) = true ->
  In p board ->
  getAvailableMoves p board = Ret available ->
  In m available ->
  move p m board = Ret after ->
  saneBoard after (otherColor (color p)) = true.
Proof.
  intros Sn Hp GA Hm M.
  destruct (saneBoard_parts _ _ Sn) as [B [One [S [KS [F [KW [KB NC]]]]]]].
  destruct (available_in_open _ _ _ GA) as [openMoves [G Sub]].
  pose proof (Sub m Hm) as Ho.
  destruct (available_move_safe _ _ _ _ GA Hm) as [after' [M' Safe]].
  rewrite M in M'. injection M' as <-.
  assert (Bp : onBoard p = true) by (rewrite forallb_forall in B; auto).
  assert (KSp : kingSane p = true) by (rewrite forallb_forall in KS; auto).
  assert (Own : hasKing (color p) after = true).
  { apply (king_survives board p m after (color p)); auto.
    - now apply hasKing_either.
    - exact (sane_moves_landable board (color p) p true openMoves m F G Ho). }
  assert (Other : hasKing (otherColor (color p)) after = true).
  { apply (opposing_king_survives board p openMoves m after); auto.
    now apply hasKing_either. }
  unfold saneBoard.
  rewrite (move_keeps_onBoard _ _ _ _ B M).
  rewrite (move_onePiece_plain p m board after One
             (sane_move_no_castle board p openMoves m Bp KSp Hp G Ho) M).
  rewrite (move_keeps_pawnSane _ _ _ _ S M).
  rewrite (move_keeps_kingSane _ _ _ _ KS M).
  rewrite (move_flagSane board p openMoves m after G Ho M).
  rewrite otherColor_involutive, Safe.
  destruct (color p); cbn [otherColor] in *; now rewrite Own, Other.
Qed.

Section ClickInvariant.

Variable same : Piece -> Piece -> bool.

(** A click on a square of the board, in a well-formed state, returns and
    leaves a well-formed state. *)
Lemma sane_click s row column :
  sane s ->
  Coord.inBounds (| column, row |) = true ->
  exists s', handleClick same s row column = Ret s' /\ sane s'.
Proof.
  intros [Sn Sel] I. unfold handleClick.
  pose proof (sane_calculateWinner _ _ Sn) as W.
  destruct (calculateWinner (gameBoard s) (gameColor s)) as [[w|]| |];
    try discriminate; cbn [bind].
  { exists s. split; [reflexivity|]. split; assumption. }
  destruct (saneBoard_parts _ _ Sn) as [B [One [S [KS [F [KW [KB NC]]]]]]].
  assert (Click :
    exists s',
      (empty <- Board.isEmpty (gameBoard s) (| column, row |) ;;
       if negb empty then
         piece <- Board.getPieceAt (gameBoard s) (| column, row |) ;;
         if match gameSelected s with
            | Some selectedPiece => same piece selectedPiece
            | None => false
            end
         then Ret (mkGameState (gameBoard s) None (gameColor s))
         else if Color_eqb (color piece) (gameColor s)
              then Ret (mkGameState (gameBoard s) (Some piece) (gameColor s))
              else Ret s
       else Ret s) = Ret s' /\ sane s').
  { rewrite (isEmpty_inBounds _ _ I). cbn [bind].
    destruct (Board.firstAt (gameBoard s) (| column, row |)) as [piece|] eqn:E;
      cbn [negb].
    - rewrite (getPieceAt_firstAt _ _ _ I E). cbn [bind].
      destruct (firstAt_Some _ _ _ E) as [Hin _].
      destruct (match gameSelected s with
                | Some selectedPiece => same piece selectedPiece
                | None => false
                end).
      + eexists. split; [reflexivity|]. split; [exact Sn|]. discriminate.
      + destruct (Color_eqb (color piece) (gameColor s)) eqn:C.
        * eexists. split; [reflexivity|]. split; [exact Sn|].
          cbn [gameSelected gameBoard gameColor]. intros q [= <-].
          split; [exact Hin | now apply Color_eqb_true].
        * exists s. split; [reflexivity|]. split; assumption.
    - exists s. split; [reflexivity|]. split; assumption. }
  destruct (gameSelected s) as [selectedPiece|] eqn:G; cbn [bind];
    [|exact Click].
  destruct (Sel selectedPiece eq_refl) as [Hin C].
  assert (R : returns (getAvailableMoves selectedPiece (gameBoard s)) = true).
  { apply (sane_available_return _ (gameColor s)); auto.
    now apply hasKing_either. }
  destruct (getAvailableMoves selectedPiece (gameBoard s)) as [available| |] eqn:GA;
    try discriminate. cbn [bind].
  destruct (existsb _ available) eqn:Ex; cbn [bind]; [|exact Click].
  apply existsb_exists in Ex. destruct Ex as [m [Hm Eq]].
  apply equals_spec in Eq. subst m.
  destruct (available_move_safe _ _ _ _ GA Hm) as [after [M _]].
  rewrite M. cbn [bind]. eexists. split; [reflexivity|].
  split; cbn [gameBoard gameColor gameSelected]; [|discriminate].
  rewrite <- C in *.
  exact (sane_after_move _ _ _ _ _ Sn Hin GA Hm M).
Qed.

Lemma sane_start : sane startingState.
Proof.
  split; [vm_compute; reflexivity | discriminate].
Qed.

Lemma reachable_sane s : reachable same s -> sane s.
Proof.
  induction 1 as [|s row column s' _ IH I H]; [exact sane_start|].
  destruct (sane_click s row column IH I) as [s'' [H' Sn]].
  rewrite H in H'. now injection H' as ->.
Qed.

End ClickInvariant.

Lemma pawnInside_clearEnPassant p : pawnInside (clearEnPassant p) = pawnInside p.
Proof. now destruct p. Qed.

(** A pawn that is not promoted lands inside the six middle rows. *)
Lemma move_keeps_pawnInside board p openMoves m after :
  forallb pawnInside board = true ->
  In p board ->
  getOpenMoves p board true = Ret openMoves ->
  In m openMoves ->
  move p m board = Ret after ->
  forallb pawnInside after = true.
Proof.
  intros Ins Hp G Hm M. destruct (move_pieces _ _ _ _ M) as [I Q].
  rewrite forallb_forall in *. intros q Hq.
  destruct (Q q Hq) as [->|[p' [Hp' [_ [->|[R _]]]]]].
  - specialize (Ins p Hp).
    destruct p as [c col rw f e|c col rw|c col rw f|c col rw|c col rw f|c col rw];
      try reflexivity.
    unfold getOpenMoves, fuelBound in G. rewrite getOpenMovesFuel_unfold in G.
    apply (PawnImpl_spec c col rw f board openMoves m G) in Hm.
    apply inBounds_spec in I. cbn [pawnInside] in Ins.
    apply andb_true_iff in Ins. destruct Ins as [Lo Hi].
    apply Z.leb_le in Lo, Hi.
    assert (Row : match c with
                  | White => row m = rw - 1 \/ row m = rw - 2
                  | Black => row m = rw + 1 \/ row m = rw + 2
                  end).
    { destruct c;
        destruct Hm as [[-> _]|[[-> _]|[[-> _]|[-> _]]]];
        cbn [forwardOf doubleForwardOf leftOf rightOf row]; auto. }
    destruct c; cbn [arrival].
    + destruct (row m =? 0) eqn:Z0; [reflexivity|]. apply Z.eqb_neq in Z0.
      cbn [pawnInside]. apply andb_true_iff. rewrite !Z.leb_le. lia.
    + destruct (row m =? 7) eqn:Z7; [reflexivity|]. apply Z.eqb_neq in Z7.
      cbn [pawnInside]. apply andb_true_iff. rewrite !Z.leb_le. lia.
  - rewrite pawnInside_clearEnPassant. now apply Ins.
  - now destruct q.
Qed.

Lemma reachable_pawnInside same s :
  reachable same s -> forallb pawnInside (gameBoard s) = true.
Proof.
  induction 1 as [|s row column s' R IH I H]; [reflexivity|].
  destruct (handleClick_cases same s row column s' H)
    as [->|[[_ [p [available [after [Sel [GA [Hm [M ->]]]]]]]]|[->|[p [_ [_ ->]]]]]];
    try exact IH.
  cbn [gameBoard].
  destruct (available_in_open _ _ _ GA) as [openMoves [G Sub]].
  destruct (reachable_sane same s R) as [_ Selected].
  destruct (Selected p Sel) as [Hp _].
  exact (move_keeps_pawnInside _ p openMoves _ after IH Hp G (Sub _ Hm) M).
Qed.

(* ================================================================== *)
(** ** The game as it can be played *)

(** In every state the game can reach, a click on any of the 64 squares
    returns: [handleClick] neither throws nor runs forever, whatever the
    comparison of piece identities answers. *)
Theorem clicks_never_fail (same : Piece -> Piece -> bool)
  (s : GameState) (row column : Z) :
  reachable same s ->
  Coord.inBounds (| column, row |) = true ->
  exists s', handleClick same s row column = Ret s'.
Proof.
  intros R I.
  destruct (sane_click same s row column (reachable_sane same s R) I)
    as [s' [H _]].
  now exists s'.
Qed.

(** In every state the game can reach, the board has at most one piece per
    square, every piece on the board, a king of each color, and the color
    that has just moved is not in check; the selected piece, if any, is a
    piece of the board of the color to move. *)
Theorem reachable_positions_well_formed (same : Piece -> Piece -> bool)
  (s : GameState) :
  reachable same s ->
  onePiecePerSquare (gameBoard s) = true
  /\ (forall p, In p (gameBoard s) -> Coord.inBounds (position p) = true)
  /\ hasKing White (gameBoard s) = true
  /\ hasKing Black (gameBoard s) = true
  /\ inCheck (otherColor (gameColor s)) (gameBoard s) = Ret false
  /\ (forall p, gameSelected s = Some p ->
        In p (gameBoard s) /\ color p = gameColor s).
Proof.
  intros R. destruct (reachable_sane same s R) as [Sn Sel].
  destruct (saneBoard_parts _ _ Sn) as [B [One [_ [_ [_ [KW [KB NC]]]]]]].
  rewrite forallb_forall in B. repeat split; auto; now apply Sel.
Qed.

(** In every state the game can reach, asking for the castle changes
    nothing: [getOpenMoves(board, true)] is [getOpenMoves(board, false)] for
    every piece of the board, kings included. *)
Theorem no_castling_in_a_game (same : Piece -> Piece -> bool)
  (s : GameState) (p : Piece) :
  reachable same s ->
  In p (gameBoard s) ->
  getOpenMoves p (gameBoard s) true = getOpenMoves p (gameBoard s) false.
Proof.
  intros R Hp. destruct (reachable_sane same s R) as [Sn _].
  destruct (saneBoard_parts _ _ Sn) as [B [_ [S [KS _]]]].
  destruct (isKing p) eqn:K; [|now apply castle_irrelevant_off_king].
  destruct p as [| | | |c col rw f|]; try discriminate.
  destruct f.
  - pose proof (sane_moves_return _ _ true B S Hp) as Ret1.
    destruct (getOpenMoves (King c col rw true) (gameBoard s) true)
      as [openMoves| |] eqn:G; try discriminate.
    symmetry. apply no_castling_past_column_4; [|exact G].
    rewrite forallb_forall in B, KS.
    pose proof (KS _ Hp) as Col. cbn [kingSane] in Col.
    apply Z.eqb_eq in Col. subst col.
    exact (occupied_not_empty _ _ Hp (B _ Hp)).
  - rewrite !king_open_moves_unfold. reflexivity.
Qed.

(** In every state the game can reach, the operations on the board return:
    [getOpenMoves] and [getAvailableMoves] for every piece of the board,
    [inCheck], [inCheckmate] and [inStalemate] for both colors, and
    [calculateWinner] for the color to move. *)
Theorem game_operations_return (same : Piece -> Piece -> bool) (s : GameState) :
  reachable same s ->
  (forall p castle, In p (gameBoard s) ->
     returns (getOpenMoves p (gameBoard s) castle) = true
     /\ returns (getAvailableMoves p (gameBoard s)) = true)
  /\ (forall thisColor,
        returns (inCheck thisColor (gameBoard s)) = true
        /\ returns (inCheckmate thisColor (gameBoard s)) = true
        /\ returns (inStalemate thisColor (gameBoard s)) = true)
  /\ returns (calculateWinner (gameBoard s) (gameColor s)) = true.
Proof.
  intros R. destruct (reachable_sane same s R) as [Sn _].
  destruct (saneBoard_parts _ _ Sn) as [B [One [S [_ [F [KW [KB _]]]]]]].
  split; [|split].
  - intros p castle Hp. split.
    + now apply sane_moves_return.
    + apply (sane_available_return _ (gameColor s)); auto.
      now apply hasKing_either.
  - intros thisColor. exact (sane_terminal_return _ _ thisColor Sn).
  - exact (sane_calculateWinner _ _ Sn).
Qed.

(** In every state the game can reach, a pawn stands on one of the six
    middle rows; it holds [firstMove] on its home row only; and it holds
    [enPassant] only if it belongs to the color that has just moved and
    stands two rows ahead of its home row, the square it passed being
    empty. *)
Theorem pawns_in_a_game (same : Piece -> Piece -> bool) (s : GameState)
  (c : Color) (col rw : Z) (f e : bool) :
  reachable same s ->
  In (Pawn c col rw f e) (gameBoard s) ->
  1 <= rw <= 6
  /\ (f = true -> rw = homeRow c)
  /\ (e = true ->
      c = otherColor (gameColor s)
      /\ rw = match c with White => 4 | Black => 3 end
      /\ Board.isEmpty (gameBoard s)
           (| col, match c with White => 5 | Black => 2 end |) = Ret true).
Proof.
  intros R Hp. destruct (reachable_sane same s R) as [Sn _].
  destruct (saneBoard_parts _ _ Sn) as [_ [_ [S [_ [F _]]]]].
  pose proof (reachable_pawnInside same s R) as Ins.
  rewrite forallb_forall in S, F, Ins.
  specialize (S _ Hp). specialize (F _ Hp). specialize (Ins _ Hp).
  cbn [pawnInside] in Ins. apply andb_true_iff in Ins.
  rewrite !Z.leb_le in Ins. split; [exact Ins|]. split.
  - intros ->. destruct c; cbn [pawnSane homeRow] in *; now apply Z.eqb_eq.
  - intros ->. destruct c; cbn [flagSane] in F;
      apply andb_true_iff in F; destruct F as [F Em];
      apply andb_true_iff in F; destruct F as [T Rw];
      apply Z.eqb_eq in Rw; unfold holds in Em;
      match type of Em with
      | match ?x with _ => _ end = true =>
          destruct x as [[|]| |] eqn:X; try discriminate
      end;
      (split; [destruct (gameColor s); now try discriminate | split; auto]).
Qed.

Lemma pawnSelected_reachable : reachable samePosition pawnSelected.
Proof.
  apply (reachable_click samePosition startingState 6 4).
  - apply reachable_start.
  - reflexivity.
  - vm_compute. reflexivity.
Defined.

Lemma turn_passes_by_a_legal_move_witness :
  handleClick samePosition pawnSelected 4 4
  = Ret (mkGameState openingBoard None Black)
  /\ gameBoard (mkGameState openingBoard None Black) <> gameBoard pawnSelected
  /\ exists piece available,
       gameSelected pawnSelected = Some piece
       /\ getAvailableMoves piece startingPieces = Ret available
       /\ In (| 4, 4 |) available
       /\ move piece (| 4, 4 |) startingPieces = Ret openingBoard
       /\ inCheck (color piece) openingBoard = Ret false.
Proof.
  assert (H : handleClick samePosition pawnSelected 4 4
              = Ret (mkGameState openingBoard None Black))
    by (vm_compute; reflexivity).
  split; [exact H|]. split; [discriminate|].
  destruct (turn_passes_by_a_legal_move samePosition pawnSelected 4 4 _ H)
    as [Turn _].
  destruct Turn as [_ [piece [available [S [G [I [M [C _]]]]]]]];
    [discriminate|].
  exists piece, available. auto.
Defined.

Lemma clicks_never_fail_witness :
  reachable samePosition pawnSelected
  /\ exists s', handleClick samePosition pawnSelected 4 4 = Ret s'.
Proof.
  split; [exact pawnSelected_reachable|].
  apply (clicks_never_fail samePosition pawnSelected 4 4).
  - exact pawnSelected_reachable.
  - reflexivity.
Defined.

Lemma reachable_positions_well_formed_witness :
  reachable samePosition pawnSelected
  /\ onePiecePerSquare startingPieces = true
  /\ inCheck Black startingPieces = Ret false.
Proof.
  split; [exact pawnSelected_reachable|].
  destruct (reachable_positions_well_formed samePosition pawnSelected
              pawnSelected_reachable) as [One [_ [_ [_ [NC _]]]]].
  split; [exact One | exact NC].
Defined.

Lemma no_castling_in_a_game_witness :
  In (King White 4 7 true) startingPieces
  /\ getOpenMoves (King White 4 7 true) startingPieces true
     = getOpenMoves (King White 4 7 true) startingPieces false.
Proof.
  assert (Hin : In (King White 4 7 true) startingPieces)
    by (unfold startingPieces; repeat first [left; reflexivity | right]).
  split; [exact Hin|].
  apply (no_castling_in_a_game samePosition pawnSelected (King White 4 7 true)).
  - exact pawnSelected_reachable.
  - exact Hin.
Defined.

Lemma game_operations_return_witness :
  reachable samePosition pawnSelected
  /\ returns (calculateWinner startingPieces White) = true.
Proof.
  split; [exact pawnSelected_reachable|].
  exact (proj2 (proj2 (game_operations_return samePosition pawnSelected
                         pawnSelected_reachable))).
Defined.

Lemma pawns_in_a_game_witness :
  In (Pawn White 4 6 true false) startingPieces
  /\ 1 <= 6 <= 6
  /\ (true = true -> 6 = homeRow White).
Proof.
  assert (Hin : In (Pawn White 4 6 true false) startingPieces)
    by (unfold startingPieces; repeat first [left; reflexivity | right]).
  split; [exact Hin|].
  destruct (pawns_in_a_game samePosition pawnSelected White 4 6 true false
              pawnSelected_reachable Hin) as [Rows [Home _]].
  split; [exact Rows | exact Home].
Defined.
